(** * Toll server tools and their chat client: a shallow embedding

    The development follows the two Python files of the repository:
    - [server.py]: the tools [secret_word], [calculate_toll],
      [run_sql_query] (SQL warehouse: submit, poll, translate) and
      [run_snowflake_query] (explicit connection, cursor, translate);
    - [streamlit_client.py]: [generate_sql_query] and the command
      interpreter [process_command].

    Python values are modelled as follows.  A [str] is a [string] of ASCII
    characters (characters above 127 are carried through unchanged, so the
    model is exact on ASCII text).  A [float] is a primitive binary64
    [float]; [round(x, 2)] and [float(text)] are defined on the exact value
    of the double.  A [dict] is an insertion-ordered association list.  The
    process environment is a [gmap string string].  Remote collaborators
    (the SQL warehouse, the Snowflake driver, the language gateway, the tool
    server seen from the client) are records of functions, and what a tool
    does to them is recorded in an explicit world that is threaded through
    the code. *)

From Stdlib Require Import ZArith NArith Floats String Ascii List Bool Lia.
From stdpp Require Import base option list strings gmap.

#[local] Set Warnings "-inexact-float".
#[local] Open Scope string_scope.

(** ** Python strings *)

Module PyStr.

Definition code (c : ascii) : N := N_of_ascii c.

Definition between (lo hi : N) (c : ascii) : bool :=
  ((lo <=? code c) && (code c <=? hi))%N.

(** [str.isspace] on one ASCII character: tab, LF, VT, FF, CR, the four
    separators FS GS RS US, and the space. *)
Definition isspace (c : ascii) : bool := between 9 13 c || between 28 32 c.

Definition isdigit (c : ascii) : bool := between 48 57 c.

Definition isupper (c : ascii) : bool := between 65 90 c.

Definition islower (c : ascii) : bool := between 97 122 c.

(** The class [\w]. *)
Definition isword (c : ascii) : bool :=
  islower c || isupper c || isdigit c || Ascii.eqb c "_".

Definition lower_ascii (c : ascii) : ascii :=
  if isupper c then ascii_of_N (code c + 32) else c.

(** [s.lower()] *)
Fixpoint lower (s : string) : string :=
  match s with
  | EmptyString => EmptyString
  | String c s' => String (lower_ascii c) (lower s')
  end.

(** [s.lstrip()] *)
Fixpoint lstrip (s : string) : string :=
  match s with
  | EmptyString => EmptyString
  | String c s' => if isspace c then lstrip s' else s
  end.

(** [s.rstrip()] *)
Fixpoint rstrip (s : string) : string :=
  match s with
  | EmptyString => EmptyString
  | String c s' =>
      match rstrip s' with
      | EmptyString => if isspace c then EmptyString else String c EmptyString
      | r => String c r
      end
  end.

(** [s.strip()] *)
Definition strip (s : string) : string := rstrip (lstrip s).

(** [s.startswith(p)] *)
Fixpoint startswith (p s : string) : bool :=
  match p, s with
  | EmptyString, _ => true
  | String a p', String b s' => Ascii.eqb a b && startswith p' s'
  | String _ _, EmptyString => false
  end.

(** [sub in s] *)
Fixpoint str_in (sub s : string) : bool :=
  startswith sub s ||
  match s with
  | EmptyString => false
  | String _ s' => str_in sub s'
  end.

(** [sep.join(parts)] *)
Fixpoint join (sep : string) (parts : list string) : string :=
  match parts with
  | [] => EmptyString
  | [p] => p
  | p :: rest => p +:+ sep +:+ join sep rest
  end.

(** Longest prefix of characters satisfying [p], and what follows it. *)
Fixpoint take_while (p : ascii -> bool) (s : string) : string :=
  match s with
  | EmptyString => EmptyString
  | String c s' => if p c then String c (take_while p s') else EmptyString
  end.

Fixpoint drop_while (p : ascii -> bool) (s : string) : string :=
  match s with
  | EmptyString => EmptyString
  | String c s' => if p c then drop_while p s' else s
  end.

(** [all(p(c) for c in s)] *)
Fixpoint all (p : ascii -> bool) (s : string) : bool :=
  match s with
  | EmptyString => true
  | String c s' => p c && all p s'
  end.

(** [s[n:]] *)
Fixpoint drop (n : nat) (s : string) : string :=
  match n, s with
  | S n', String _ s' => drop n' s'
  | _, _ => s
  end.

(** [s.partition(sep)[2]] when [sep in s]: the text that follows the first
    occurrence of [sep]. *)
Fixpoint after_first (sep s : string) : option string :=
  if startswith sep s then Some (drop (String.length sep) s)
  else
    match s with
    | EmptyString => None
    | String _ s' => after_first sep s'
    end.

(** A Python truth test on an optional string: [None] and [""] are false. *)
Definition truthy (o : option string) : bool :=
  match o with
  | Some (String _ _) => true
  | _ => false
  end.

End PyStr.

(** ** Python floats *)

Module PyFloat.

(** Quotient of [n] by [d > 0] rounded to the nearest integer, ties to even. *)
Definition div_half_even (n d : Z) : Z :=
  let q := (n / d)%Z in
  match (2 * (n mod d) ?= d)%Z with
  | Lt => q
  | Gt => (q + 1)%Z
  | Eq => if Z.even q then q else (q + 1)%Z
  end.

(** The double nearest to [n / d] for natural numbers [n] and [d > 0], with
    the sign [s]. *)
Definition nearest_ratio (s : bool) (n d : positive) : float :=
  SF2Prim (SFdiv prec emax (S754_finite s n 0) (S754_finite false d 0)).

Fixpoint pow10 (k : nat) : positive :=
  match k with
  | O => 1%positive
  | S k' => (10 * pow10 k')%positive
  end.

(** [round(x, ndigits)] for [ndigits >= 0]: the exact value of [x] is rounded
    to [ndigits] decimals, ties to even, and the decimal obtained is
    converted back to the nearest double.  Infinities, NaN and doubles that
    are integers are returned unchanged. *)
Definition round (x : float) (ndigits : nat) : float :=
  match Prim2SF x with
  | S754_finite s m e =>
      if (0 <=? e)%Z then x
      else
        let p := pow10 ndigits in
        match div_half_even (Z.pos (p * m)) (2 ^ (- e)) with
        | Z.pos n => nearest_ratio s n p
        | _ => if s then PrimFloat.neg_zero else PrimFloat.zero
        end
  | _ => x
  end.

Definition digit_value (c : ascii) : N := (PyStr.code c - 48)%N.

(** Value of a run of decimal digits, most significant first. *)
Fixpoint digits_value (acc : N) (s : string) : option N :=
  match s with
  | EmptyString => Some acc
  | String c s' =>
      if PyStr.isdigit c then digits_value (10 * acc + digit_value c) s'
      else None
  end.

(** [float(text)] on the plain decimal syntax [digits] or [digits.digits]
    (an empty fraction is allowed, as in ["12."]): the nearest double to the
    decimal.  [None] stands for the [ValueError] Python raises; the other
    spellings [float] accepts (signs, exponents, inf, nan, blanks) do not
    occur in this program. *)
Definition float_of_str (text : string) : option float :=
  let ip := PyStr.take_while PyStr.isdigit text in
  let rest := PyStr.drop_while PyStr.isdigit text in
  match ip with
  | EmptyString => None
  | _ =>
      let frac :=
        match rest with
        | EmptyString => Some EmptyString
        | String c f => if Ascii.eqb c "." then Some f else None
        end in
      match frac with
      | None => None
      | Some f =>
          match digits_value 0 (ip +:+ f) with
          | Some (Npos n) =>
              Some (nearest_ratio false n (pow10 (String.length f)))
          | Some N0 => Some PrimFloat.zero
          | None => None
          end
      end
  end.

End PyFloat.

(** ** Python dictionaries

    A [dict] keeps its keys in insertion order; assigning to a key that is
    already present replaces the value and leaves the key where it is. *)

Module PyDict.

Definition dict (V : Type) : Type := list (string * V).

(** [d[k] = v] *)
Fixpoint setitem {V} (k : string) (v : V) (d : dict V) : dict V :=
  match d with
  | [] => [(k, v)]
  | (k', v') :: d' =>
      if String.eqb k k' then (k', v) :: d' else (k', v') :: setitem k v d'
  end.

(** [d.get(k)] *)
Fixpoint get {V} (k : string) (d : dict V) : option V :=
  match d with
  | [] => None
  | (k', v') :: d' => if String.eqb k k' then Some v' else get k d'
  end.

(** [d.get(k, dflt)] *)
Definition get_default {V} (k : string) (dflt : V) (d : dict V) : V :=
  default dflt (get k d).

(** [dict(pairs)]: the pairs are assigned from left to right. *)
Definition of_pairs {V} (pairs : list (string * V)) : dict V :=
  fold_left (fun d kv => setitem kv.1 kv.2 d) pairs [].

(** [list(d.keys())] and [len(d)] *)
Definition keys {V} (d : dict V) : list string := map fst d.

Definition len {V} (d : dict V) : nat := length d.

End PyDict.

(** ** Regular expressions

    The fragment of Python's [re] that the client uses: a pattern is a
    sequence of one-character atoms (a literal, an escaped literal, [.],
    [\s], [\w], [\d]), each with an optional greedy quantifier [?], [*] or
    [+], and the parentheses of one capturing group.  Matching is the
    backtracking search of [re]: quantifiers take as much as they can and
    give back one character at a time, and [search] returns the match at the
    leftmost position that has one. *)

Module Re.

Inductive quant : Type := One | Opt | Star | Plus.

Inductive item : Type :=
| Atom (p : ascii -> bool) (q : quant)
| GroupOpen
| GroupClose.

Definition regex : Type := list item.

Inductive token : Type :=
| TAtom (p : ascii -> bool)
| TQuant (q : quant)
| TOpen
| TClose
| TOther (c : ascii).

(** A literal character, under [re.IGNORECASE] when [icase] is set. *)
Definition literal (icase : bool) (x : ascii) : ascii -> bool :=
  if icase then fun c => Ascii.eqb (PyStr.lower_ascii c) (PyStr.lower_ascii x)
  else Ascii.eqb x.

(** What an escape [\x] stands for: one of the classes [\s], [\w], [\d], or
    the character itself when it is not a letter or a digit.  The other
    escapes are outside the fragment. *)
Definition escape (icase : bool) (x : ascii) : token :=
  if Ascii.eqb x "s" then TAtom PyStr.isspace
  else if Ascii.eqb x "w" then TAtom PyStr.isword
  else if Ascii.eqb x "d" then TAtom PyStr.isdigit
  else if PyStr.isword x then TOther x
  else TAtom (literal icase x).

Definition not_newline (c : ascii) : bool := negb (Ascii.eqb c "010").

(** The characters with a meaning of their own that the fragment leaves
    out: anchors, sets, counted repetition, alternation. *)
Definition unsupported (c : ascii) : bool :=
  existsb (Ascii.eqb c) ["^"; "$"; "["; "]"; "{"; "}"; "|"]%char.

Fixpoint lex (icase : bool) (pattern : string) : list token :=
  match pattern with
  | EmptyString => []
  | String c rest =>
      if Ascii.eqb c "\" then
        match rest with
        | String x rest' => escape icase x :: lex icase rest'
        | EmptyString => [TOther c]
        end
      else if Ascii.eqb c "(" then TOpen :: lex icase rest
      else if Ascii.eqb c ")" then TClose :: lex icase rest
      else if Ascii.eqb c "?" then TQuant Opt :: lex icase rest
      else if Ascii.eqb c "*" then TQuant Star :: lex icase rest
      else if Ascii.eqb c "+" then TQuant Plus :: lex icase rest
      else if Ascii.eqb c "." then TAtom not_newline :: lex icase rest
      else if unsupported c then TOther c :: lex icase rest
      else TAtom (literal icase c) :: lex icase rest
  end.

(** Quantifiers are attached to the atom they follow.  A quantifier with
    nothing to repeat (which also rules out lazy quantifiers and the
    extension syntax that starts a group with a question mark) and a token
    outside the fragment are errors of the pattern ([None]). *)
Fixpoint items (ts : list token) : option regex :=
  match ts with
  | [] => Some []
  | TAtom p :: TQuant q :: ts' => cons (Atom p q) <$> items ts'
  | TAtom p :: ts' => cons (Atom p One) <$> items ts'
  | TOpen :: ts' => cons GroupOpen <$> items ts'
  | TClose :: ts' => cons GroupClose <$> items ts'
  | TQuant _ :: _ => None
  | TOther _ :: _ => None
  end.

(** The parentheses of a pattern of the fragment: none, or one pair.
    [depth] is 0 before the group, 1 inside it and 2 after it. *)
Fixpoint one_group (depth : nat) (r : regex) : bool :=
  match r, depth with
  | [], 1 => false
  | [], _ => true
  | Atom _ _ :: r', _ => one_group depth r'
  | GroupOpen :: r', 0 => one_group 1 r'
  | GroupClose :: r', 1 => one_group 2 r'
  | _ :: _, _ => false
  end.

(** [re.compile(pattern, flags)] *)
Definition compile (icase : bool) (pattern : string) : option regex :=
  match items (lex icase pattern) with
  | Some r => if one_group 0 r then Some r else None
  | None => None
  end.

(** The text of group 1 while a match is attempted. *)
Inductive capture : Type :=
| Unset
| Open (text : string)
| Closed (text : string).

Definition push (c : capture) (ch : ascii) : capture :=
  match c with
  | Open text => Open (text +:+ String ch EmptyString)
  | _ => c
  end.

Definition close (c : capture) : capture :=
  match c with
  | Open text => Closed text
  | _ => c
  end.

(** First success of two alternatives, in order. *)
Definition orelse {A} (a : option A) (b : option A) : option A :=
  match a with
  | Some x => Some x
  | None => b
  end.

(** [match_here r c s]: match [r] at the start of [s]; on success, the
    capture at the end of the match. *)
Fixpoint match_here (r : regex) : capture -> string -> option capture :=
  match r with
  | [] => fun c _ => Some c
  | GroupOpen :: r' => fun _ s => match_here r' (Open EmptyString) s
  | GroupClose :: r' => fun c s => match_here r' (close c) s
  | Atom p q :: r' =>
      let many :=
        fix many (c : capture) (s : string) {struct s} : option capture :=
          match s with
          | String ch s' =>
              if p ch then orelse (many (push c ch) s') (match_here r' c s)
              else match_here r' c s
          | EmptyString => match_here r' c s
          end in
      fun c s =>
        match q, s with
        | One, String ch s' =>
            if p ch then match_here r' (push c ch) s' else None
        | One, EmptyString => None
        | Opt, String ch s' =>
            if p ch then orelse (match_here r' (push c ch) s') (match_here r' c s)
            else match_here r' c s
        | Opt, EmptyString => match_here r' c s
        | Star, _ => many c s
        | Plus, String ch s' => if p ch then many (push c ch) s' else None
        | Plus, EmptyString => None
        end
  end.

(** The match object: the text of group 1. *)
Definition group1 (c : capture) : string :=
  match c with
  | Closed text => text
  | Open text => text
  | Unset => EmptyString
  end.

(** Leftmost match of [r] in [s]. *)
Fixpoint search_from (r : regex) (s : string) : option capture :=
  orelse (match_here r Unset s)
    match s with
    | EmptyString => None
    | String _ s' => search_from r s'
    end.

(** [re.search(pattern, s, flags)]; on a match, [m.group(1)].  A pattern
    outside the fragment is not searched; the patterns of the client are
    all inside it. *)
Definition search (icase : bool) (pattern : string) (s : string) : option string :=
  match compile icase pattern with
  | Some r => group1 <$> search_from r s
  | None => None
  end.

(** *** Pieces of patterns and of matches, for the properties *)

(** The capture after the characters of [t] have been consumed. *)
Fixpoint pushes (c : capture) (t : string) : capture :=
  match t with
  | EmptyString => c
  | String ch t' => pushes (push c ch) t'
  end.

(** A capture that consuming a character does not change. *)
Definition settled (c : capture) : bool :=
  match c with
  | Open _ => false
  | _ => true
  end.

(** An item list without parentheses. *)
Fixpoint group_free (r : regex) : bool :=
  match r with
  | [] => true
  | Atom _ _ :: r' => group_free r'
  | _ :: _ => false
  end.

(** The items of a literal text. *)
Fixpoint literals (icase : bool) (t : string) : regex :=
  match t with
  | EmptyString => []
  | String x t' => Atom (literal icase x) One :: literals icase t'
  end.

(** The items of the group of the distance and rate patterns: digits, an
    optional dot, digits. *)
Definition number_group : regex :=
  [GroupOpen; Atom PyStr.isdigit Plus; Atom (Ascii.eqb ".") Opt;
   Atom PyStr.isdigit Star; GroupClose].

(** Digits, then possibly a dot, then possibly more digits. *)
Definition decimal (t : string) : Prop :=
  exists a b d, t = a +:+ b +:+ d /\ a <> EmptyString /\ PyStr.all PyStr.isdigit a = true /\
                (b = EmptyString \/ b = ".") /\ PyStr.all PyStr.isdigit d = true.

(** The items that end the query pattern: blanks, then the group that takes
    the rest of the line. *)
Definition blank_then_line : regex :=
  [Atom PyStr.isspace Plus; GroupOpen; Atom not_newline Plus; GroupClose].

End Re.

(** ** Exceptions and effects

    A computation runs in a world [W] that records what it did to its
    collaborators.  It either returns a value or raises an exception, with
    the world it leaves behind; [None] is a loop that is still running when
    its fuel is spent. *)

Module Py.

(** The exceptions of the program, each with its message; [LibraryError]
    stands for whatever a library (the driver, the HTTP client, the tool
    client) raises of its own. *)
Inductive exn : Type :=
| ValueError (msg : string)
| RuntimeError (msg : string)
| AttributeError (msg : string)
| IndexError (msg : string)
| LibraryError (msg : string).

(** [str(e)] *)
Definition str_exn (e : exn) : string :=
  match e with
  | ValueError msg | RuntimeError msg | AttributeError msg
  | IndexError msg | LibraryError msg => msg
  end.

Inductive outcome (A : Type) : Type :=
| Return (a : A)
| Raise (e : exn).

Arguments Return {A} a.
Arguments Raise {A} e.

Definition M (W A : Type) : Type := W -> option (outcome A * W).

Definition ret {W A} (a : A) : M W A := fun w => Some (Return a, w).

Definition raise {W A} (e : exn) : M W A := fun w => Some (Raise e, w).

Definition bind {W A B} (c : M W A) (k : A -> M W B) : M W B :=
  fun w =>
    match c w with
    | Some (Return a, w') => k a w'
    | Some (Raise e, w') => Some (Raise e, w')
    | None => None
    end.

(** [try: body  except Exception as e: handler(e)] *)
Definition try_except {W A} (body : M W A) (handler : exn -> M W A) : M W A :=
  fun w =>
    match body w with
    | Some (Raise e, w') => handler e w'
    | r => r
    end.

(** An effect on the world that returns nothing. *)
Definition effect {W} (f : W -> W) : M W unit := fun w => Some (Return tt, f w).

(** A loop that has not finished within its fuel. *)
Definition diverge {W A} : M W A := fun _ => None.

(** Lifting of a collaborator's answer. *)
Definition answer {W A} (o : outcome A) : M W A := fun w => Some (o, w).

End Py.

(** stdpp's monad notation: [x ← c; k] and [c;; k]. *)
#[global] Instance M_ret {W} : MRet (Py.M W) := fun A => @Py.ret W A.

#[global] Instance M_bind {W} : MBind (Py.M W) := fun A B k c => Py.bind c k.

(** ** The tool server ([server.py]) *)

Module Server.

Import Py.

(** A cell of a result row: loosely typed. *)
Inductive cell : Type :=
| Null
| Text (s : string)
| Int (n : Z)
| Real (x : float).

Abbreviation row := (list cell).

(** A Row Mapping: column name to cell value. *)
Abbreviation row_mapping := (PyDict.dict cell).

(** [[dict(zip(columns, row)) for row in rows]] *)
Definition zip_rows (columns : list string) (rows : list row) : list row_mapping :=
  map (fun r => PyDict.of_pairs (zip columns r)) rows.

Definition secret_word : string := "ABRACADABRA".

Definition rates : PyDict.dict float :=
  PyDict.of_pairs [("car", 1.0%float); ("truck", 1.5%float); ("motorcycle", 0.8%float)].

Definition calculate_toll (vehicle_type : string) (distance toll_rate : float) : float :=
  let multiplier := PyDict.get_default (PyStr.lower vehicle_type) 1.0%float rates in
  PyFloat.round (distance * toll_rate * multiplier)%float 2.

(** *** The SQL warehouse *)

Record StatementStatus : Type := { state : string; error : option string }.

Record Field : Type := { name : string }.

Record ResultSchema : Type := { fields : list Field }.

Record ResultData : Type :=
  { data_array : option (list row); schema : option ResultSchema }.

Record Statement : Type := { status : StatementStatus; result : option ResultData }.

Record ExecuteStatementRequest : Type :=
  { warehouse_id : string; statement : string; wait_timeout : string }.

(** What the tool does to the workspace: it submits a request, it sleeps,
    it refreshes its statement. *)
Inductive event : Type :=
| Submitted (req : ExecuteStatementRequest)
| Slept (seconds : nat)
| Refreshed.

(** The world of the primary tool: the events so far, the oldest first. *)
Definition World : Type := list event.

Definition idle : World := [].

(** The warehouse: for each request, what [execute_statement] answers
    (observation 0) and what each later [refresh] answers (observations 1,
    2, ...).  An answer is the statement as it then is, or the error the
    call raises. *)
Definition Workspace : Type := ExecuteStatementRequest -> nat -> outcome Statement.

(** The statement object held by the tool: the statement as the last call
    left it, how many refreshes it has had, and what the calls answer. *)
Record Handle : Type :=
  { observe : nat -> outcome Statement; seen : nat; current : Statement }.

Definition log (e : event) : M World unit := effect (fun w => w ++ [e])%list.

(** [workspace.statement_execution.execute_statement(request)] *)
Definition execute_statement (ws : Workspace) (req : ExecuteStatementRequest)
  : M World Handle :=
  log (Submitted req);;
  st ← answer (ws req 0);
  ret {| observe := ws req; seen := 0; current := st |}.

(** [await asyncio.sleep(seconds)] *)
Definition sleep (seconds : nat) : M World unit := log (Slept seconds).

(** [statement.refresh()] *)
Definition refresh (h : Handle) : M World Handle :=
  log Refreshed;;
  st ← answer (observe h (S (seen h)));
  ret {| observe := observe h; seen := S (seen h); current := st |}.

(** [x in xs] on a list of strings *)
Definition list_in (x : string) (xs : list string) : bool := existsb (String.eqb x) xs.

(** [statement.status.state in ["PENDING", "RUNNING"]] *)
Definition in_flight (st : Statement) : bool :=
  list_in (state (status st)) ["PENDING"; "RUNNING"].

(** The [while] loop of [poll_results]; [fuel] bounds its iterations. *)
Fixpoint poll_loop (fuel : nat) (h : Handle) {struct fuel} : M World Handle :=
  if in_flight (current h) then
    match fuel with
    | O => diverge
    | S fuel' =>
        sleep 2;;
        h' ← refresh h;
        poll_loop fuel' h'
    end
  else ret h.

(** [f"{statement.status.error}"] *)
Definition str_error (e : option string) : string := default "None" e.

(** [poll_results()]: the rows, with the statement as the loop left it. *)
Definition poll_results (fuel : nat) (h : Handle) : M World (Handle * list row) :=
  h' ← poll_loop fuel h;
  if negb (String.eqb (state (status (current h'))) "SUCCEEDED") then
    raise (RuntimeError ("Query failed: " +:+ str_error (error (status (current h')))))
  else
    match result (current h') with
    | None => raise (AttributeError "'NoneType' object has no attribute 'data_array'")
    | Some r => ret (h', default [] (data_array r))
    end.

(** The Result Translator of [run_sql_query]: the lines after polling. *)
Definition translate (results : list row) (sch : option ResultSchema)
  : list row_mapping :=
  match results, sch with
  | _ :: _, Some s =>
      let columns := map name (fields s) in
      zip_rows columns results
  | _, _ => []
  end.

(** [os.getenv(var)] *)
Definition getenv (env : gmap string string) (var : string) : option string :=
  env !! var.

(** The tool.  [fuel] bounds the iterations of the polling loop. *)
Definition run_sql_query (fuel : nat) (env : gmap string string) (ws : Workspace)
    (query : string) : M World (list row_mapping) :=
  try_except
    (let warehouse_id := getenv env "DATABRICKS_SQL_WAREHOUSE_ID" in
     match warehouse_id with
     | Some ((String _ _) as id) =>
         h ← execute_statement ws
               {| warehouse_id := id; statement := query; wait_timeout := "30s" |};
         '(h', results) ← poll_results fuel h;
         ret (translate results (result (current h') ≫= schema))
     | _ => raise (ValueError "DATABRICKS_SQL_WAREHOUSE_ID not set")
     end)
    (fun e => raise (RuntimeError ("SQL query failed: " +:+ str_exn e))).

(** *** The Snowflake bridge *)

Module Snowflake.

(** The keyword arguments of [snowflake.connector.connect]. *)
Record ConnectArgs : Type :=
  { account : string; user : string; password : string; database : string;
    schema : string; warehouse : string; autocommit : bool }.

(** What a cursor holds once [execute] has succeeded: [cur.description]
    (entries are tuples that start with the column name and its type code)
    and what [cur.fetchall()] will answer. *)
Record Executed : Type :=
  { description : option (list (string * nat));
    fetchall : outcome (list row) }.

(** The driver and the database behind it. *)
Record Driver : Type :=
  { connect : ConnectArgs -> outcome unit;
    execute : string -> outcome Executed }.

(** A resource of the driver: never acquired, held, or released. *)
Inductive resource : Type := Absent | Held | Released.

Record World : Type :=
  { connection : resource;
    cursor : resource;
    executed : list string }.

Definition idle : World := {| connection := Absent; cursor := Absent; executed := [] |}.

Definition set_connection (r : resource) : M World unit :=
  effect (fun w => {| connection := r; cursor := cursor w; executed := executed w |}).

Definition set_cursor (r : resource) : M World unit :=
  effect (fun w => {| connection := connection w; cursor := r; executed := executed w |}).

(** [conn = snowflake.connector.connect(...)] *)
Definition open_connection (drv : Driver) (args : ConnectArgs) : M World unit :=
  answer (connect drv args);;
  set_connection Held.

(** [conn.close()] *)
Definition close_connection : M World unit := set_connection Released.

(** [with conn.cursor() as cur: body]: the cursor is closed when the block
    is left, whether [body] returns or raises. *)
Definition with_cursor {A} (body : M World A) : M World A :=
  set_cursor Held;;
  try_except
    (a ← body; set_cursor Released;; ret a)
    (fun e => set_cursor Released;; raise e).

(** [cur.execute(q)] *)
Definition cursor_execute (drv : Driver) (q : string) : M World Executed :=
  effect (fun w => {| connection := connection w; cursor := cursor w;
                      executed := executed w ++ [q] |});;
  answer (execute drv q).

(** The Result Translator of [run_query_sync]: its last line. *)
Definition translate (columns : list string) (rows : list row) : list row_mapping :=
  match columns with
  | _ :: _ => zip_rows columns rows
  | [] => []
  end.

Definition run_query_sync (drv : Driver) (q : string) : M World (list row_mapping) :=
  with_cursor
    (cur ← cursor_execute drv q;
     let columns :=
       match description cur with
       | Some ((_ :: _) as descs) => map fst descs
       | _ => []
       end in
     rows ← answer (fetchall cur);
     ret (translate columns rows)).

(** The variables the tool reads, in the order it reads them. *)
Definition required : list string :=
  ["SNOWFLAKE_ACCOUNT"; "SNOWFLAKE_USER"; "SNOWFLAKE_PASSWORD";
   "SNOWFLAKE_DATABASE"; "SNOWFLAKE_SCHEMA"; "SNOWFLAKE_WAREHOUSE"].

(** [all(values)] on optional strings *)
Definition all (values : list (option string)) : bool := forallb PyStr.truthy values.

(** [str] of a variable that passed the [all] test. *)
Definition value (o : option string) : string := default EmptyString o.

(** The tool.  [run_query_sync] is handed to a worker of the event loop
    and awaited; the tool goes on when it has returned or raised. *)
Definition run_snowflake_query (env : gmap string string) (drv : Driver)
    (query : string) : M World (list row_mapping) :=
  try_except
    (let account := getenv env "SNOWFLAKE_ACCOUNT" in
     let user := getenv env "SNOWFLAKE_USER" in
     let password := getenv env "SNOWFLAKE_PASSWORD" in
     let database := getenv env "SNOWFLAKE_DATABASE" in
     let schema := getenv env "SNOWFLAKE_SCHEMA" in
     let warehouse := getenv env "SNOWFLAKE_WAREHOUSE" in
     if negb (all [account; user; password; database; schema; warehouse]) then
       raise (ValueError "Missing one or more Snowflake environment variables.")
     else
       (open_connection drv
          {| account := value account; user := value user;
             password := value password; database := value database;
             schema := value schema; warehouse := value warehouse;
             autocommit := true |};;
        results ← run_query_sync drv query;
        close_connection;;
        ret results))
    (fun e => raise (RuntimeError ("Snowflake query failed: " +:+ str_exn e))).

End Snowflake.

End Server.

(** ** The chat client ([streamlit_client.py]) *)

Module Client.

Import Py.

(** An argument of a tool call. *)
Inductive arg : Type :=
| AStr (s : string)
| AFloat (x : float).

(** What [client.call_tool] answers: the items of the result, each as
    [str] renders it. *)
Definition tool_result : Type := list string.

(** The tool server as the client sees it. *)
Definition ToolServer : Type := string -> PyDict.dict arg -> outcome tool_result.

(** The request posted to the language gateway: [requests.post(url,
    json={"model", "prompt", "max_tokens"}, headers=headers)]. *)
Record GatewayRequest : Type :=
  { url : string;
    model : string;
    prompt : string;
    max_tokens : nat;
    headers : PyDict.dict string }.

(** The JSON body of an answer with a success status: the ["choices"] list
    when there is one, each choice with its ["text"] when it has one. *)
Record GatewayReply : Type := { choices : option (list (option string)) }.

(** The gateway; a transport failure or an error status is a raise. *)
Definition Gateway : Type := GatewayRequest -> outcome GatewayReply.

Record World : Type :=
  { messages : list (string * string);
    calls : list (string * PyDict.dict arg);
    posts : list GatewayRequest }.

Definition idle : World := {| messages := []; calls := []; posts := [] |}.

(** [await client.call_tool(tool, arguments)] *)
Definition call_tool (srv : ToolServer) (tool : string) (arguments : PyDict.dict arg)
  : M World tool_result :=
  effect (fun w => {| messages := messages w;
                      calls := calls w ++ [(tool, arguments)];
                      posts := posts w |});;
  answer (srv tool arguments).

(** [st.session_state.messages.append({"role": role, "content": content})] *)
Definition append_message (role content : string) : M World unit :=
  effect (fun w => {| messages := messages w ++ [(role, content)];
                      calls := calls w;
                      posts := posts w |}).

(** [requests.post(...)] followed by [response.raise_for_status()] *)
Definition post (gw : Gateway) (req : GatewayRequest) : M World GatewayReply :=
  effect (fun w => {| messages := messages w;
                      calls := calls w;
                      posts := posts w ++ [req] |});;
  answer (gw req).

Definition nl : string := String "010" EmptyString.

Definition dq : string := String "034" EmptyString.

Definition quoted (s : string) : string := dq +:+ s +:+ dq.

(** The f-string of [generate_sql_query]. *)
Definition prompt_for (natural_language : string) : string :=
  nl +:+
  "    Convert the following natural language request into a valid SQL query for a Databricks SQL warehouse." +:+ nl +:+
  "    Assume tables are in a Unity Catalog schema (e.g., my_catalog.my_schema.table_name)." +:+ nl +:+
  "    Use standard SQL syntax and include a LIMIT 10 clause unless specified otherwise." +:+ nl +:+
  "    If the schema or catalog is not mentioned, assume my_catalog.my_schema." +:+ nl +:+
  "    Examples:" +:+ nl +:+
  "    - " +:+ quoted "Show all customers" +:+ " -> " +:+
    quoted "SELECT * FROM my_catalog.my_schema.customers LIMIT 10" +:+ nl +:+
  "    - " +:+ quoted "Get total tolls for cars in January 2025" +:+ " -> " +:+
    quoted "SELECT SUM(toll_amount) FROM my_catalog.my_schema.tolls WHERE vehicle_type = 'car' AND date LIKE '2025-01%' LIMIT 10" +:+ nl +:+
  "    Input: " +:+ natural_language +:+ nl +:+
  "    Output: Only the SQL query, no explanations." +:+ nl +:+
  "    ".

(** [response.json().get("choices", [{}])[0].get("text", "").strip()] *)
Definition first_text (reply : GatewayReply) : outcome string :=
  match choices reply with
  | None => Return (PyStr.strip EmptyString)
  | Some [] => Raise (IndexError "list index out of range")
  | Some (choice :: _) => Return (PyStr.strip (default EmptyString choice))
  end.

(** The translator of free text into SQL. *)
Definition generate_sql_query (env : gmap string string) (gw : Gateway)
    (natural_language : string) : M World string :=
  let gateway_url := Server.getenv env "NLP_GATEWAY_URL" in
  let model_name := Server.getenv env "NLP_MODEL_NAME" in
  let api_key := Server.getenv env "NLP_API_KEY" in
  match gateway_url, model_name with
  | Some ((String _ _) as gateway_url), Some ((String _ _) as model_name) =>
      let prompt := prompt_for natural_language in
      let headers := PyDict.of_pairs [("Content-Type", "application/json")] in
      let headers :=
        match api_key with
        | Some ((String _ _) as key) => PyDict.setitem "Authorization" ("Bearer " +:+ key) headers
        | _ => headers
        end in
      try_except
        (response ← post gw {| url := gateway_url; model := model_name;
                               prompt := prompt; max_tokens := 200;
                               headers := headers |};
         answer (first_text response))
        (fun e => raise (RuntimeError ("Failed to generate SQL query: " +:+ str_exn e)))
  | _, _ => raise (ValueError "NLP_GATEWAY_URL and NLP_MODEL_NAME must be set")
  end.

(** [float(text)], with the [ValueError] it may raise. *)
Definition parse_float (text : string) : M World float :=
  match PyFloat.float_of_str text with
  | Some x => ret x
  | None => raise (ValueError ("could not convert string to float: '" +:+ text +:+ "'"))
  end.

(** What [process_command] returns: the result of a tool, or a text. *)
Inductive response : Type :=
| Result (r : tool_result)
| Message (text : string).

(** The rendering of the rows a SQL tool answered. *)
Definition render (results : tool_result) : response :=
  match results with
  | _ :: _ => Message (PyStr.join nl results)
  | [] => Message "No results returned."
  end.

(** The command interpreter. *)
Definition process_command (env : gmap string string) (gw : Gateway)
    (srv : ToolServer) (command : string) : M World response :=
  let command := PyStr.strip (PyStr.lower command) in
  if PyStr.str_in "secret word" command then
    result ← call_tool srv "secret_word" [];
    ret (Result result)
  else if PyStr.str_in "calculate toll" command then
    let vehicle_match := Re.search false "for\s+(\w+)" command in
    let distance_match := Re.search false "(\d+\.?\d*)\s+miles" command in
    let rate_match := Re.search false "\$?(\d+\.?\d*)\s*/?\s*mile" command in
    let vehicle_type := default "car" vehicle_match in
    distance ← from_option parse_float (ret 10.0%float) distance_match;
    toll_rate ← from_option parse_float (ret 0.25%float) rate_match;
    result ← call_tool srv "calculate_toll"
      (PyDict.of_pairs [("vehicle_type", AStr vehicle_type);
                        ("distance", AFloat distance);
                        ("toll_rate", AFloat toll_rate)]);
    ret (Result result)
  else if PyStr.str_in "run sql query" command then
    let query_match := Re.search true "run sql query\s+(.+)" command in
    match query_match with
    | None =>
        ret (Message "Please provide a SQL query (e.g., 'Run SQL query SELECT * FROM my_table').")
    | Some text =>
        let query := PyStr.strip text in
        results ← call_tool srv "run_sql_query" (PyDict.of_pairs [("query", AStr query)]);
        ret (render results)
    end
  else
    query ← generate_sql_query env gw command;
    append_message "assistant" ("Generated SQL: " +:+ query);;
    results ← call_tool srv "run_sql_query" (PyDict.of_pairs [("query", AStr query)]);
    ret (render results).

End Client.


(** ** The vocabulary of the properties

    Names for what the statements below talk about: the state of a tool
    after some steps, the shape the specification asks of a result, and the
    specification's own words where a statement compares the code with
    them. *)

Module Spec.

Import Py Server.

(** *** Polling *)

(** The states in which the Poller goes on. *)
Definition pending_or_running (st : Statement) : Prop :=
  state (status st) = "PENDING" ∨ state (status st) = "RUNNING".

(** An answer of the warehouse on which the Poller goes on: a statement
    that is pending or running.  The other answers, a statement in another
    state and an error, end the polling. *)
Definition waiting (o : outcome Statement) : Prop :=
  ∃ st, o = Return st ∧ pending_or_running st.

(** What the holder of a handle sees of its statement: the statement it
    holds, then what each further refresh answers. *)
Definition view (h : Handle) (j : nat) : outcome Statement :=
  match j with
  | O => Return (current h)
  | S _ => observe h (seen h + j)
  end.

(** The events of [k] iterations of the polling loop: each sleeps two
    seconds and then refreshes. *)
Fixpoint cycles (k : nat) : list event :=
  match k with
  | O => []
  | S k' => Slept 2 :: Refreshed :: cycles k'
  end.

(** The handle after [k] more refreshes, the last of which answered [st],
    and the world after the [k] iterations that made them. *)
Definition advance (k : nat) (st : Statement) (h : Handle) : Handle :=
  {| observe := observe h; seen := seen h + k; current := st |}.

Definition elapsed (k : nat) (w : World) : World := (w ++ cycles k)%list.

(** The request the tool submits for a query. *)
Definition request (id query : string) : ExecuteStatementRequest :=
  {| warehouse_id := id; statement := query; wait_timeout := "30s" |}.

(** The world once the request is submitted and [k] iterations of the
    polling loop have run. *)
Definition polled (id query : string) (k : nat) (w : World) : World :=
  (w ++ Submitted (request id query) :: cycles k)%list.

(** The seconds slept in a world. *)
Fixpoint seconds_slept (w : World) : nat :=
  match w with
  | [] => 0
  | Slept n :: w' => n + seconds_slept w'
  | _ :: w' => seconds_slept w'
  end.

(** *** The Result Translator *)

(** The schema whose fields bear the given names. *)
Definition schema_of (columns : list string) : ResultSchema :=
  {| fields := Build_Field <$> columns |}.

(** The two translators as functions of the column names and the rows. *)
Definition primary (columns : list string) (rows : list row) : list row_mapping :=
  Server.translate rows (Some (schema_of columns)).

Definition secondary (columns : list string) (rows : list row) : list row_mapping :=
  Snowflake.translate columns rows.

(** Every row has a cell for every column, and no more. *)
Definition aligned (columns : list string) (rows : list row) : Prop :=
  Forall (λ r, length r = length columns) rows.

(** The shape the specification asks of a translator on aligned input: one
    mapping per row, each with as many keys as there are columns. *)
Definition one_mapping_per_row (translate : list string → list row → list row_mapping)
    (columns : list string) (rows : list row) : Prop :=
  length (translate columns rows) = length rows ∧
  Forall (λ m, PyDict.len m = length columns) (translate columns rows).

(** *** The toll *)

(** The multiplier table in the specification's words: by vehicle type,
    compared without regard to case, 1.0 for any other type. *)
Definition spec_multiplier (vehicle_type : string) : float :=
  let v := PyStr.lower vehicle_type in
  if String.eqb v "car" then 1.0%float
  else if String.eqb v "truck" then 1.5%float
  else if String.eqb v "motorcycle" then 0.8%float
  else 1.0%float.

(** The integer [n] is the number of hundredths nearest to the number
    [m * 2 ^ e], for [e < 0]: no further from it than half a hundredth, and
    even when it is exactly half a hundredth away. *)
Definition nearest_hundredth (m : positive) (e : Z) (n : Z) : Prop :=
  (Z.abs (2 * (100 * Z.pos m) - 2 * n * 2 ^ (- e)) <= 2 ^ (- e))%Z ∧
  (Z.abs (2 * (100 * Z.pos m) - 2 * n * 2 ^ (- e)) = 2 ^ (- e) → Z.even n = true)%Z.

(** The double nearest to [n] hundredths, with the sign [s]. *)
Definition hundredths (s : bool) (n : Z) : float :=
  match n with
  | Z.pos p => PyFloat.nearest_ratio s p 100
  | _ => if s then PrimFloat.neg_zero else PrimFloat.zero
  end.

(** *** The command interpreter *)

Import Client.

(** The text the rules are tested on. *)
Definition normalized (input : string) : string := PyStr.strip (PyStr.lower input).

(** The client's world after one more tool call. *)
Definition called (tool : string) (arguments : PyDict.dict arg) (w : Client.World)
  : Client.World :=
  {| messages := messages w;
     calls := (calls w ++ [(tool, arguments)])%list;
     posts := posts w |}.

(** The client's world after one more entry of the assistant in the
    transcript. *)
Definition noted (content : string) (w : Client.World) : Client.World :=
  {| messages := (messages w ++ [("assistant", content)])%list;
     calls := calls w;
     posts := posts w |}.

(** The client's world after one more request to the gateway. *)
Definition posted (req : GatewayRequest) (w : Client.World) : Client.World :=
  {| messages := messages w;
     calls := calls w;
     posts := (posts w ++ [req])%list |}.

(** The request the translator posts for a text: the prompt built on it,
    and the bearer token when the environment has a key. *)
Definition gateway_request (env : gmap string string) (url model text : string)
  : GatewayRequest :=
  {| url := url;
     model := model;
     prompt := prompt_for text;
     max_tokens := 200;
     headers :=
       match getenv env "NLP_API_KEY" with
       | Some ((String _ _) as key) =>
           [("Content-Type", "application/json"); ("Authorization", "Bearer " +:+ key)]
       | _ => [("Content-Type", "application/json")]
       end |}.

(** What the translator makes of the gateway's answer. *)
Definition translated (o : outcome GatewayReply) : outcome string :=
  match o with
  | Return reply =>
      match first_text reply with
      | Return sql => Return sql
      | Raise e => Raise (RuntimeError ("Failed to generate SQL query: " +:+ str_exn e))
      end
  | Raise e => Raise (RuntimeError ("Failed to generate SQL query: " +:+ str_exn e))
  end.

(** What the interpreter makes of the tool's answer. *)
Definition answered (f : tool_result → response) (o : outcome tool_result)
  : outcome response :=
  match o with
  | Return r => Return (f r)
  | Raise e => Raise e
  end.

Definition toll_arguments (vehicle_type : string) (distance toll_rate : float)
  : PyDict.dict arg :=
  [("vehicle_type", AStr vehicle_type);
   ("distance", AFloat distance);
   ("toll_rate", AFloat toll_rate)].

Definition query_arguments (query : string) : PyDict.dict arg := [("query", AStr query)].

Definition missing_query : string :=
  "Please provide a SQL query (e.g., 'Run SQL query SELECT * FROM my_table').".

(** The text up to the first line break. *)
Definition first_line (s : string) : string := PyStr.take_while Re.not_newline s.

(** The direct SQL rule in the specification's words: the query is the
    trimmed text that follows the trigger; [None] is the error outcome, when
    nothing follows. *)
Definition spec_direct_sql (command : string) : option string :=
  match PyStr.after_first "run sql query" command with
  | Some after =>
      match PyStr.strip after with
      | EmptyString => None
      | query => Some query
      end
  | None => None
  end.

(** The text that follows the leftmost occurrence of [sep] which a blank
    follows. *)
Definition blank_head (s : string) : bool :=
  match s with
  | String c _ => PyStr.isspace c
  | EmptyString => false
  end.

Fixpoint after_first_followed (sep s : string) : option string :=
  if PyStr.startswith sep s && blank_head (PyStr.drop (String.length sep) s)
  then Some (PyStr.drop (String.length sep) s)
  else
    match s with
    | EmptyString => None
    | String _ s' => after_first_followed sep s'
    end.

(** The direct SQL rule as amended: the query is the first line of the
    text that follows the leftmost trigger which a blank follows, blanks
    and line breaks before it skipped, trimmed; [None] is the error
    outcome, when no trigger is followed by a blank. *)
Definition amended_direct_sql (command : string) : option string :=
  (λ after, PyStr.strip (first_line (PyStr.lstrip after))) <$>
    after_first_followed "run sql query" command.

(** The parameter a pattern extracts, or its default. *)
Definition extracted (pattern command : string) (dflt : float) (x : float) : Prop :=
  match Re.search false pattern command with
  | Some text => PyFloat.float_of_str text = Some x
  | None => x = dflt
  end.

End Spec.

(** ** Sample collaborators *)

Module Sample.

Import Py Server.

(** An environment that sets every Snowflake variable but the account. *)
Definition env_without_account : gmap string string :=
  list_to_map [("SNOWFLAKE_USER", "u"); ("SNOWFLAKE_PASSWORD", "p");
               ("SNOWFLAKE_DATABASE", "d"); ("SNOWFLAKE_SCHEMA", "s");
               ("SNOWFLAKE_WAREHOUSE", "w")].

(** An environment that sets every Snowflake variable. *)
Definition env_snowflake : gmap string string :=
  <["SNOWFLAKE_ACCOUNT" := "a"]> env_without_account.

(** An environment that names the SQL warehouse. *)
Definition env_warehouse : gmap string string :=
  {[ "DATABRICKS_SQL_WAREHOUSE_ID" := "w" ]}.

(** An environment that names the language gateway. *)
Definition env_gateway : gmap string string :=
  list_to_map [("NLP_GATEWAY_URL", "http://gateway"); ("NLP_MODEL_NAME", "m")].

(** A driver that connects and answers every query with one row. *)
Definition driver_ok : Snowflake.Driver :=
  {| Snowflake.connect := λ _, Return ();
     Snowflake.execute := λ _,
       Return {| Snowflake.description := Some [("N", 0)];
                 Snowflake.fetchall := Return [[Int 1]] |} |}.

(** A driver that connects and whose every query fails. *)
Definition driver_failing (e : exn) : Snowflake.Driver :=
  {| Snowflake.connect := λ _, Return (); Snowflake.execute := λ _, Raise e |}.

(** A warehouse whose statement has succeeded when it is submitted, with
    one row and a schema without fields. *)
Definition warehouse_no_columns : Workspace :=
  λ _ _, Return {| status := {| state := "SUCCEEDED"; error := None |};
                   result := Some {| data_array := Some [[Int 1]];
                                     schema := Some {| fields := [] |} |} |}.

(** A warehouse whose statement runs for [n] observations and then reaches
    [final], with the error detail ["boom"] and no result. *)
Definition warehouse_settling (n : nat) (final : string) : Workspace :=
  λ _ k, Return {| status := {| state := if (k <? n)%nat then "RUNNING" else final;
                                error := Some "boom" |};
                   result := None |}.

(** A warehouse whose statement has succeeded when it is submitted, and
    which would answer every refresh with a running statement. *)
Definition warehouse_done_at_once : Workspace :=
  λ _ k, Return {| status := {| state := if (k <? 1)%nat then "SUCCEEDED" else "RUNNING";
                                error := None |};
                   result := None |}.

(** A warehouse whose statement is pending when it is submitted, running
    at its first refresh and succeeded from the second on. *)
Definition warehouse_queued : Workspace :=
  λ _ k, Return {| status := {| state := if (k <? 1)%nat then "PENDING"
                                         else if (k <? 2)%nat then "RUNNING"
                                         else "SUCCEEDED";
                                error := None |};
                   result := None |}.

(** A warehouse whose statement is running when it is submitted and whose
    every refresh fails. *)
Definition warehouse_unreachable (e : exn) : Workspace :=
  λ _ k, if (k <? 1)%nat
         then Return {| status := {| state := "RUNNING"; error := None |}; result := None |}
         else Raise e.

(** The handle [execute_statement] returns for a request whose submission
    answered [st]. *)
Definition submitted_handle (ws : Workspace) (req : ExecuteStatementRequest)
    (st : Statement) : Handle :=
  {| observe := ws req; seen := 0; current := st |}.

(** A running statement without a result, with the error detail
    ["boom"]. *)
Definition running : Statement :=
  {| status := {| state := "RUNNING"; error := Some "boom" |}; result := None |}.

(** A tool server that answers every call with two rows. *)
Definition server_two_rows : Client.ToolServer := λ _ _, Return ["r1"; "r2"].

(** A gateway that answers every request with one choice. *)
Definition gateway_select : Client.Gateway :=
  λ _, Return {| Client.choices := Some [Some " SELECT 1 "] |}.

End Sample.

(** ** The chat handler ([streamlit_client.py], the block under the chat
    input)

    What the page does with a text typed in the chat box: the text is
    entered in the transcript, the command interpreter is run on it, and
    its response, or the error it raised, is entered as the assistant's
    answer.  The drawing of the entries on the page is not modelled, and,
    as for the interpreter, the session with the tool server is taken from
    the point where it is open. *)

Module Chat.

Import Py Client.

(** [str(response)]: a text is itself; [str_result] is [str] on the result
    object of the tool client. *)
Definition str_response (str_result : tool_result -> string) (r : response) : string :=
  match r with
  | Result result => str_result result
  | Message text => text
  end.

(** The body of [if user_input:]. *)
Definition on_chat_input (str_result : tool_result -> string)
    (env : gmap string string) (gw : Gateway) (srv : ToolServer)
    (user_input : string) : M World unit :=
  match user_input with
  | EmptyString => ret tt
  | String _ _ =>
      append_message "user" user_input;;
      try_except
        (response ← process_command env gw srv user_input;
         append_message "assistant" (str_response str_result response))
        (fun e => append_message "assistant" ("Error: " +:+ str_exn e))
  end.

End Chat.

(** ** More vocabulary *)

Module Spec2.

Import Py Server.

(** The arguments the secondary tool connects with: the six variables of
    the environment as they are, and [autocommit=True]. *)
Definition connect_args (env : gmap string string) : Snowflake.ConnectArgs :=
  {| Snowflake.account := Snowflake.value (getenv env "SNOWFLAKE_ACCOUNT");
     Snowflake.user := Snowflake.value (getenv env "SNOWFLAKE_USER");
     Snowflake.password := Snowflake.value (getenv env "SNOWFLAKE_PASSWORD");
     Snowflake.database := Snowflake.value (getenv env "SNOWFLAKE_DATABASE");
     Snowflake.schema := Snowflake.value (getenv env "SNOWFLAKE_SCHEMA");
     Snowflake.warehouse := Snowflake.value (getenv env "SNOWFLAKE_WAREHOUSE");
     Snowflake.autocommit := true |}.

(** The six variables are all set and not empty. *)
Definition configured (env : gmap string string) : bool :=
  forallb (λ var, PyStr.truthy (getenv env var)) Snowflake.required.

(** The driver's world after a query that went through [execute], with the
    connection as given. *)
Definition after_query (conn : Snowflake.resource) (query : string)
    (w : Snowflake.World) : Snowflake.World :=
  {| Snowflake.connection := conn;
     Snowflake.cursor := Snowflake.Released;
     Snowflake.executed := (Snowflake.executed w ++ [query])%list |}.

(** The column names read off a cursor's description. *)
Definition column_names (description : option (list (string * nat))) : list string :=
  default [] (map fst <$> description).

Definition is_raise {A} (o : outcome A) : bool :=
  match o with
  | Raise _ => true
  | Return _ => false
  end.

(** A text without capital letters, and one without digits. *)
Definition no_capital (s : string) : bool := PyStr.all (λ c, negb (PyStr.isupper c)) s.

Definition no_digit (s : string) : bool := PyStr.all (λ c, negb (PyStr.isdigit c)) s.

(** The tools the interpreter may call. *)
Definition interpreter_tools : list string :=
  ["secret_word"; "calculate_toll"; "run_sql_query"].

(** A sample rendering of a tool result. *)
Definition str_joined (r : Client.tool_result) : string := PyStr.join ", " r.

(** What the primary tool makes of the statement its polling ends on. *)
Definition settled_outcome (st : Statement) : outcome (list row_mapping) :=
  if negb (String.eqb (state (status st)) "SUCCEEDED") then
    Raise (RuntimeError
             ("SQL query failed: Query failed: " +:+ default "None" (error (status st))))
  else
    match result st with
    | None =>
        Raise (RuntimeError
                 "SQL query failed: 'NoneType' object has no attribute 'data_array'")
    | Some r => Return (Server.translate (default [] (data_array r)) (schema r))
    end.

(** A text that does not begin with a character of the class [p]. *)
Definition halts (p : ascii -> bool) (s : string) : bool :=
  match s with
  | String ch _ => negb (p ch)
  | EmptyString => true
  end.

(** The client's world after one more entry of the user in the
    transcript. *)
Definition typed (content : string) (w : Client.World) : Client.World :=
  {| Client.messages := (Client.messages w ++ [("user", content)])%list;
     Client.calls := Client.calls w;
     Client.posts := Client.posts w |}.

(** The word that follows blanks: the longest run of letters, digits and
    underscores after them, when the text begins with a blank and such a run
    is there. *)
Definition word_after_blanks (u : string) : option string :=
  if Spec.blank_head u then
    match PyStr.take_while PyStr.isword (PyStr.lstrip u) with
    | EmptyString => None
    | word => Some word
    end
  else None.

(** The vehicle named in a toll command: the word after the leftmost [for]
    that blanks and a word follow. *)
Fixpoint vehicle_word (s : string) : option string :=
  match (if PyStr.startswith "for" s then word_after_blanks (PyStr.drop 3 s) else None) with
  | Some word => Some word
  | None =>
      match s with
      | EmptyString => None
      | String _ s' => vehicle_word s'
      end
  end.

(** The three patterns of the toll rule. *)
Definition vehicle_pattern : string := "for\s+(\w+)".

Definition distance_pattern : string := "(\d+\.?\d*)\s+miles".

Definition rate_pattern : string := "\$?(\d+\.?\d*)\s*/?\s*mile".

End Spec2.

(** ** More sample collaborators *)

Module Sample2.

Import Py Server.

(** A driver that refuses every connection. *)
Definition driver_refusing (e : exn) : Snowflake.Driver :=
  {| Snowflake.connect := λ _, Raise e;
     Snowflake.execute := λ _, Raise (LibraryError "not connected") |}.

(** A driver whose cursor has the given description and rows. *)
Definition driver_answering (description : option (list (string * nat)))
    (rows : outcome (list row)) : Snowflake.Driver :=
  {| Snowflake.connect := λ _, Return ();
     Snowflake.execute := λ _,
       Return {| Snowflake.description := description; Snowflake.fetchall := rows |} |}.

(** A warehouse whose statement has succeeded when it is submitted, with
    the given result. *)
Definition warehouse_done (r : option ResultData) : Workspace :=
  λ _ _, Return {| status := {| state := "SUCCEEDED"; error := None |}; result := r |}.

(** A gateway that answers every request with the given body. *)
Definition gateway_answering (reply : Client.GatewayReply) : Client.Gateway :=
  λ _, Return reply.

(** A gateway that cannot be reached. *)
Definition gateway_down : Client.Gateway := λ _, Raise (LibraryError "connection refused").

(** A tool server that answers every call with no row. *)
Definition server_no_rows : Client.ToolServer := λ _ _, Return [].

End Sample2.


(** * Properties *)

#[local] Open Scope list_scope.
#[local] Open Scope nat_scope.

(** Steps of the effect monad: [unfold_binds] opens every sequencing and
    [try] of the goal, [step_bind] the outermost sequencing only. *)
Ltac unfold_binds := unfold Py.try_except, mbind, M_bind, Py.bind.

Ltac step_bind := unfold mbind at 1, M_bind at 1, Py.bind at 1.

(** ** Strings *)

Module PyStrFacts.

Import PyStr.

Lemma app_nil_l s : "" +:+ s = s.
Proof. reflexivity. Qed.

Lemma app_cons c s t : String c s +:+ t = String c (s +:+ t).
Proof. reflexivity. Qed.

Lemma startswith_refl s : startswith s s = true.
Proof. induction s as [|c s IH]; simpl; [done|]. by rewrite Ascii.eqb_refl. Qed.

Lemma startswith_app p s : startswith p (p +:+ s) = true.
Proof.
  induction p as [|c p IH]; [done|].
  rewrite app_cons. simpl. by rewrite Ascii.eqb_refl.
Qed.

Lemma str_in_here sub s : startswith sub s = true → str_in sub s = true.
Proof. intros H. destruct s; simpl in *; by rewrite H. Qed.

Lemma str_in_skip sub c s : str_in sub s = true → str_in sub (String c s) = true.
Proof. intros H. simpl. rewrite H. apply orb_true_r. Qed.

(** A text contains each of the pieces it is assembled from. *)
Lemma str_in_app pre sub post : str_in sub (pre +:+ sub +:+ post) = true.
Proof.
  induction pre as [|c pre IH].
  - rewrite app_nil_l. apply str_in_here, startswith_app.
  - rewrite app_cons. by apply str_in_skip.
Qed.

Lemma str_in_app_l pre sub s : str_in sub s = true → str_in sub (pre +:+ s) = true.
Proof.
  intros H. induction pre as [|c pre IH]; [done|]. rewrite app_cons. by apply str_in_skip.
Qed.

Lemma str_in_app_r pre sub : str_in sub (pre +:+ sub) = true.
Proof.
  induction pre as [|c pre IH].
  - rewrite app_nil_l. apply str_in_here, startswith_refl.
  - rewrite app_cons. by apply str_in_skip.
Qed.

Lemma app_nil_r s : s +:+ "" = s.
Proof. induction s as [|c s IH]; [done|]. by rewrite app_cons, IH. Qed.

Lemma app_assoc s t u : (s +:+ t) +:+ u = s +:+ t +:+ u.
Proof. induction s as [|c s IH]; [done|]. by rewrite !app_cons, IH. Qed.

Lemma length_app s t : String.length (s +:+ t) = String.length s + String.length t.
Proof. induction s as [|c s IH]; [done|]. rewrite app_cons. simpl. by rewrite IH. Qed.

(** Characters: what the classes have in common. *)

Lemma isupper_lower_ascii c : isupper (lower_ascii c) = false.
Proof. by destruct c as [[] [] [] [] [] [] [] []]. Qed.

Lemma lower_ascii_id c : isupper c = false → lower_ascii c = c.
Proof. unfold lower_ascii. by intros ->. Qed.

Lemma isspace_not_newline c : isspace c = false → Re.not_newline c = true.
Proof. by destruct c as [[] [] [] [] [] [] [] []]. Qed.

Lemma isdigit_not_dot c : isdigit c = true → Ascii.eqb c "." = false.
Proof. by destruct c as [[] [] [] [] [] [] [] []]. Qed.

(** [all] *)

Lemma all_app p s t : all p (s +:+ t) = all p s && all p t.
Proof.
  induction s as [|c s IH]; [done|]. rewrite app_cons. simpl.
  by rewrite IH, andb_assoc.
Qed.

Lemma all_lower s : all (λ c, negb (isupper c)) (lower s) = true.
Proof.
  induction s as [|c s IH]; [done|]. simpl. by rewrite isupper_lower_ascii, IH.
Qed.

Lemma all_lstrip p s : all p s = true → all p (lstrip s) = true.
Proof.
  induction s as [|c s IH]; [done|]. simpl. intros [Hc Hs]%andb_prop.
  destruct (isspace c); [by apply IH|]. simpl. by rewrite Hc, Hs.
Qed.

Lemma all_rstrip p s : all p s = true → all p (rstrip s) = true.
Proof.
  induction s as [|c s IH]; [done|]. simpl. intros [Hc Hs]%andb_prop.
  specialize (IH Hs). destruct (rstrip s) as [|c' r].
  - destruct (isspace c); [done|]. simpl. by rewrite Hc.
  - simpl in *. by rewrite Hc, IH.
Qed.

Lemma all_drop p n s : all p s = true → all p (drop n s) = true.
Proof.
  revert s. induction n as [|n IH]; intros [|c s]; try done.
  simpl. intros [_ Hs]%andb_prop. by apply IH.
Qed.

(** The command the interpreter works on has no capital letter. *)
Lemma all_strip_lower s : all (λ c, negb (isupper c)) (strip (lower s)) = true.
Proof. unfold strip. apply all_rstrip, all_lstrip, all_lower. Qed.

(** [rstrip] and [lstrip] *)

Lemma rstrip_spaces s : all isspace s = true → rstrip s = "".
Proof.
  induction s as [|c s IH]; [done|]. simpl. intros [Hc Hs]%andb_prop.
  by rewrite IH, Hc.
Qed.

Lemma rstrip_app_spaces s t : all isspace t = true → rstrip (s +:+ t) = rstrip s.
Proof.
  intros Ht. induction s as [|c s IH].
  - rewrite app_nil_l. by apply rstrip_spaces.
  - rewrite app_cons. simpl. by rewrite IH.
Qed.

Lemma length_rstrip s : String.length (rstrip s) ≤ String.length s.
Proof.
  induction s as [|c s IH]; [done|]. simpl.
  destruct (rstrip s) as [|c' r]; [destruct (isspace c)|]; simpl in *; lia.
Qed.

Lemma rstrip_idem s : rstrip (rstrip s) = rstrip s.
Proof.
  induction s as [|c s IH]; [done|]. simpl.
  destruct (rstrip s) as [|c' r] eqn:E.
  - destruct (isspace c) eqn:Ec; [done|]. simpl. by rewrite Ec.
  - change (rstrip (String c (String c' r))) with
      (match rstrip (String c' r) with
       | "" => if isspace c then "" else String c ""
       | r0 => String c r0
       end).
    by rewrite IH.
Qed.

Lemma rstrip_strip s : rstrip (strip s) = strip s.
Proof. apply rstrip_idem. Qed.

Lemma lstrip_spaces s : lstrip s = "" → all isspace s = true.
Proof.
  induction s as [|c s IH]; [done|]. simpl.
  destruct (isspace c); [by apply IH|done].
Qed.

(** What follows a text that has no trailing blank is not made of blanks. *)
Lemma lstrip_suffix s t :
  rstrip (s +:+ t) = s +:+ t → t ≠ "" → lstrip t ≠ "".
Proof.
  intros Hfix Ht Hblank. apply lstrip_spaces in Hblank.
  rewrite rstrip_app_spaces in Hfix by done.
  pose proof (length_rstrip s) as Hlen. rewrite Hfix, length_app in Hlen.
  destruct t; [done|]. simpl in Hlen. lia.
Qed.

Lemma lstrip_head s : ∀ c r, lstrip s = String c r → isspace c = false.
Proof.
  induction s as [|c' s IH]; [done|]. simpl. intros c r.
  destruct (isspace c') eqn:E; [apply IH|]. by intros [= <- _].
Qed.

(** [startswith], [drop] and [after_first] *)

Lemma startswith_split p s : startswith p s = true → s = p +:+ drop (String.length p) s.
Proof.
  revert s. induction p as [|a p IH]; intros [|b s]; try done.
  simpl. intros [Hab Hp]%andb_prop. apply Ascii.eqb_eq in Hab as ->.
  rewrite app_cons. f_equal. by apply IH.
Qed.

Lemma startswith_short p s : String.length s < String.length p → startswith p s = false.
Proof.
  revert s. induction p as [|a p IH]; intros [|b s]; simpl; try done; try lia.
  intros Hlen. rewrite IH by lia. apply andb_false_r.
Qed.

Lemma after_first_split sep s after :
  after_first sep s = Some after → ∃ before, s = before +:+ sep +:+ after.
Proof.
  induction s as [|c s IH].
  - simpl. destruct (startswith sep "") eqn:E; [|done].
    intros [= <-]. exists "". by apply startswith_split in E.
  - cbn [after_first]. destruct (startswith sep (String c s)) eqn:E.
    + intros [= <-]. exists "". by apply startswith_split in E.
    + intros (before & ->)%IH. by exists (String c before).
Qed.

Lemma after_first_str_in sep s : str_in sep s = true ↔ is_Some (after_first sep s).
Proof.
  induction s as [|c s IH].
  - simpl. rewrite orb_false_r. destruct (startswith sep ""); split; by eauto.
  - cbn [after_first str_in]. destruct (startswith sep (String c s)); simpl.
    + split; by eauto.
    + apply IH.
Qed.

End PyStrFacts.

(** ** Dictionaries *)

Module PyDictFacts.

Import PyDict.

Section Dict.

Context {V : Type}.

Implicit Types (d : dict V) (ps : list (string * V)) (k : string) (v : V).

Lemma eqb_decide k k' : String.eqb k k' = bool_decide (k = k').
Proof.
  destruct (String.eqb_spec k k'); [by rewrite bool_decide_eq_true_2|by rewrite bool_decide_eq_false_2].
Qed.

Lemma setitem_fresh k v d : k ∉ keys d → setitem k v d = d ++ [(k, v)].
Proof.
  induction d as [|[k' v'] d IH]; simpl; [done|].
  rewrite not_elem_of_cons. intros [Hne Hnotin].
  rewrite eqb_decide, bool_decide_eq_false_2 by done.
  by rewrite IH.
Qed.

Lemma keys_setitem_present k v d : k ∈ keys d → keys (setitem k v d) = keys d.
Proof.
  induction d as [|[k' v'] d IH]; simpl.
  - by intros ?%elem_of_nil.
  - rewrite eqb_decide. case_bool_decide as Hk; [done|].
    rewrite elem_of_cons. intros [?|Hin]; [done|].
    simpl. by rewrite IH.
Qed.

Lemma keys_setitem_fresh k v d : k ∉ keys d → keys (setitem k v d) = keys d ++ [k].
Proof. intros Hk. rewrite setitem_fresh by done. unfold keys. by rewrite map_app. Qed.

Lemma get_setitem_eq k v d : get k (setitem k v d) = Some v.
Proof.
  induction d as [|[k' v'] d IH]; simpl.
  - by rewrite String.eqb_refl.
  - destruct (String.eqb k k') eqn:E; simpl; rewrite E; [done|apply IH].
Qed.

Lemma get_setitem_ne k k' v d : k ≠ k' → get k' (setitem k v d) = get k' d.
Proof.
  intros Hne. induction d as [|[k0 v0] d IH]; simpl.
  - rewrite eqb_decide, bool_decide_eq_false_2; [done|congruence].
  - destruct (String.eqb k k0) eqn:E; simpl.
    + apply String.eqb_eq in E as ->.
      rewrite eqb_decide, bool_decide_eq_false_2; [done|congruence].
    + by rewrite IH.
Qed.

Lemma of_pairs_snoc ps k v : of_pairs (ps ++ [(k, v)]) = setitem k v (of_pairs ps).
Proof. unfold of_pairs. by rewrite fold_left_app. Qed.

Lemma keys_of_pairs_elem ps k : k ∈ keys (of_pairs ps) ↔ k ∈ ps.*1.
Proof.
  induction ps as [|[k' v'] ps IH] using rev_ind; [done|].
  rewrite of_pairs_snoc, fmap_app, elem_of_app. simpl.
  rewrite list_elem_of_singleton, <- IH.
  destruct (decide (k' ∈ keys (of_pairs ps))) as [Hin|Hnotin].
  - rewrite keys_setitem_present by done. split; [tauto|]. intros [?| ->]; done.
  - rewrite keys_setitem_fresh by done. rewrite elem_of_app, list_elem_of_singleton. done.
Qed.

Lemma keys_of_pairs_NoDup ps : NoDup (keys (of_pairs ps)).
Proof.
  induction ps as [|[k' v'] ps IH] using rev_ind; [constructor|].
  rewrite of_pairs_snoc.
  destruct (decide (k' ∈ keys (of_pairs ps))) as [Hin|Hnotin].
  - by rewrite keys_setitem_present.
  - rewrite keys_setitem_fresh by done.
    apply NoDup_app. split_and!; [done| |apply NoDup_singleton].
    intros x Hx ->%list_elem_of_singleton. done.
Qed.

(** Distinct keys: the dictionary is the list of pairs itself, in order. *)
Lemma of_pairs_distinct ps : NoDup ps.*1 → of_pairs ps = ps.
Proof.
  induction ps as [|[k' v'] ps IH] using rev_ind; [done|].
  rewrite fmap_app, NoDup_app. simpl. intros (Hnd & Hfresh & _).
  rewrite of_pairs_snoc, IH by done.
  apply setitem_fresh. intros Hin. apply (Hfresh k'); [done|]. by left.
Qed.

Lemma len_of_pairs_le ps : len (of_pairs ps) ≤ length ps.
Proof.
  unfold len. rewrite <- (length_fmap fst (of_pairs ps)), <- (length_fmap fst ps).
  apply submseteq_length, NoDup_submseteq; [apply keys_of_pairs_NoDup|].
  intros k. apply keys_of_pairs_elem.
Qed.

(** A repeated key costs an entry. *)
Lemma len_of_pairs_lt ps : ¬ NoDup ps.*1 → len (of_pairs ps) < length ps.
Proof.
  intros Hdup. pose proof (len_of_pairs_le ps) as Hle.
  destruct (decide (len (of_pairs ps) = length ps)) as [Heq|]; [|lia].
  exfalso. apply Hdup.
  assert (keys (of_pairs ps) ⊆+ ps.*1) as Hsub.
  { apply NoDup_submseteq; [apply keys_of_pairs_NoDup|]. intros k. apply keys_of_pairs_elem. }
  apply submseteq_length_Permutation in Hsub.
  - rewrite <- Hsub. apply keys_of_pairs_NoDup.
  - unfold keys, len in *. rewrite !length_fmap. lia.
Qed.

(** The last pair of a key decides its value. *)
Lemma get_of_pairs_last ps i k v :
  ps !! i = Some (k, v) →
  (∀ j v', i < j → ps !! j ≠ Some (k, v')) →
  get k (of_pairs ps) = Some v.
Proof.
  revert i. induction ps as [|[k' v'] ps IH] using rev_ind; intros i Hi Hlast.
  - by rewrite lookup_nil in Hi.
  - rewrite of_pairs_snoc.
    destruct (decide (i = length ps)) as [->|Hne].
    + rewrite lookup_app_r, Nat.sub_diag in Hi by lia. simplify_eq/=.
      apply get_setitem_eq.
    + assert (i < length ps) as Hlt.
      { apply lookup_lt_Some in Hi. rewrite length_app in Hi. simpl in Hi. lia. }
      rewrite lookup_app_l in Hi by done.
      assert (k' ≠ k) as Hk.
      { intros ->. apply (Hlast (length ps) v'); [done|].
        by rewrite lookup_app_r, Nat.sub_diag by lia. }
      rewrite get_setitem_ne by done.
      apply (IH i); [done|]. intros j v0 Hj Hlook.
      apply (Hlast j v0); [done|]. rewrite lookup_app_l; [done|].
      by apply lookup_lt_Some in Hlook.
Qed.

Lemma get_of_pairs_None ps k : k ∉ ps.*1 → get k (of_pairs ps) = None.
Proof.
  induction ps as [|[k' v'] ps IH] using rev_ind; [done|].
  rewrite fmap_app, not_elem_of_app. simpl. rewrite list_elem_of_singleton.
  intros [Hps Hne]. rewrite of_pairs_snoc, get_setitem_ne by done. by apply IH.
Qed.

End Dict.

End PyDictFacts.

(** ** Regular expressions *)

Module ReFacts.

Import PyStr PyStrFacts Re.

(** *** The equations of [match_here] *)

Lemma match_here_open r c s :
  match_here (GroupOpen :: r) c s = match_here r (Open "") s.
Proof. reflexivity. Qed.

Lemma match_here_close r c s :
  match_here (GroupClose :: r) c s = match_here r (close c) s.
Proof. reflexivity. Qed.

Lemma match_here_one p r c s :
  match_here (Atom p One :: r) c s =
    match s with
    | String ch s' => if p ch then match_here r (push c ch) s' else None
    | "" => None
    end.
Proof. by destruct s. Qed.

Lemma match_here_opt p r c s :
  match_here (Atom p Opt :: r) c s =
    match s with
    | String ch s' =>
        if p ch then orelse (match_here r (push c ch) s') (match_here r c s)
        else match_here r c s
    | "" => match_here r c s
    end.
Proof. by destruct s. Qed.

Lemma match_here_star p r c s :
  match_here (Atom p Star :: r) c s =
    match s with
    | String ch s' =>
        if p ch
        then orelse (match_here (Atom p Star :: r) (push c ch) s') (match_here r c s)
        else match_here r c s
    | "" => match_here r c s
    end.
Proof. by destruct s. Qed.

Lemma match_here_plus p r c s :
  match_here (Atom p Plus :: r) c s =
    match s with
    | String ch s' =>
        if p ch then match_here (Atom p Star :: r) (push c ch) s' else None
    | "" => None
    end.
Proof. by destruct s. Qed.

Lemma orelse_Some {A} (a b : option A) x :
  orelse a b = Some x → a = Some x ∨ b = Some x.
Proof. destruct a; simpl; auto. Qed.

(** *** What a successful match consumed *)

Lemma pushes_open x t : pushes (Open x) t = Open (x +:+ t).
Proof.
  revert x. induction t as [|ch t IH]; intros x; simpl.
  - by rewrite app_nil_r.
  - rewrite IH, app_assoc. by rewrite app_cons, app_nil_l.
Qed.

Lemma pushes_app c t u : pushes c (t +:+ u) = pushes (pushes c t) u.
Proof.
  revert c. induction t as [|ch t IH]; intros c; [done|].
  rewrite app_cons. simpl. apply IH.
Qed.

Lemma push_settled c ch : settled c = true → push c ch = c.
Proof. by destruct c. Qed.

Lemma one_inv p r c s c' :
  match_here (Atom p One :: r) c s = Some c' →
  ∃ ch s', s = String ch s' ∧ p ch = true ∧ match_here r (push c ch) s' = Some c'.
Proof.
  rewrite match_here_one. destruct s as [|ch s']; [done|].
  destruct (p ch) eqn:E; [|done]. eauto.
Qed.

Lemma opt_inv p r c s c' :
  match_here (Atom p Opt :: r) c s = Some c' →
  (∃ ch s', s = String ch s' ∧ p ch = true ∧ match_here r (push c ch) s' = Some c') ∨
  match_here r c s = Some c'.
Proof.
  rewrite match_here_opt. destruct s as [|ch s']; [auto|].
  destruct (p ch) eqn:E; [|auto].
  intros [?|?]%orelse_Some; [left|right]; eauto.
Qed.

Lemma star_inv p r s : ∀ c c',
  match_here (Atom p Star :: r) c s = Some c' →
  ∃ t s', s = t +:+ s' ∧ all p t = true ∧ match_here r (pushes c t) s' = Some c'.
Proof.
  induction s as [|ch s IH]; intros c c'; rewrite match_here_star.
  - intros H. by exists "", "".
  - destruct (p ch) eqn:E.
    + intros [H|H]%orelse_Some.
      * apply IH in H as (t & s' & -> & Ht & H).
        exists (String ch t), s'. split_and!; [done| |done]. simpl. by rewrite E.
      * by exists "", (String ch s).
    + intros H. by exists "", (String ch s).
Qed.

Lemma plus_inv p r c s c' :
  match_here (Atom p Plus :: r) c s = Some c' →
  ∃ ch t s', s = String ch (t +:+ s') ∧ p ch = true ∧ all p t = true ∧
             match_here r (pushes c (String ch t)) s' = Some c'.
Proof.
  rewrite match_here_plus. destruct s as [|ch s]; [done|].
  destruct (p ch) eqn:E; [|done].
  intros (t & s' & -> & Ht & H)%star_inv. by exists ch, t, s'.
Qed.

Lemma pushes_settled c t : settled c = true → pushes c t = c.
Proof.
  intros Hc. induction t as [|ch t IH]; [done|]. simpl. by rewrite push_settled.
Qed.

(** Outside the group the capture does not change. *)
Lemma settled_stays r : group_free r = true → ∀ c s c',
  settled c = true → match_here r c s = Some c' → c' = c.
Proof.
  induction r as [|[p q| |] r IH]; intros Hr c s c' Hc; try done.
  - by intros [= <-].
  - simpl in Hr. destruct q.
    + intros (ch & s' & -> & _ & H)%one_inv.
      rewrite push_settled in H by done. eauto.
    + intros [(ch & s' & -> & _ & H)|H]%opt_inv; [|eauto].
      rewrite push_settled in H by done. eauto.
    + intros (t & s' & -> & _ & H)%star_inv.
      rewrite pushes_settled in H by done. eauto.
    + intros (ch & t & s' & -> & _ & _ & H)%plus_inv.
      rewrite pushes_settled in H by done. eauto.
Qed.

Lemma search_from_inv r s c' :
  search_from r s = Some c' → ∃ s0, match_here r Unset s0 = Some c'.
Proof.
  induction s as [|ch s IH]; simpl.
  - intros [H|H]%orelse_Some; [eauto|done].
  - intros [H|H]%orelse_Some; eauto.
Qed.

End ReFacts.

Module PatternFacts.

Import PyStr PyStrFacts Re ReFacts.

(** *** The decimal captures of the toll patterns *)

Lemma number_group_inv r c s c' :
  group_free r = true →
  match_here (number_group ++ r) c s = Some c' →
  ∃ t, c' = Closed t ∧ decimal t.
Proof.
  intros Hr. unfold number_group. cbn [app]. rewrite match_here_open.
  intros (ch & t1 & s1 & -> & Hch & Ht1 & H)%plus_inv.
  rewrite pushes_open, app_nil_l in H.
  assert (all isdigit (String ch t1) = true) as Ha by (simpl; by rewrite Hch).
  apply opt_inv in H as [(dot & s2 & -> & Hdot & H)|H].
  - apply Ascii.eqb_eq in Hdot as <-. cbn [push] in H.
    apply star_inv in H as (t2 & s3 & -> & Ht2 & H).
    rewrite pushes_open, match_here_close in H. cbn [close] in H.
    apply settled_stays in H as ->; [|done..].
    eexists. split; [done|]. exists (String ch t1), ".", t2.
    split_and!; [by rewrite app_assoc|done|done|by right|done].
  - apply star_inv in H as (t2 & s3 & -> & Ht2 & H).
    rewrite pushes_open, match_here_close in H. cbn [close] in H.
    apply settled_stays in H as ->; [|done..].
    eexists. split; [done|]. exists (String ch t1), "", t2.
    split_and!; [by rewrite app_nil_l|done|done|by left|done].
Qed.

Lemma compile_vehicle :
  compile false "for\s+(\w+)" =
    Some (literals false "for" ++
          [Atom isspace Plus; GroupOpen; Atom isword Plus; GroupClose]).
Proof. reflexivity. Qed.

Lemma compile_distance :
  compile false "(\d+\.?\d*)\s+miles" =
    Some (number_group ++ Atom isspace Plus :: literals false "miles").
Proof. reflexivity. Qed.

Lemma compile_rate :
  compile false "\$?(\d+\.?\d*)\s*/?\s*mile" =
    Some (Atom (Ascii.eqb "$") Opt ::
          number_group ++ Atom isspace Star :: Atom (Ascii.eqb "/") Opt ::
                          Atom isspace Star :: literals false "mile").
Proof. reflexivity. Qed.

Lemma search_distance_decimal s t :
  search false "(\d+\.?\d*)\s+miles" s = Some t → decimal t.
Proof.
  unfold search. rewrite compile_distance.
  destruct (search_from _ s) as [c'|] eqn:E; [|done]. intros [= <-].
  apply search_from_inv in E as (s0 & H).
  apply number_group_inv in H as (t & -> & Ht); done.
Qed.

Lemma search_rate_decimal s t :
  search false "\$?(\d+\.?\d*)\s*/?\s*mile" s = Some t → decimal t.
Proof.
  unfold search. rewrite compile_rate.
  destruct (search_from _ s) as [c'|] eqn:E; [|done]. intros [= <-].
  apply search_from_inv in E as (s0 & H).
  apply opt_inv in H as [(ch & s1 & -> & _ & H)|H];
    apply number_group_inv in H as (t & -> & Ht); done.
Qed.

(** *** [float] of a decimal *)

Lemma take_while_all p a t :
  all p a = true → take_while p (a +:+ t) = a +:+ take_while p t.
Proof.
  induction a as [|c a IH]; [done|]. simpl. intros [Hc Ha]%andb_prop.
  rewrite app_cons. by rewrite Hc, IH.
Qed.

Lemma drop_while_all p a t :
  all p a = true → drop_while p (a +:+ t) = drop_while p t.
Proof.
  induction a as [|c a IH]; [done|]. simpl. intros [Hc Ha]%andb_prop.
  by rewrite Hc, IH.
Qed.

Lemma take_while_id p s : all p s = true → take_while p s = s.
Proof.
  induction s as [|c s IH]; [done|]. simpl. intros [Hc Hs]%andb_prop.
  by rewrite Hc, IH.
Qed.

Lemma drop_while_nil p s : all p s = true → drop_while p s = "".
Proof.
  induction s as [|c s IH]; [done|]. simpl. intros [Hc Hs]%andb_prop.
  by rewrite Hc, IH.
Qed.

Lemma digits_value_all s : ∀ acc,
  all isdigit s = true → is_Some (PyFloat.digits_value acc s).
Proof.
  induction s as [|c s IH]; intros acc; simpl; [by eauto|].
  intros [Hc Hs]%andb_prop. rewrite Hc. by apply IH.
Qed.

Lemma float_of_str_decimal t : decimal t → is_Some (PyFloat.float_of_str t).
Proof.
  intros (a & b & d & -> & Ha0 & Ha & [->| ->] & Hd); unfold PyFloat.float_of_str.
  - rewrite app_nil_l.
    assert (all isdigit (a +:+ d) = true) as Had by (rewrite all_app; by rewrite Ha, Hd).
    rewrite take_while_id, drop_while_nil, app_nil_r by done.
    destruct (digits_value_all (a +:+ d) 0%N Had) as [[|n] ->];
      destruct a; by eauto.
  - rewrite take_while_all, drop_while_all by done.
    rewrite !app_cons, !app_nil_l. simpl. rewrite app_nil_r.
    assert (all isdigit (a +:+ d) = true) as Had by (rewrite all_app; by rewrite Ha, Hd).
    destruct (digits_value_all (a +:+ d) 0%N Had) as [[|n] ->];
      destruct a; by eauto.
Qed.

End PatternFacts.

Module QueryFacts.

Import PyStr PyStrFacts Re ReFacts Spec.

(** *** The query pattern *)

Lemma compile_query :
  compile true "run sql query\s+(.+)" =
    Some (literals true "run sql query" ++ blank_then_line).
Proof. reflexivity. Qed.

(** On text without capitals a literal matches itself only. *)
Lemma literal_lowered x ch :
  isupper x = false → isupper ch = false → literal true x ch = Ascii.eqb x ch.
Proof.
  intros Hx Hch. unfold literal. rewrite !lower_ascii_id by done.
  apply Ascii.eqb_sym.
Qed.

Lemma match_literals t : ∀ r s,
  all (λ c, negb (isupper c)) t = true →
  all (λ c, negb (isupper c)) s = true →
  match_here (literals true t ++ r) Unset s =
    if startswith t s then match_here r Unset (drop (String.length t) s) else None.
Proof.
  induction t as [|x t IH]; intros r s Ht Hs.
  - by destruct s.
  - simpl in Ht. apply andb_prop in Ht as [Hx%negb_true_iff Ht].
    cbn [literals app]. rewrite match_here_one. destruct s as [|ch s]; [done|].
    simpl in Hs. apply andb_prop in Hs as [Hch%negb_true_iff Hs].
    rewrite literal_lowered by done. cbn [startswith String.length drop].
    destruct (Ascii.eqb x ch); [|done]. cbn [push andb]. by apply IH.
Qed.

Lemma literals_short icase t : ∀ r c s,
  String.length s < String.length t → match_here (literals icase t ++ r) c s = None.
Proof.
  induction t as [|x t IH]; intros r c s Hlen; [simpl in Hlen; lia|].
  cbn [literals app]. rewrite match_here_one. destruct s as [|ch s]; [done|].
  destruct (literal icase x ch); [|done]. apply IH. simpl in Hlen. lia.
Qed.

Lemma search_from_short icase t r s :
  String.length s < String.length t → search_from (literals icase t ++ r) s = None.
Proof.
  induction s as [|ch s IH]; intros Hlen; cbn [search_from].
  - by rewrite literals_short.
  - rewrite literals_short by done. apply IH. simpl in Hlen. lia.
Qed.

(** The group takes the rest of the line. *)
Lemma rest_of_line s : ∀ t,
  match_here [Atom not_newline Star; GroupClose] (Open t) s =
    Some (Closed (t +:+ first_line s)).
Proof.
  induction s as [|ch s IH]; intros t; rewrite match_here_star.
  - by rewrite match_here_close, app_nil_r.
  - unfold first_line. cbn [take_while]. destruct (not_newline ch).
    + cbn [push]. rewrite IH. cbn [orelse]. unfold first_line.
      by rewrite app_assoc, app_cons, app_nil_l.
    + by rewrite match_here_close, app_nil_r.
Qed.

Lemma line_group c ch s :
  not_newline ch = true →
  match_here [GroupOpen; Atom not_newline Plus; GroupClose] c (String ch s) =
    Some (Closed (first_line (String ch s))).
Proof.
  intros Hch. rewrite match_here_open, match_here_plus, Hch. cbn [push].
  rewrite rest_of_line. unfold first_line. cbn [take_while]. by rewrite Hch, app_nil_l.
Qed.

(** Blanks are skipped up to the first character that is not one. *)
Lemma blanks_then_line s :
  lstrip s ≠ "" →
  match_here (Atom isspace Star :: [GroupOpen; Atom not_newline Plus; GroupClose]) Unset s =
    Some (Closed (first_line (lstrip s))).
Proof.
  induction s as [|ch s IH]; [done|]. intros Hs. rewrite match_here_star.
  cbn [lstrip] in *. destruct (isspace ch) eqn:E.
  - cbn [push]. by rewrite IH.
  - apply line_group. by apply isspace_not_newline.
Qed.

Lemma blank_then_line_match w rest :
  isspace w = true → lstrip rest ≠ "" →
  match_here blank_then_line Unset (String w rest) =
    Some (Closed (first_line (lstrip rest))).
Proof.
  intros Hw Hrest. unfold blank_then_line. rewrite match_here_plus, Hw.
  by apply blanks_then_line.
Qed.

Lemma after_first_cons sep c s :
  after_first sep (String c s) =
    if startswith sep (String c s) then Some (drop (String.length sep) (String c s))
    else after_first sep s.
Proof. reflexivity. Qed.

Lemma search_from_cons r c s :
  search_from r (String c s) = orelse (match_here r Unset (String c s)) (search_from r s).
Proof. reflexivity. Qed.

(** Where the leftmost match of a trigger followed by [\s+(.+)] is, on text
    without capitals: after the first occurrence of the trigger. *)
Lemma search_trigger t s : ∀ after,
  all (λ c, negb (isupper c)) t = true →
  all (λ c, negb (isupper c)) s = true →
  after_first t s = Some after →
  (after = "" → search_from (literals true t ++ blank_then_line) s = None) ∧
  (∀ w rest, after = String w rest → isspace w = true → lstrip rest ≠ "" →
   search_from (literals true t ++ blank_then_line) s =
     Some (Closed (first_line (lstrip rest)))).
Proof.
  induction s as [|ch s IH]; intros after Ht Hs.
  - simpl. destruct (startswith t "") eqn:E; [|done]. intros [= <-].
    destruct t; [|done]. split; [done|]. by intros w rest [=].
  - rewrite after_first_cons, search_from_cons, match_literals by done.
    destruct (startswith t (String ch s)) eqn:E.
    + intros [= Hafter]. rewrite Hafter. split.
      * intros ->. unfold blank_then_line at 1. rewrite match_here_plus. cbn [orelse].
        apply search_from_short. apply startswith_split in E.
        rewrite Hafter, app_nil_r in E. rewrite <- E. simpl. lia.
      * intros w rest -> Hw Hrest. by rewrite blank_then_line_match.
    + simpl in Hs. apply andb_prop in Hs as [_ Hs]. cbn [orelse]. by apply IH.
Qed.

(** The direct SQL rule on the interpreter's command. *)
Lemma search_query_normalized input after :
  after_first "run sql query" (normalized input) = Some after →
  (after = "" → search true "run sql query\s+(.+)" (normalized input) = None) ∧
  (∀ w rest, after = String w rest → isspace w = true →
   search true "run sql query\s+(.+)" (normalized input) =
     Some (first_line (lstrip after))).
Proof.
  unfold normalized. intros Hafter. unfold search. rewrite compile_query.
  destruct (search_trigger "run sql query" _ _ eq_refl (all_strip_lower input) Hafter)
    as [Hnil Hsome].
  split.
  - intros ->. by rewrite Hnil.
  - intros w rest -> Hw. apply after_first_split in Hafter as (before & Hsplit).
    rewrite (Hsome w rest); [cbn [lstrip]; by rewrite Hw|done..|].
    assert (lstrip (String w rest) ≠ "") as Hne.
    { apply (lstrip_suffix (before +:+ "run sql query")); [|done].
      rewrite app_assoc, <- Hsplit. apply rstrip_strip. }
    cbn [lstrip] in Hne. by rewrite Hw in Hne.
Qed.

End QueryFacts.

(** ** The polling loop *)

Module PollFacts.

Import Py Server Spec.

(** The guard of the loop is the test on the two states. *)
Lemma in_flight_spec st : in_flight st = true ↔ pending_or_running st.
Proof.
  unfold in_flight, list_in, pending_or_running. simpl.
  rewrite orb_false_r, orb_true_iff, !String.eqb_eq. done.
Qed.

Lemma in_flight_false st : in_flight st = false ↔ ¬ pending_or_running st.
Proof. rewrite <- in_flight_spec. by destruct (in_flight st). Qed.

Lemma pending_or_running_dec st : pending_or_running st ∨ ¬ pending_or_running st.
Proof.
  destruct (in_flight st) eqn:E; [left; by apply in_flight_spec|right; by apply in_flight_false].
Qed.

Lemma waiting_Return st : waiting (Return st) ↔ pending_or_running st.
Proof.
  split; [by intros (st' & [= <-] & H)|]. intros H. by exists st.
Qed.

Lemma waiting_Raise e : ¬ waiting (Raise e).
Proof. by intros (st & ? & _). Qed.

Lemma waiting_dec o : waiting o ∨ ¬ waiting o.
Proof.
  destruct o as [st|e]; [|right; apply waiting_Raise].
  rewrite waiting_Return. apply pending_or_running_dec.
Qed.

Lemma succeeded_settled st : state (status st) = "SUCCEEDED" → ¬ pending_or_running st.
Proof. intros H [H'|H']; rewrite H in H'; done. Qed.

(** Traces *)

Lemma elapsed_0 w : elapsed 0 w = w.
Proof. unfold elapsed. simpl. apply app_nil_r. Qed.

Lemma elapsed_S k w : elapsed k (w ++ [Slept 2; Refreshed]) = elapsed (S k) w.
Proof. unfold elapsed. simpl. by rewrite <- app_assoc. Qed.

Lemma elapsed_submitted id query k w :
  elapsed k (w ++ [Submitted (request id query)]) = polled id query k w.
Proof. unfold elapsed, polled. by rewrite <- app_assoc. Qed.

(** Handles *)

Lemma advance_0 h : advance 0 (current h) h = h.
Proof. destruct h. unfold advance. simpl. by rewrite Nat.add_0_r. Qed.

Lemma advance_S k st st1 h : advance k st (advance 1 st1 h) = advance (S k) st h.
Proof. unfold advance. simpl. f_equal. lia. Qed.

(** After a refresh the views are those that were one further. *)
Lemma view_advance h st j :
  observe h (S (seen h)) = Return st → view (advance 1 st h) j = view h (S j).
Proof.
  intros Hst. destruct j as [|j]; simpl.
  - by rewrite Nat.add_1_r.
  - f_equal. lia.
Qed.

(** The handle of a submission sees what the warehouse answers. *)
Lemma view_submitted (ws : Workspace) req st j :
  ws req 0 = Return st → view {| observe := ws req; seen := 0; current := st |} j = ws req j.
Proof. intros Hst. by destruct j. Qed.

(** The loop, step by step *)

Lemma poll_loop_done fuel h w :
  ¬ pending_or_running (current h) → poll_loop fuel h w = Some (Return h, w).
Proof. intros H%in_flight_false. destruct fuel; simpl; by rewrite H. Qed.

Lemma poll_loop_spent h w : pending_or_running (current h) → poll_loop 0 h w = None.
Proof. intros H%in_flight_spec. simpl. by rewrite H. Qed.

(** One iteration: two seconds of sleep, then one refresh. *)
Lemma poll_loop_step fuel h w st :
  pending_or_running (current h) → observe h (S (seen h)) = Return st →
  poll_loop (S fuel) h w = poll_loop fuel (advance 1 st h) (w ++ [Slept 2; Refreshed]).
Proof.
  intros H%in_flight_spec Hst. simpl. rewrite H.
  unfold_binds; unfold sleep, refresh, log, effect, answer. unfold_binds.
  rewrite Hst. unfold advance. rewrite Nat.add_1_r. by rewrite <- app_assoc.
Qed.

Lemma poll_loop_step_raise fuel h w e :
  pending_or_running (current h) → observe h (S (seen h)) = Raise e →
  poll_loop (S fuel) h w = Some (Raise e, w ++ [Slept 2; Refreshed]).
Proof.
  intros H%in_flight_spec He. simpl. rewrite H.
  unfold_binds; unfold sleep, refresh, log, effect, answer. unfold_binds.
  rewrite He. by rewrite <- app_assoc.
Qed.

(** While the views are waiting, the first refresh answers a statement. *)
Lemma first_refresh_answers h k o :
  (∀ j, j < S k → waiting (view h j)) → view h (S k) = o →
  (k = 0 ∧ observe h (S (seen h)) = o) ∨
  (0 < k ∧ ∃ st1, observe h (S (seen h)) = Return st1).
Proof.
  intros Hbusy Ho. destruct k as [|k].
  - left. split; [done|]. simpl in Ho. by rewrite Nat.add_1_r in Ho.
  - right. split; [lia|]. destruct (Hbusy 1 ltac:(lia)) as (st1 & Hst1 & _).
    exists st1. simpl in Hst1. by rewrite Nat.add_1_r in Hst1.
Qed.

Lemma poll_loop_exact k : ∀ h w fuel st,
  (∀ j, j < k → waiting (view h j)) →
  view h k = Return st → ¬ pending_or_running st →
  k ≤ fuel →
  poll_loop fuel h w = Some (Return (advance k st h), elapsed k w).
Proof.
  induction k as [|k IH]; intros h w fuel st Hbusy Hst Hdone Hfuel.
  - simpl in Hst. injection Hst as <-. rewrite advance_0, elapsed_0.
    by apply poll_loop_done.
  - destruct fuel as [|fuel]; [lia|].
    assert (pending_or_running (current h)) as H0.
    { apply waiting_Return. apply (Hbusy 0). lia. }
    destruct (first_refresh_answers h k _ Hbusy Hst) as [[-> H1]|[Hk (st1 & H1)]].
    + rewrite (poll_loop_step _ _ _ st) by done.
      rewrite (IH _ _ fuel st); [by rewrite advance_S, elapsed_S| |done|done|lia].
      intros j Hj. lia.
    + rewrite (poll_loop_step _ _ _ st1) by done.
      rewrite (IH _ _ fuel st); [by rewrite advance_S, elapsed_S| | |done|lia].
      * intros j Hj. rewrite view_advance by done. apply Hbusy. lia.
      * by rewrite view_advance.
Qed.

Lemma poll_loop_raises k : ∀ h w fuel e,
  (∀ j, j < k → waiting (view h j)) →
  view h k = Raise e →
  k ≤ fuel →
  poll_loop fuel h w = Some (Raise e, elapsed k w).
Proof.
  induction k as [|k IH]; intros h w fuel e Hbusy He Hfuel; [done|].
  destruct fuel as [|fuel]; [lia|].
  assert (pending_or_running (current h)) as H0.
  { apply waiting_Return. apply (Hbusy 0). lia. }
  destruct (first_refresh_answers h k _ Hbusy He) as [[-> H1]|[Hk (st1 & H1)]].
  - by rewrite (poll_loop_step_raise _ _ _ e).
  - rewrite (poll_loop_step _ _ _ st1) by done.
    rewrite (IH _ _ fuel e); [by rewrite elapsed_S| | |lia].
    + intros j Hj. rewrite view_advance by done. apply Hbusy. lia.
    + by rewrite view_advance.
Qed.

Lemma poll_loop_Some_inv fuel : ∀ h w r,
  poll_loop fuel h w = Some r → ∃ k, k ≤ fuel ∧ ¬ waiting (view h k).
Proof.
  induction fuel as [|fuel IH]; intros h w r Hr.
  - destruct (pending_or_running_dec (current h)) as [H|H].
    + by rewrite poll_loop_spent in Hr.
    + exists 0. split; [done|]. simpl. by rewrite waiting_Return.
  - destruct (pending_or_running_dec (current h)) as [H|H].
    + destruct (observe h (S (seen h))) as [st|e] eqn:E.
      * rewrite (poll_loop_step _ _ _ st) in Hr by done.
        apply IH in Hr as (k & Hk & Hdone). exists (S k). split; [lia|].
        by rewrite view_advance in Hdone.
      * exists 1. split; [lia|]. simpl. rewrite Nat.add_1_r, E. apply waiting_Raise.
    + exists 0. split; [lia|]. simpl. by rewrite waiting_Return.
Qed.

(** Up to any bound, either some answer is the first on which the Poller
    does not go on, or it goes on on all of them. *)
Lemma settled_or_busy (answers : nat → outcome Statement) (k : nat) :
  (∃ k0, k0 ≤ k ∧ (∀ j, j < k0 → waiting (answers j)) ∧ ¬ waiting (answers k0)) ∨
  (∀ j, j ≤ k → waiting (answers j)).
Proof.
  induction k as [|k [(k0 & Hk0 & Hbusy & Hdone)|Hbusy]].
  - destruct (waiting_dec (answers 0)) as [H|H].
    + right. intros j Hj. by replace j with 0 by lia.
    + left. exists 0. split_and!; [done| |done]. intros j Hj. lia.
  - left. exists k0. split_and!; [lia|done..].
  - destruct (waiting_dec (answers (S k))) as [H|H].
    + right. intros j Hj. destruct (decide (j = S k)) as [->|]; [done|]. apply Hbusy. lia.
    + left. exists (S k). split_and!; [done| |done]. intros j Hj. apply Hbusy. lia.
Qed.

Lemma first_settled (answers : nat → outcome Statement) (k : nat) :
  ¬ waiting (answers k) →
  ∃ k0, k0 ≤ k ∧ (∀ j, j < k0 → waiting (answers j)) ∧ ¬ waiting (answers k0).
Proof.
  intros Hk. destruct (settled_or_busy answers k) as [?|Hbusy]; [done|].
  destruct Hk. by apply Hbusy.
Qed.

(** What [poll_results] makes of the statement the loop ends on. *)
Lemma poll_results_failed fuel h w k st :
  (∀ j, j < k → waiting (view h j)) →
  view h k = Return st → ¬ pending_or_running st →
  state (status st) ≠ "SUCCEEDED" →
  k ≤ fuel →
  poll_results fuel h w =
    Some (Raise (RuntimeError ("Query failed: " +:+ str_error (error (status st)))),
          elapsed k w).
Proof.
  intros Hbusy Hst Hdone Hstate Hfuel. unfold poll_results.
  unfold_binds. rewrite (poll_loop_exact k _ _ _ st) by done.
  unfold advance. simpl.
  apply String.eqb_neq in Hstate. by rewrite Hstate.
Qed.

Lemma poll_results_succeeded fuel h w k st r :
  (∀ j, j < k → waiting (view h j)) →
  view h k = Return st →
  state (status st) = "SUCCEEDED" →
  result st = Some r →
  k ≤ fuel →
  poll_results fuel h w =
    Some (Return (advance k st h, default [] (data_array r)), elapsed k w).
Proof.
  intros Hbusy Hst Hstate Hresult Hfuel. unfold poll_results.
  unfold_binds. rewrite (poll_loop_exact k _ _ _ st); [|done..|by apply succeeded_settled|done].
  unfold advance. simpl. by rewrite Hstate, Hresult.
Qed.

(** With the warehouse named, the tool submits its request and, when the
    submission answers a statement, polls. *)
Lemma run_sql_query_polls fuel env ws query w id st :
  getenv env "DATABRICKS_SQL_WAREHOUSE_ID" = Some id → id ≠ "" →
  ws (request id query) 0 = Return st →
  run_sql_query fuel env ws query w =
    try_except
      ('(h', results) ← poll_results fuel
                          {| observe := ws (request id query); seen := 0; current := st |};
       ret (translate results (result (current h') ≫= schema)))
      (fun e => raise (RuntimeError ("SQL query failed: " +:+ str_exn e)))
      (w ++ [Submitted (request id query)]).
Proof.
  intros Henv Hid Hst. unfold run_sql_query. rewrite Henv.
  destruct id as [|c id]; [done|].
  unfold try_except at 1. unfold execute_statement, log, effect, answer.
  step_bind. step_bind. fold (request (String c id) query). step_bind.
  rewrite Hst. reflexivity.
Qed.

Lemma run_sql_query_refused fuel env ws query w id e :
  getenv env "DATABRICKS_SQL_WAREHOUSE_ID" = Some id → id ≠ "" →
  ws (request id query) 0 = Raise e →
  run_sql_query fuel env ws query w =
    Some (Raise (RuntimeError ("SQL query failed: " +:+ str_exn e)),
          w ++ [Submitted (request id query)]).
Proof.
  intros Henv Hid He. unfold run_sql_query. rewrite Henv.
  destruct id as [|c id]; [done|].
  unfold try_except at 1. unfold execute_statement, log, effect, answer.
  step_bind. step_bind. fold (request (String c id) query). step_bind.
  rewrite He. reflexivity.
Qed.

(** A statement that succeeds: the tool returns what its translator makes
    of the rows and the schema. *)
Lemma run_sql_query_succeeded fuel env ws query w id k st r :
  getenv env "DATABRICKS_SQL_WAREHOUSE_ID" = Some id → id ≠ "" →
  (∀ j, j < k → waiting (ws (request id query) j)) →
  ws (request id query) k = Return st →
  state (status st) = "SUCCEEDED" →
  result st = Some r →
  k ≤ fuel →
  run_sql_query fuel env ws query w =
    Some (Return (Server.translate (default [] (data_array r)) (schema r)),
          polled id query k w).
Proof.
  intros Henv Hid Hbusy Hst Hstate Hresult Hfuel.
  assert (∃ st0, ws (request id query) 0 = Return st0) as [st0 H0].
  { destruct k as [|k]; [by eauto|]. destruct (Hbusy 0 ltac:(lia)) as (st0 & ? & _). by eauto. }
  rewrite (run_sql_query_polls _ _ _ _ _ id st0) by done.
  unfold_binds.
  erewrite (poll_results_succeeded _ _ _ k st);
    [| |by rewrite view_submitted|done..].
  - unfold advance. simpl. by rewrite Hresult, elapsed_submitted.
  - intros j Hj. rewrite view_submitted by done. by apply Hbusy.
Qed.

End PollFacts.
(** ** The toll table and the configuration checks *)

Module ToolFacts.

Import Py Server Spec.

(** The table lookup, case by case. *)
Lemma rates_get (k : string) :
  PyDict.get_default k 1.0%float rates =
    if String.eqb k "car" then 1.0%float
    else if String.eqb k "truck" then 1.5%float
    else if String.eqb k "motorcycle" then 0.8%float
    else 1.0%float.
Proof.
  change rates with [("car", 1.0%float); ("truck", 1.5%float); ("motorcycle", 0.8%float)].
  unfold PyDict.get_default. cbn [PyDict.get].
  by repeat destruct (String.eqb k _).
Qed.

(** Rounding to the nearest integer, ties to even, said without the
    quotient. *)
Lemma div_half_even_spec (n d : Z) :
  (0 <= n → 0 < d →
   0 <= PyFloat.div_half_even n d ∧
   Z.abs (2 * n - 2 * PyFloat.div_half_even n d * d) <= d ∧
   (Z.abs (2 * n - 2 * PyFloat.div_half_even n d * d) = d →
    Z.even (PyFloat.div_half_even n d) = true))%Z.
Proof.
  intros Hn Hd. unfold PyFloat.div_half_even.
  pose proof (Z.div_mod n d ltac:(lia)) as Hdiv.
  pose proof (Z.mod_pos_bound n d Hd) as Hmod.
  pose proof (Z.div_pos n d Hn Hd) as Hq.
  set (q := (n / d)%Z) in *. set (r := (n mod d)%Z) in *.
  assert (2 * n - 2 * q * d = 2 * r)%Z as Hlow by lia.
  assert (2 * n - 2 * (q + 1) * d = 2 * r - 2 * d)%Z as Hhigh by lia.
  destruct (Z.compare_spec (2 * r) d) as [Heq|Hlt|Hgt].
  - destruct (Z.even q) eqn:Heven.
    + rewrite Hlow. split_and!; [done|lia|done].
    + rewrite Hhigh. split_and!; [lia|lia|].
      intros _. rewrite Z.add_1_r, Z.even_succ, <- Z.negb_even. by rewrite Heven.
  - rewrite Hlow. split_and!; [done|lia|lia].
  - rewrite Hhigh. split_and!; [lia|lia|lia].
Qed.

(** [round(x, 2)] on a double that is [m * 2 ^ e]: an integer is left as it
    is; any other number becomes the double nearest to its nearest number
    of hundredths. *)
Lemma round_hundredths (x : float) (s : bool) (m : positive) (e : Z) :
  Prim2SF x = S754_finite s m e →
  ((0 <= e)%Z → PyFloat.round x 2 = x) ∧
  ((e < 0)%Z →
   ∃ n, (0 <= n)%Z ∧ nearest_hundredth m e n ∧ PyFloat.round x 2 = hundredths s n).
Proof.
  intros Hx. unfold PyFloat.round. rewrite Hx. split.
  - intros He. apply Z.leb_le in He. by rewrite He.
  - intros He. apply Z.leb_gt in He as He'. rewrite He'.
    change (PyFloat.pow10 2) with 100%positive.
    assert (0 < 2 ^ (- e))%Z as Hpow by (apply Z.pow_pos_nonneg; lia).
    destruct (div_half_even_spec (Z.pos (100 * m)) (2 ^ (- e)) ltac:(lia) Hpow)
      as (Hn & Hnear & Htie).
    exists (PyFloat.div_half_even (Z.pos (100 * m)) (2 ^ (- e))).
    split; [done|]. split; [by split|]. reflexivity.
Qed.

Lemma round_not_finite (x : float) :
  (∀ s m e, Prim2SF x ≠ S754_finite s m e) → PyFloat.round x 2 = x.
Proof.
  intros Hx. unfold PyFloat.round. destruct (Prim2SF x) as [| | |s m e] eqn:E; try done.
  by destruct (Hx s m e).
Qed.

(** One variable that is unset or empty fails the [all] test. *)
Lemma all_missing env var :
  var ∈ Snowflake.required → PyStr.truthy (getenv env var) = false →
  Snowflake.all [getenv env "SNOWFLAKE_ACCOUNT"; getenv env "SNOWFLAKE_USER";
                 getenv env "SNOWFLAKE_PASSWORD"; getenv env "SNOWFLAKE_DATABASE";
                 getenv env "SNOWFLAKE_SCHEMA"; getenv env "SNOWFLAKE_WAREHOUSE"] = false.
Proof.
  unfold Snowflake.required, Snowflake.all. rewrite !elem_of_cons, elem_of_nil.
  intros Hvar Hmiss. simpl.
  repeat (destruct Hvar as [->|Hvar];
          [rewrite Hmiss; by rewrite ?andb_false_r, ?andb_false_l|]).
  done.
Qed.

(** A query that succeeds: the tool returns what its translator makes of the
    column names of the cursor and the rows, and closes the connection. *)
Lemma run_snowflake_query_succeeded env drv query w ex rows :
  Snowflake.all [getenv env "SNOWFLAKE_ACCOUNT"; getenv env "SNOWFLAKE_USER";
                 getenv env "SNOWFLAKE_PASSWORD"; getenv env "SNOWFLAKE_DATABASE";
                 getenv env "SNOWFLAKE_SCHEMA"; getenv env "SNOWFLAKE_WAREHOUSE"] = true →
  (∀ args, Snowflake.connect drv args = Return ()) →
  Snowflake.execute drv query = Return ex →
  Snowflake.fetchall ex = Return rows →
  Snowflake.run_snowflake_query env drv query w =
    Some (Return (Snowflake.translate (default [] (map fst <$> Snowflake.description ex)) rows),
          {| Snowflake.connection := Snowflake.Released;
             Snowflake.cursor := Snowflake.Released;
             Snowflake.executed := Snowflake.executed w ++ [query] |}).
Proof.
  intros Hall Hconnect Hexecute Hfetch. unfold Snowflake.run_snowflake_query.
  rewrite Hall. cbn [negb].
  unfold_binds; unfold Snowflake.open_connection, answer.
  rewrite Hconnect. cbn.
  unfold Snowflake.run_query_sync, Snowflake.with_cursor, Snowflake.cursor_execute.
  unfold_binds; unfold answer. cbn.
  rewrite Hexecute, Hfetch. cbn.
  by destruct (Snowflake.description ex) as [[|d descs]|].
Qed.

(** A query whose execution raises, or whose rows cannot be fetched: the
    tool raises with the connection still held. *)
Lemma run_snowflake_query_failed env drv query w e :
  Snowflake.all [getenv env "SNOWFLAKE_ACCOUNT"; getenv env "SNOWFLAKE_USER";
                 getenv env "SNOWFLAKE_PASSWORD"; getenv env "SNOWFLAKE_DATABASE";
                 getenv env "SNOWFLAKE_SCHEMA"; getenv env "SNOWFLAKE_WAREHOUSE"] = true →
  (∀ args, Snowflake.connect drv args = Return ()) →
  (Snowflake.execute drv query = Raise e ∨
   ∃ ex, Snowflake.execute drv query = Return ex ∧ Snowflake.fetchall ex = Raise e) →
  Snowflake.run_snowflake_query env drv query w =
    Some (Raise (RuntimeError ("Snowflake query failed: " +:+ str_exn e)),
          {| Snowflake.connection := Snowflake.Held;
             Snowflake.cursor := Snowflake.Released;
             Snowflake.executed := Snowflake.executed w ++ [query] |}).
Proof.
  intros Hall Hconnect Hfail. unfold Snowflake.run_snowflake_query.
  rewrite Hall. cbn [negb].
  unfold_binds; unfold Snowflake.open_connection, answer.
  rewrite Hconnect. cbn.
  unfold Snowflake.run_query_sync, Snowflake.with_cursor, Snowflake.cursor_execute.
  unfold_binds; unfold answer. cbn.
  destruct Hfail as [->|(ex & -> & Hfetch)]; cbn; [done|]. by rewrite Hfetch.
Qed.

End ToolFacts.

(** ** The Result Translator *)

Module TranslatorFacts.

Import Py Server Spec PyDictFacts.

Lemma names_schema_of columns : name <$> fields (schema_of columns) = columns.
Proof. unfold schema_of. simpl. rewrite <- list_fmap_compose. apply list_fmap_id. Qed.

Lemma primary_zip columns rows : primary columns rows = zip_rows columns rows.
Proof.
  unfold primary, Server.translate. destruct rows as [|r rows]; [done|].
  fold (@fmap list _ _ _ name (fields (schema_of columns))).
  by rewrite names_schema_of.
Qed.

Lemma secondary_zip columns rows :
  columns ≠ [] → secondary columns rows = zip_rows columns rows.
Proof. by destruct columns. Qed.

Lemma length_zip_rows columns rows : length (zip_rows columns rows) = length rows.
Proof. apply length_map. Qed.

Lemma zip_rows_lookup columns rows i :
  zip_rows columns rows !! i = (λ r, PyDict.of_pairs (zip columns r)) <$> rows !! i.
Proof. apply list_lookup_fmap. Qed.

(** The keys assigned for a row: the column names it has cells for. *)
Lemma fst_zip_take (columns : list string) (r : row) :
  (zip columns r).*1 = take (length r) columns.
Proof.
  revert r. induction columns as [|c columns IH]; intros [|x r]; simpl; [done..|].
  by rewrite IH.
Qed.

Lemma NoDup_fst_zip (columns : list string) (r : row) :
  NoDup columns → NoDup (zip columns r).*1.
Proof.
  intros Hnd. rewrite fst_zip_take. eapply sublist_NoDup; [done|apply sublist_take].
Qed.

(** With distinct names a mapping is the row's positional pairs, in order. *)
Lemma zip_rows_distinct columns rows :
  NoDup columns → zip_rows columns rows = zip columns <$> rows.
Proof.
  intros Hnd. unfold zip_rows. apply map_ext. intros r.
  by apply of_pairs_distinct, NoDup_fst_zip.
Qed.

(** A repeated name costs every mapping a key, whatever the row. *)
Lemma len_zip_dup (columns : list string) (r : row) :
  ¬ NoDup columns → PyDict.len (PyDict.of_pairs (zip columns r)) < length columns.
Proof.
  intros Hdup. destruct (decide (length columns ≤ length r)) as [Hle|Hgt].
  - eapply Nat.lt_le_trans; [apply len_of_pairs_lt|].
    + by rewrite fst_zip.
    + rewrite length_zip. lia.
  - eapply Nat.le_lt_trans; [apply len_of_pairs_le|]. rewrite length_zip. lia.
Qed.

(** The cell kept for a name is the one under its last column. *)
Lemma get_zip_last (columns : list string) (r : row) c k x :
  columns !! c = Some k → r !! c = Some x →
  (∀ c', c < c' → columns !! c' ≠ Some k) →
  PyDict.get k (PyDict.of_pairs (zip columns r)) = Some x.
Proof.
  intros Hc Hr Hlast. apply (get_of_pairs_last _ c).
  - by apply lookup_zip_Some.
  - intros j v' Hj [Hcol _]%lookup_zip_Some. by apply (Hlast j).
Qed.

Example primary_drops_a_key :
  primary ["a"; "a"] [[Int 1; Int 2]] = [[("a", Int 2)]].
Proof. reflexivity. Qed.

Example secondary_drops_rows : secondary [] [[]; []] = [].
Proof. reflexivity. Qed.

(** Where the translators return the empty sequence: without rows, and, for
    the primary one, without a schema, for the secondary one, without
    columns. *)
Lemma translators_empty columns :
  primary columns [] = [] ∧ secondary columns [] = [] ∧
  (∀ rows, secondary [] rows = []) ∧
  (∀ rows, Server.translate rows None = []).
Proof. split_and!; [done|by destruct columns|done|by intros []]. Qed.

End TranslatorFacts.

(** ** The command interpreter *)

Module InterpreterFacts.

Import Py Client Spec PyStr PyStrFacts PatternFacts QueryFacts.

Lemma call_tool_run srv tool arguments w :
  call_tool srv tool arguments w = Some (srv tool arguments, called tool arguments w).
Proof. reflexivity. Qed.

Lemma call_then {A} srv tool arguments (f : tool_result → A) w :
  (r ← call_tool srv tool arguments; ret (f r)) w =
    Some (match srv tool arguments with
          | Return r => Return (f r)
          | Raise e => Raise e
          end, called tool arguments w).
Proof.
  unfold_binds. rewrite call_tool_run. by destruct (srv tool arguments).
Qed.

(** The text a toll pattern captures is one [float] accepts. *)
Lemma parse_extracted pattern command dflt :
  (∀ t, Re.search false pattern command = Some t → Re.decimal t) →
  ∃ x, Spec.extracted pattern command dflt x ∧
       ∀ w : Client.World,
         from_option parse_float (ret dflt) (Re.search false pattern command) w =
           Some (Return x, w).
Proof.
  intros Hdec. unfold Spec.extracted.
  destruct (Re.search false pattern command) as [t|]; simpl.
  - destruct (float_of_str_decimal t (Hdec t eq_refl)) as [x Hx].
    exists x. split; [done|]. intros w. unfold parse_float. by rewrite Hx.
  - by exists dflt.
Qed.

(** What [generate_sql_query] asks the gateway, and what it makes of the
    answer. *)
Lemma generate_sql_query_posts env gw text w url model :
  Server.getenv env "NLP_GATEWAY_URL" = Some url → url ≠ "" →
  Server.getenv env "NLP_MODEL_NAME" = Some model → model ≠ "" →
  generate_sql_query env gw text w =
    Some (translated (gw (gateway_request env url model text)),
          posted (gateway_request env url model text) w).
Proof.
  intros Hurl Hu Hmodel Hm. unfold generate_sql_query, gateway_request. rewrite Hurl, Hmodel.
  destruct url as [|u0 url]; [done|]. destruct model as [|m0 model]; [done|].
  unfold_binds; unfold post, effect, answer, translated, posted.
  destruct (Server.getenv env "NLP_API_KEY") as [[|k0 key]|]; simpl;
    (destruct (gw _) as [reply|e]; [|done]; by destruct (first_text reply)).
Qed.

(** The prompt carries the text it is built on. *)
Lemma prompt_has_input text : str_in text (prompt_for text) = true.
Proof.
  unfold prompt_for.
  repeat first [ by apply str_in_here, startswith_app | apply str_in_app_l ].
Qed.

End InterpreterFacts.


(** ** The direct SQL rule on every command *)

Module DirectSqlFacts.

Import PyStr PyStrFacts Re ReFacts QueryFacts Spec.

Lemma rstrip_tail ch s : rstrip (String ch s) = String ch s → rstrip s = s.
Proof.
  simpl. destruct (rstrip s) as [|c r] eqn:E.
  - destruct (isspace ch); [done|]. by intros [= <-].
  - by intros [= <-].
Qed.

(** What follows the trigger at the place where a match is tried. *)
Lemma blank_then_line_here u s :
  rstrip (s +:+ u) = s +:+ u →
  match_here blank_then_line Unset u =
    if blank_head u then Some (Closed (first_line (lstrip u))) else None.
Proof.
  intros Hfix. destruct u as [|w rest]; [done|]. cbn [blank_head].
  destruct (isspace w) eqn:Hw.
  - assert (lstrip rest ≠ "") as Hrest.
    { apply lstrip_suffix in Hfix; [|done]. cbn [lstrip] in Hfix. by rewrite Hw in Hfix. }
    rewrite blank_then_line_match by done. cbn [lstrip]. by rewrite Hw.
  - unfold blank_then_line. by rewrite match_here_plus, Hw.
Qed.

(** The search of a trigger followed by blanks and a line, on a text
    without capitals and without a blank at its end: the match is at the
    leftmost trigger which a blank follows. *)
Lemma search_trigger_total t s :
  all (λ c, negb (isupper c)) t = true →
  all (λ c, negb (isupper c)) s = true →
  rstrip s = s →
  search_from (literals true t ++ blank_then_line) s =
    (λ after, Closed (first_line (lstrip after))) <$> after_first_followed t s.
Proof.
  intros Ht. induction s as [|ch s IH]; intros Hs Hfix.
  - cbn [search_from after_first_followed]. rewrite match_literals by done.
    destruct (startswith t "") eqn:E; [|done].
    destruct t; [|done]. done.
  - rewrite search_from_cons, match_literals by done.
    cbn [after_first_followed].
    assert (search_from (literals true t ++ blank_then_line) s =
              (λ after, Closed (first_line (lstrip after))) <$> after_first_followed t s)
      as Hrec.
    { apply IH; [|by eapply rstrip_tail].
      simpl in Hs. by apply andb_prop in Hs as [_ Hs]. }
    destruct (startswith t (String ch s)) eqn:E; [|by rewrite Hrec].
    cbn [andb]. pose proof (startswith_split _ _ E) as Hsplit.
    rewrite (blank_then_line_here _ t) by by rewrite <- Hsplit.
    destruct (blank_head (drop (String.length t) (String ch s))); [done|].
    cbn [orelse]. exact Hrec.
Qed.

(** The query pattern on the interpreter's command. *)
Lemma search_query_total input :
  search true "run sql query\s+(.+)" (normalized input) =
    (λ after, first_line (lstrip after)) <$>
      after_first_followed "run sql query" (normalized input).
Proof.
  unfold search. rewrite compile_query.
  rewrite search_trigger_total; [|done|apply all_strip_lower|apply rstrip_strip].
  by destruct (after_first_followed _ _).
Qed.

End DirectSqlFacts.
(** ** The command interpreter, rule by rule *)

Module RuleFacts.

Import Py Client Spec PyStr PyStrFacts PatternFacts QueryFacts DirectSqlFacts InterpreterFacts.

Lemma rule_secret_word env gw srv input w :
  str_in "secret word" (normalized input) = true →
  process_command env gw srv input w =
    Some (answered Result (srv "secret_word" []), called "secret_word" [] w).
Proof.
  intros H1. unfold process_command. fold (normalized input). rewrite H1.
  apply call_then.
Qed.

Lemma rule_calculate_toll env gw srv input w :
  str_in "secret word" (normalized input) = false →
  str_in "calculate toll" (normalized input) = true →
  ∃ distance toll_rate,
    extracted "(\d+\.?\d*)\s+miles" (normalized input) 10.0 distance ∧
    extracted "\$?(\d+\.?\d*)\s*/?\s*mile" (normalized input) 0.25 toll_rate ∧
    process_command env gw srv input w =
      Some (answered Result
              (srv "calculate_toll"
                 (toll_arguments
                    (default "car" (Re.search false "for\s+(\w+)" (normalized input)))
                    distance toll_rate)),
            called "calculate_toll"
              (toll_arguments
                 (default "car" (Re.search false "for\s+(\w+)" (normalized input)))
                 distance toll_rate) w).
Proof.
  intros H1 H2.
  destruct (parse_extracted "(\d+\.?\d*)\s+miles" (normalized input) 10.0%float)
    as (distance & Hd & Hpd); [apply search_distance_decimal|].
  destruct (parse_extracted "\$?(\d+\.?\d*)\s*/?\s*mile" (normalized input) 0.25%float)
    as (toll_rate & Hr & Hpr); [apply search_rate_decimal|].
  exists distance, toll_rate. split_and!; [done..|].
  unfold process_command. fold (normalized input). rewrite H1, H2. cbv zeta.
  step_bind. rewrite Hpd.
  step_bind. rewrite Hpr.
  apply call_then.
Qed.

Lemma rule_direct_sql env gw srv input w after :
  str_in "secret word" (normalized input) = false →
  str_in "calculate toll" (normalized input) = false →
  after_first "run sql query" (normalized input) = Some after →
  (after = "" →
   process_command env gw srv input w = Some (Return (Message missing_query), w)) ∧
  (∀ c rest, after = String c rest → isspace c = true →
     process_command env gw srv input w =
       Some (answered render
               (srv "run_sql_query" (query_arguments (strip (first_line (lstrip after))))),
             called "run_sql_query"
               (query_arguments (strip (first_line (lstrip after)))) w)).
Proof.
  intros H1 H2 Hafter.
  assert (str_in "run sql query" (normalized input) = true) as H3
    by (apply after_first_str_in; by eauto).
  destruct (search_query_normalized input after Hafter) as [Hnil Hsome].
  split.
  - intros Hn. unfold process_command. fold (normalized input).
    rewrite H1, H2, H3. cbv zeta. by rewrite (Hnil Hn).
  - intros c rest Hc Hsp. unfold process_command. fold (normalized input).
    rewrite H1, H2, H3. cbv zeta. rewrite (Hsome c rest Hc Hsp).
    apply call_then.
Qed.

(** The direct SQL rule, on every command that contains its trigger. *)
Lemma rule_direct_sql_total env gw srv input w :
  str_in "secret word" (normalized input) = false →
  str_in "calculate toll" (normalized input) = false →
  str_in "run sql query" (normalized input) = true →
  process_command env gw srv input w =
    match amended_direct_sql (normalized input) with
    | Some query =>
        Some (answered render (srv "run_sql_query" (query_arguments query)),
              called "run_sql_query" (query_arguments query) w)
    | None => Some (Return (Message missing_query), w)
    end.
Proof.
  intros H1 H2 H3. unfold process_command. fold (normalized input).
  rewrite H1, H2, H3. cbv zeta. rewrite search_query_total. unfold amended_direct_sql.
  destruct (after_first_followed _ _) as [after|]; [|done].
  apply call_then.
Qed.

Lemma rule_translate env gw srv input w :
  str_in "secret word" (normalized input) = false →
  str_in "calculate toll" (normalized input) = false →
  str_in "run sql query" (normalized input) = false →
  (∀ e w1, generate_sql_query env gw (normalized input) w = Some (Raise e, w1) →
     process_command env gw srv input w = Some (Raise e, w1)) ∧
  (∀ sql w1, generate_sql_query env gw (normalized input) w = Some (Return sql, w1) →
     process_command env gw srv input w =
       Some (answered render (srv "run_sql_query" (query_arguments sql)),
             called "run_sql_query" (query_arguments sql)
               (noted ("Generated SQL: " +:+ sql) w1))).
Proof.
  intros H1 H2 H3. split.
  - intros e w1 Hg. unfold process_command. fold (normalized input).
    rewrite H1, H2, H3. step_bind. by rewrite Hg.
  - intros sql w1 Hg. unfold process_command. fold (normalized input).
    rewrite H1, H2, H3. step_bind. rewrite Hg.
    step_bind. unfold append_message, effect.
    apply call_then.
Qed.

End RuleFacts.

(** * The claims of the specification *)

Section Claims.

Import Py Server Client Spec Sample.
Import PyStrFacts PyDictFacts PollFacts ToolFacts TranslatorFacts RuleFacts.

(** C1, counterexample.  The loop can come to an end although no refresh
    yields a state outside PENDING and RUNNING.  A statement that has
    succeeded when it is submitted ends the loop at once, with no sleep and
    no refresh at all, whatever a refresh would have answered; and a
    refresh that fails ends the loop with its error, after one sleep and
    that refresh, although no answer of the warehouse is a statement in
    another state. *)
Lemma poll_loop_ends_without_settled_refresh :
  (poll_loop 0 (submitted_handle warehouse_done_at_once (request "w" "SELECT 1")
                  {| status := {| state := "SUCCEEDED"; error := None |}; result := None |})
     Server.idle =
     Some (Return (submitted_handle warehouse_done_at_once (request "w" "SELECT 1")
                     {| status := {| state := "SUCCEEDED"; error := None |};
                        result := None |}),
           []) ∧
   ∀ k, waiting (warehouse_done_at_once (request "w" "SELECT 1") (S k))) ∧
  (poll_loop 1 (submitted_handle (warehouse_unreachable (LibraryError "timed out"))
                  (request "w" "SELECT 1")
                  {| status := {| state := "RUNNING"; error := None |}; result := None |})
     Server.idle =
     Some (Raise (LibraryError "timed out"), [Slept 2; Refreshed]) ∧
   ∀ k st, warehouse_unreachable (LibraryError "timed out") (request "w" "SELECT 1") k =
             Return st → pending_or_running st).
Proof.
  split_and!.
  - reflexivity.
  - intros k. eexists. split; [reflexivity|]. by right.
  - reflexivity.
  - intros [|k] st; [|done]. intros [= <-]. by right.
Qed.

(** C1, as amended.  While the statement it holds is PENDING or RUNNING the
    Poller sleeps two seconds and then refreshes the statement, in this
    order; when the statement is in any other state it does neither and the
    loop is over.  Nothing else ends the loop but a failure of a refresh,
    which ends it with that error.  So the loop comes to an end if and only
    if the statement the submission returned, or the answer of some
    refresh, is not a statement that is PENDING or RUNNING; for a statement
    that is PENDING or RUNNING when it is submitted, if and only if the
    answer of some refresh is not.  When the first such answer is the
    [k]-th, the loop ends after exactly [k] iterations, each a sleep of two
    seconds followed by a refresh, whatever [k] is and whatever wait the
    request asked for, and no smaller number of iterations ends it: it ends
    normally on a statement in another state, and with the error on a
    refresh that failed. *)
Theorem poll_loop_ends_iff_settled (h : Handle) (w : Server.World) :
  (pending_or_running (current h) →
   ∀ fuel,
     (∀ st, observe h (S (seen h)) = Return st →
        poll_loop (S fuel) h w =
          poll_loop fuel {| observe := observe h; seen := S (seen h); current := st |}
            (w ++ [Slept 2; Refreshed])) ∧
     (∀ e, observe h (S (seen h)) = Raise e →
        poll_loop (S fuel) h w = Some (Raise e, w ++ [Slept 2; Refreshed]))) ∧
  (¬ pending_or_running (current h) →
   ∀ fuel, poll_loop fuel h w = Some (Return h, w)) ∧
  ((∃ fuel, is_Some (poll_loop fuel h w)) ↔ (∃ k, ¬ waiting (view h k))) ∧
  (pending_or_running (current h) →
   ((∃ fuel, is_Some (poll_loop fuel h w)) ↔
    (∃ k, ¬ waiting (observe h (seen h + S k))))) ∧
  (∀ k, (∀ j, j < k → waiting (view h j)) →
        (∀ st, view h k = Return st → ¬ pending_or_running st →
           (∀ fuel, k ≤ fuel →
              poll_loop fuel h w =
                Some (Return {| observe := observe h; seen := seen h + k; current := st |},
                      w ++ cycles k)) ∧
           (∀ fuel, fuel < k → poll_loop fuel h w = None)) ∧
        (∀ e, view h k = Raise e →
           (∀ fuel, k ≤ fuel → poll_loop fuel h w = Some (Raise e, w ++ cycles k)) ∧
           (∀ fuel, fuel < k → poll_loop fuel h w = None))).
Proof.
  assert ((∃ fuel, is_Some (poll_loop fuel h w)) ↔ (∃ k, ¬ waiting (view h k))) as Hiff.
  { split.
    - intros (fuel & r & Hr). apply poll_loop_Some_inv in Hr as (k & _ & Hk). eauto.
    - intros (k & Hk). apply (first_settled (view h)) in Hk as (k0 & _ & Hbusy & Hdone).
      exists k0. destruct (view h k0) as [st|e] eqn:E.
      + rewrite (poll_loop_exact k0 _ _ _ st); [by eauto|done..| |done].
        by rewrite waiting_Return in Hdone.
      + rewrite (poll_loop_raises k0 _ _ _ e); by eauto. }
  assert (∀ k fuel, (∀ j, j < k → waiting (view h j)) → fuel < k →
                    poll_loop fuel h w = None) as Hshort.
  { intros k fuel Hbusy Hfuel. destruct (poll_loop fuel h w) as [r|] eqn:E; [|done].
    apply poll_loop_Some_inv in E as (k' & Hk' & Hdone'). destruct Hdone'.
    apply Hbusy. lia. }
  split_and!.
  - intros Hbusy fuel. split.
    + intros st Hst. rewrite (poll_loop_step _ _ _ st) by done.
      unfold advance. by rewrite Nat.add_1_r.
    + intros e He. by apply poll_loop_step_raise.
  - intros Hdone fuel. by apply poll_loop_done.
  - exact Hiff.
  - intros Hbusy. rewrite Hiff. split.
    + intros ([|k] & Hk); [|by exists k]. destruct Hk. by apply waiting_Return.
    + intros (k & Hk). by exists (S k).
  - intros k Hbusy. split.
    + intros st Hst Hdone. split; [|intros fuel; by apply Hshort].
      intros fuel Hfuel. by apply poll_loop_exact.
    + intros e He. split; [|intros fuel; by apply Hshort].
      intros fuel Hfuel. by apply poll_loop_raises.
Qed.

(** A statement that runs for twenty observations keeps the Poller asleep
    for forty seconds, past the thirty the request asked for; and a
    statement that is pending, then running, then succeeded is polled
    twice. *)
Lemma poll_loop_outlasts_wait_hint :
  wait_timeout (request "w" "SELECT 1") = "30s" ∧
  poll_loop 20 (submitted_handle (warehouse_settling 20 "FAILED") (request "w" "SELECT 1")
                  running) Server.idle =
    Some (Return {| observe := warehouse_settling 20 "FAILED" (request "w" "SELECT 1");
                    seen := 20;
                    current := {| status := {| state := "FAILED"; error := Some "boom" |};
                                  result := None |} |},
          cycles 20) ∧
  seconds_slept (cycles 20) = 40 ∧
  poll_loop 19 (submitted_handle (warehouse_settling 20 "FAILED") (request "w" "SELECT 1")
                  running) Server.idle = None ∧
  poll_loop 2 (submitted_handle warehouse_queued (request "w" "SELECT 1")
                 {| status := {| state := "PENDING"; error := None |}; result := None |})
    Server.idle =
    Some (Return {| observe := warehouse_queued (request "w" "SELECT 1");
                    seen := 2;
                    current := {| status := {| state := "SUCCEEDED"; error := None |};
                                  result := None |} |},
          [Slept 2; Refreshed; Slept 2; Refreshed]).
Proof.
  split; [reflexivity|].
  destruct (poll_loop_ends_iff_settled
              (submitted_handle (warehouse_settling 20 "FAILED") (request "w" "SELECT 1")
                 running) Server.idle) as (_ & _ & _ & _ & Hexact).
  destruct (poll_loop_ends_iff_settled
              (submitted_handle warehouse_queued (request "w" "SELECT 1")
                 {| status := {| state := "PENDING"; error := None |}; result := None |})
              Server.idle) as (_ & _ & _ & _ & Hqueued).
  destruct (Hexact 20) as [Hsettled _].
  { intros j Hj. unfold submitted_handle. rewrite view_submitted by done.
    apply Nat.ltb_lt in Hj.
    eexists. split; [reflexivity|]. right. simpl. by rewrite Hj. }
  destruct (Hqueued 2) as [Hsucceeded _].
  { intros [|[|j]] Hj; [| |lia]; (eexists; split; [reflexivity|]); [by left|by right]. }
  destruct (Hsettled {| status := {| state := "FAILED"; error := Some "boom" |};
                        result := None |}) as [Hends Hshort];
    [reflexivity|by intros [H|H]|].
  destruct (Hsucceeded {| status := {| state := "SUCCEEDED"; error := None |};
                          result := None |}) as [Hends2 _];
    [reflexivity|by intros [H|H]|].
  split_and!; [apply (Hends 20); lia|reflexivity|apply (Hshort 19); lia|apply (Hends2 2); lia].
Defined.

(** C2.  When the polling of a statement ends on a state other than
    SUCCEEDED, the Poller raises an error built on the detail the engine
    reported, the tool raises it to its caller wrapped once more, and no
    rows are returned: when the engine reported the detail [d], the message
    the caller sees is [SQL query failed: Query failed: ] followed by [d],
    so it contains [d]; when it reported none, the word [None] stands in
    its place. *)
Theorem failed_statement_raises_detail (fuel : nat) (env : gmap string string)
    (ws : Workspace) (query : string) (w : Server.World) (id : string) (k : nat)
    (st : Statement) :
  getenv env "DATABRICKS_SQL_WAREHOUSE_ID" = Some id → id ≠ "" →
  (∀ j, j < k → waiting (ws (request id query) j)) →
  ws (request id query) k = Return st →
  state (status st) ≠ "PENDING" → state (status st) ≠ "RUNNING" →
  state (status st) ≠ "SUCCEEDED" →
  k ≤ fuel →
  (∀ d, error (status st) = Some d →
     (∀ st0, ws (request id query) 0 = Return st0 →
        poll_results fuel {| observe := ws (request id query); seen := 0; current := st0 |}
          (w ++ [Submitted (request id query)]) =
          Some (Raise (RuntimeError ("Query failed: " +:+ d)), polled id query k w)) ∧
     run_sql_query fuel env ws query w =
       Some (Raise (RuntimeError ("SQL query failed: Query failed: " +:+ d)),
             polled id query k w) ∧
     PyStr.str_in d ("SQL query failed: Query failed: " +:+ d) = true) ∧
  (error (status st) = None →
   run_sql_query fuel env ws query w =
     Some (Raise (RuntimeError "SQL query failed: Query failed: None"),
           polled id query k w)).
Proof.
  intros Henv Hid Hbusy Hst Hpending Hrunning Hstate Hfuel.
  assert (¬ pending_or_running st) as Hdone by (intros [?|?]; done).
  assert (∃ st0, ws (request id query) 0 = Return st0) as [st0 H0].
  { destruct k as [|k]; [by eauto|]. destruct (Hbusy 0 ltac:(lia)) as (st0 & ? & _). by eauto. }
  assert (∀ st1, ws (request id query) 0 = Return st1 →
            poll_results fuel {| observe := ws (request id query); seen := 0; current := st1 |}
              (w ++ [Submitted (request id query)]) =
              Some (Raise (RuntimeError
                             ("Query failed: " +:+ str_error (error (status st)))),
                    polled id query k w)) as Hpoll.
  { intros st1 H1. rewrite (poll_results_failed _ _ _ k st);
      [by rewrite elapsed_submitted| |by rewrite view_submitted|done..].
    intros j Hj. rewrite view_submitted by done. by apply Hbusy. }
  assert (run_sql_query fuel env ws query w =
            Some (Raise (RuntimeError
                           ("SQL query failed: Query failed: " +:+
                            str_error (error (status st)))),
                  polled id query k w)) as Hrun.
  { rewrite (run_sql_query_polls _ _ _ _ _ id st0) by done.
    unfold_binds. by rewrite (Hpoll st0 H0). }
  split.
  - intros d Hd. rewrite Hd in Hpoll, Hrun. split_and!; [done|done|apply str_in_app_r].
  - intros Hnone. by rewrite Hnone in Hrun.
Qed.

(** A statement that fails at its third refresh, with the detail [boom]. *)
Lemma failed_statement_raises_detail_witness :
  run_sql_query 5 env_warehouse (warehouse_settling 3 "FAILED") "SELECT 1" Server.idle =
    Some (Raise (RuntimeError "SQL query failed: Query failed: boom"),
          [Submitted (request "w" "SELECT 1");
           Slept 2; Refreshed; Slept 2; Refreshed; Slept 2; Refreshed]) ∧
  PyStr.str_in "boom" "SQL query failed: Query failed: boom" = true.
Proof.
  destruct (failed_statement_raises_detail 5 env_warehouse (warehouse_settling 3 "FAILED")
              "SELECT 1" Server.idle "w" 3
              {| status := {| state := "FAILED"; error := Some "boom" |}; result := None |})
    as [Hdetail _].
  - reflexivity.
  - done.
  - intros j Hj. apply Nat.ltb_lt in Hj.
    eexists. split; [reflexivity|]. right. simpl. by rewrite Hj.
  - reflexivity.
  - done.
  - done.
  - done.
  - lia.
  - destruct (Hdetail "boom" eq_refl) as (_ & Htool & Hin).
    split; [exact Htool|exact Hin].
Defined.

(** C3 (the code departs from the claim).  A statement that succeeded with
    one row and a schema without fields: the primary tool returns one empty
    mapping for the row, not an empty sequence, where the secondary
    translator returns the empty sequence for the same columns and rows. *)
Theorem empty_columns_primary_not_empty (fuel : nat) (query : string) :
  run_sql_query fuel env_warehouse warehouse_no_columns query Server.idle =
    Some (Return [[]], [Submitted (request "w" query)]) ∧
  primary [] [[Int 1]] = [[]] ∧
  secondary [] [[Int 1]] = [].
Proof.
  split_and!; [|done..].
  by erewrite (run_sql_query_succeeded _ _ _ _ _ "w" 0);
    [|by vm_compute|done|intros; lia|reflexivity|reflexivity|reflexivity|lia].
Qed.

(** C4, counterexample.  With the name [a] on two columns, the aligned row
    [1, 2] gets a mapping of one key from either translator; and with no
    column at all the secondary translator returns no mapping for a row. *)
Lemma one_mapping_per_row_counterexample :
  (aligned ["a"; "a"] [[Int 1; Int 2]] ∧
   ¬ one_mapping_per_row primary ["a"; "a"] [[Int 1; Int 2]] ∧
   ¬ one_mapping_per_row secondary ["a"; "a"] [[Int 1; Int 2]]) ∧
  (aligned [] [[]] ∧ ¬ one_mapping_per_row secondary [] [[]]).
Proof.
  split_and!.
  - by repeat constructor.
  - intros [_ Hkeys]. by apply Forall_cons_1 in Hkeys as [? _].
  - intros [_ Hkeys]. by apply Forall_cons_1 in Hkeys as [? _].
  - by repeat constructor.
  - by intros [? _].
Qed.

(** C4, as amended.  For column names that are pairwise distinct, at least
    one column, and rows that each have exactly as many cells as there are
    columns, both translators return one mapping per row, each with exactly
    as many keys as there are columns: the mapping of a row is the list of
    its (column name, cell) pairs in column order. *)
Theorem distinct_names_one_mapping_per_row (columns : list string) (rows : list row) :
  NoDup columns → columns ≠ [] → aligned columns rows →
  primary columns rows = zip columns <$> rows ∧
  secondary columns rows = zip columns <$> rows ∧
  one_mapping_per_row primary columns rows ∧
  one_mapping_per_row secondary columns rows ∧
  ∀ i r, rows !! i = Some r →
    ∃ m, primary columns rows !! i = Some m ∧
         secondary columns rows !! i = Some m ∧
         PyDict.keys m = columns ∧
         ∀ c k x, columns !! c = Some k → r !! c = Some x →
                  m !! c = Some (k, x) ∧ PyDict.get k m = Some x.
Proof.
  intros Hnd Hne Hal.
  assert (primary columns rows = zip columns <$> rows) as Hp.
  { by rewrite primary_zip, zip_rows_distinct. }
  assert (secondary columns rows = zip columns <$> rows) as Hs.
  { by rewrite secondary_zip, zip_rows_distinct. }
  assert (Forall (λ m : row_mapping, PyDict.len m = length columns) (zip columns <$> rows))
    as Hlen.
  { apply Forall_fmap. eapply Forall_impl; [exact Hal|].
    intros r Hr. simpl in *. unfold PyDict.len. rewrite length_zip. lia. }
  split_and!; [done|done| | |].
  - unfold one_mapping_per_row. rewrite Hp. by rewrite length_fmap.
  - unfold one_mapping_per_row. rewrite Hs. by rewrite length_fmap.
  - intros i r Hr. exists (zip columns r). rewrite Hp, Hs.
    rewrite list_lookup_fmap, Hr. split_and!; [done|done| |].
    + unfold PyDict.keys. fold (@fmap list _ _ _ (@fst string cell) (zip columns r)).
      apply fst_zip. by rewrite (Forall_lookup_1 _ _ _ _ Hal Hr).
    + intros c k x Hc Hx. split; [by apply lookup_zip_Some|].
      rewrite <- (of_pairs_distinct (zip columns r)) by by apply NoDup_fst_zip.
      apply (get_zip_last _ _ c); [done..|].
      intros c' Hc' Hk. assert (c = c'); [|lia]. by eapply NoDup_lookup.
Qed.

(** Two rows under the columns [id] and [name]. *)
Lemma distinct_names_one_mapping_per_row_witness :
  (NoDup ["id"; "name"] ∧ ["id"; "name"] ≠ [] ∧
   aligned ["id"; "name"] [[Int 1; Text "a"]; [Int 2; Null]]) ∧
  primary ["id"; "name"] [[Int 1; Text "a"]; [Int 2; Null]] =
    [[("id", Int 1); ("name", Text "a")]; [("id", Int 2); ("name", Null)]] ∧
  secondary ["id"; "name"] [[Int 1; Text "a"]; [Int 2; Null]] =
    [[("id", Int 1); ("name", Text "a")]; [("id", Int 2); ("name", Null)]].
Proof.
  assert (NoDup ["id"; "name"]) as Hnd.
  { apply NoDup_cons_2; [|apply NoDup_singleton].
    intros Hin%list_elem_of_singleton. discriminate Hin. }
  assert (aligned ["id"; "name"] [[Int 1; Text "a"]; [Int 2; Null]]) as Hal
    by by repeat constructor.
  split; [done|].
  destruct (distinct_names_one_mapping_per_row ["id"; "name"]
              [[Int 1; Text "a"]; [Int 2; Null]] Hnd ltac:(done) Hal) as (-> & -> & _).
  by split.
Defined.

(** C5 (the code departs from the claim).  On the input of the claim the
    vehicle is [truck] and the distance 12.0, but the rate pattern, whose
    slash is optional, finds its first match in [12 mile] of [12 miles]: the
    tool is called with the rate 12.0, not the 0.30 that [float] reads in
    the text [0.30]. *)
Theorem toll_rate_taken_from_distance (env : gmap string string) (gw : Gateway)
    (srv : ToolServer) :
  Re.search false "\$?(\d+\.?\d*)\s*/?\s*mile"
    (normalized "Calculate toll for truck, 12 miles, $0.30/mile") = Some "12" ∧
  snd <$> process_command env gw srv "Calculate toll for truck, 12 miles, $0.30/mile"
            Client.idle =
    Some (called "calculate_toll" (toll_arguments "truck" 12 12) Client.idle) ∧
  PyFloat.float_of_str "0.30" = Some 0.3%float ∧
  (12 =? 0.3)%float = false.
Proof.
  split_and!; [by vm_compute| |by vm_compute..].
  vm_compute. by destruct (srv _ _).
Qed.

(** C6 (the code departs from the claim).  With every variable set and a
    driver that connects, a query whose execution raises leaves the
    connection open when the tool raises: the cursor is released, the
    connection is still held.  Only a query that succeeds is followed by the
    release of the connection. *)
Theorem failed_query_leaves_connection_open (e : exn) (query : string) :
  Snowflake.run_snowflake_query env_snowflake (driver_failing e) query Snowflake.idle =
    Some (Raise (RuntimeError ("Snowflake query failed: " +:+ str_exn e)),
          {| Snowflake.connection := Snowflake.Held;
             Snowflake.cursor := Snowflake.Released;
             Snowflake.executed := [query] |}) ∧
  Snowflake.run_snowflake_query env_snowflake driver_ok query Snowflake.idle =
    Some (Return [[("N", Int 1)]],
          {| Snowflake.connection := Snowflake.Released;
             Snowflake.cursor := Snowflake.Released;
             Snowflake.executed := [query] |}).
Proof. split; by vm_compute. Qed.

(** C7, counterexample.  With only the account variable missing, the
    secondary tool fails before it connects, and its message does not name
    the variable. *)
Lemma snowflake_message_names_no_variable :
  getenv env_without_account "SNOWFLAKE_ACCOUNT" = None ∧
  ∃ msg,
    Snowflake.run_snowflake_query env_without_account driver_ok "SELECT 1" Snowflake.idle =
      Some (Raise (RuntimeError msg), Snowflake.idle) ∧
    PyStr.str_in "SNOWFLAKE_ACCOUNT" msg = false.
Proof. split; [by vm_compute|]. eexists. split; by vm_compute. Qed.

(** C7, as amended.  With the warehouse id unset or empty the primary tool
    raises at once, nothing submitted, an error whose message names the
    variable.  With any of the six Snowflake variables unset or empty the
    secondary tool raises at once, nothing connected or executed, an error
    with one fixed message, which names none of the six. *)
Theorem missing_variable_fails_fast (env : gmap string string) :
  (∀ fuel ws query w,
     PyStr.truthy (getenv env "DATABRICKS_SQL_WAREHOUSE_ID") = false →
     run_sql_query fuel env ws query w =
       Some (Raise (RuntimeError "SQL query failed: DATABRICKS_SQL_WAREHOUSE_ID not set"), w)) ∧
  PyStr.str_in "DATABRICKS_SQL_WAREHOUSE_ID"
    "SQL query failed: DATABRICKS_SQL_WAREHOUSE_ID not set" = true ∧
  (∀ var drv query w,
     var ∈ Snowflake.required → PyStr.truthy (getenv env var) = false →
     Snowflake.run_snowflake_query env drv query w =
       Some (Raise (RuntimeError
               "Snowflake query failed: Missing one or more Snowflake environment variables."),
             w)) ∧
  (∀ var, var ∈ Snowflake.required →
     PyStr.str_in var
       "Snowflake query failed: Missing one or more Snowflake environment variables." = false).
Proof.
  split_and!.
  - intros fuel ws query w Hmiss. unfold run_sql_query.
    destruct (getenv env "DATABRICKS_SQL_WAREHOUSE_ID") as [[|c id]|]; done.
  - reflexivity.
  - intros var drv query w Hvar Hmiss. unfold Snowflake.run_snowflake_query.
    unfold try_except. by rewrite (all_missing env var).
  - unfold Snowflake.required. intros var. rewrite !elem_of_cons, elem_of_nil.
    intros Hvar. repeat (destruct Hvar as [->|Hvar]; [by vm_compute|]). done.
Qed.

(** An environment with neither the warehouse id nor the account. *)
Lemma missing_variable_fails_fast_witness :
  run_sql_query 0 env_without_account (warehouse_settling 3 "FAILED") "SELECT 1" Server.idle =
    Some (Raise (RuntimeError "SQL query failed: DATABRICKS_SQL_WAREHOUSE_ID not set"),
          Server.idle) ∧
  Snowflake.run_snowflake_query env_without_account driver_ok "SELECT 1" Snowflake.idle =
    Some (Raise (RuntimeError
            "Snowflake query failed: Missing one or more Snowflake environment variables."),
          Snowflake.idle).
Proof.
  destruct (missing_variable_fails_fast env_without_account) as (Hprimary & _ & Hsecondary & _).
  split.
  - apply Hprimary. reflexivity.
  - apply (Hsecondary "SNOWFLAKE_ACCOUNT"); [|reflexivity].
    unfold Snowflake.required. apply list_elem_of_here.
Defined.

(** C8.  [calculate_toll] returns the product of the distance, the rate and
    the multiplier, rounded to two decimals, where the multiplier is 1.0 for
    car, 1.5 for truck and 0.8 for motorcycle, whatever the case of the
    letters, and 1.0 for any other vehicle type.  Rounded to two decimals
    means: a product that is not a finite number, and one that is an
    integer, is returned as it is; any other product, which is exactly
    [m * 2 ^ e] for some [e < 0], becomes the double nearest to [n]
    hundredths, with the sign of the product, where [n] is the whole number
    of hundredths nearest to the product, the even one when two are equally
    near.  The three sample calls give 2.5, 3.75 and 2.5; and on products
    that are not a whole number of hundredths, 2.675 gives 2.67, the ties
    0.125 and 0.375 give 0.12 and 0.38, 7.3 by 0.33 for a truck gives 3.61,
    12 by 0.30 for a truck gives 5.4, 33.333 by 0.2 for a motorcycle gives
    5.33 and 0.001 gives 0. *)
Theorem calculate_toll_rounds_product (vehicle_type : string) (distance toll_rate : float) :
  calculate_toll vehicle_type distance toll_rate =
    PyFloat.round (distance * toll_rate * spec_multiplier vehicle_type)%float 2 ∧
  ((∀ s m e, Prim2SF (distance * toll_rate * spec_multiplier vehicle_type)%float ≠
               S754_finite s m e) →
   calculate_toll vehicle_type distance toll_rate =
     (distance * toll_rate * spec_multiplier vehicle_type)%float) ∧
  (∀ s m e,
     Prim2SF (distance * toll_rate * spec_multiplier vehicle_type)%float =
       S754_finite s m e →
     ((0 <= e)%Z →
      calculate_toll vehicle_type distance toll_rate =
        (distance * toll_rate * spec_multiplier vehicle_type)%float) ∧
     ((e < 0)%Z →
      ∃ n, (0 <= n)%Z ∧ nearest_hundredth m e n ∧
           calculate_toll vehicle_type distance toll_rate = hundredths s n)) ∧
  ((calculate_toll "car" 10 0.25 =? 2.5)%float = true ∧
   (calculate_toll "TRUCK" 10 0.25 =? 3.75)%float = true ∧
   (calculate_toll "bicycle" 10 0.25 =? 2.5)%float = true) ∧
  ((calculate_toll "car" 2.675 1 =? 2.67)%float = true ∧
   (calculate_toll "car" 1 0.125 =? 0.12)%float = true ∧
   (calculate_toll "car" 1 0.375 =? 0.38)%float = true ∧
   (calculate_toll "truck" 7.3 0.33 =? 3.61)%float = true ∧
   (calculate_toll "truck" 12 0.30 =? 5.4)%float = true ∧
   (calculate_toll "Motorcycle" 33.333 0.2 =? 5.33)%float = true ∧
   (calculate_toll "car" 0.001 1 =? 0)%float = true).
Proof.
  assert (calculate_toll vehicle_type distance toll_rate =
            PyFloat.round (distance * toll_rate * spec_multiplier vehicle_type)%float 2)
    as Hround.
  { unfold calculate_toll, spec_multiplier. by rewrite rates_get. }
  split_and!; [done| | |by vm_compute..].
  - intros Hx. rewrite Hround. by apply round_not_finite.
  - intros s m e Hx. rewrite Hround. by apply round_hundredths.
Qed.

(** C9, counterexample.  Two inputs of the direct SQL rule on which the
    query is not the trimmed text that follows the trigger: text that
    follows it without a blank is answered with the missing-query message
    and no tool call, and of a text of two lines only the first is sent. *)
Lemma direct_sql_counterexample :
  (PyStr.str_in "secret word" (normalized "Run SQL queryx") = false ∧
   PyStr.str_in "calculate toll" (normalized "Run SQL queryx") = false ∧
   PyStr.str_in "run sql query" (normalized "Run SQL queryx") = true ∧
   spec_direct_sql (normalized "Run SQL queryx") = Some "x" ∧
   process_command env_gateway gateway_select server_two_rows "Run SQL queryx" Client.idle =
     Some (Return (Message missing_query), Client.idle)) ∧
  (spec_direct_sql (normalized ("Run SQL query SELECT 1" +:+ nl +:+ "FROM t")) =
     Some ("select 1" +:+ nl +:+ "from t") ∧
   snd <$> process_command env_gateway gateway_select server_two_rows
             ("Run SQL query SELECT 1" +:+ nl +:+ "FROM t") Client.idle =
     Some (called "run_sql_query" (query_arguments "select 1") Client.idle)).
Proof. split_and!; by vm_compute. Qed.

(** C9, as amended.  The four rules are tested in order on the input in
    lower case and trimmed, and the first that matches wins.  (1) An input
    that contains [secret word] calls the secret-word tool, whatever else it
    contains.  (2) Otherwise one that contains [calculate toll] calls the
    toll tool, with the vehicle, distance and rate its three patterns
    extract, each with its default.  (3) Otherwise one that contains
    [run sql query] is taken by the direct SQL rule, whatever follows: when
    some occurrence of the trigger is followed by a blank, the SQL tool is
    called with the first line of what follows the leftmost such
    occurrence, leading blanks and line breaks skipped, trimmed; when none
    is, in particular when nothing follows the trigger, the reply is the
    missing-query message and no tool is called.  (4) An input that
    contains none of the three triggers goes to the translator; an error of
    the translator is the outcome, and otherwise the text it returns is
    noted in the transcript as the generated SQL and the SQL tool is called
    with it. *)
Theorem rules_tested_in_order (env : gmap string string) (gw : Gateway)
    (srv : ToolServer) (input : string) (w : Client.World) :
  (PyStr.str_in "secret word" (normalized input) = true →
   process_command env gw srv input w =
     Some (answered Result (srv "secret_word" []), called "secret_word" [] w)) ∧
  (PyStr.str_in "secret word" (normalized input) = false →
   PyStr.str_in "calculate toll" (normalized input) = true →
   ∃ distance toll_rate,
     extracted "(\d+\.?\d*)\s+miles" (normalized input) 10.0 distance ∧
     extracted "\$?(\d+\.?\d*)\s*/?\s*mile" (normalized input) 0.25 toll_rate ∧
     process_command env gw srv input w =
       Some (answered Result
               (srv "calculate_toll"
                  (toll_arguments
                     (default "car" (Re.search false "for\s+(\w+)" (normalized input)))
                     distance toll_rate)),
             called "calculate_toll"
               (toll_arguments
                  (default "car" (Re.search false "for\s+(\w+)" (normalized input)))
                  distance toll_rate) w)) ∧
  (PyStr.str_in "secret word" (normalized input) = false →
   PyStr.str_in "calculate toll" (normalized input) = false →
   ∀ after, PyStr.after_first "run sql query" (normalized input) = Some after →
     (after = "" →
      process_command env gw srv input w = Some (Return (Message missing_query), w)) ∧
     (∀ c rest, after = String c rest → PyStr.isspace c = true →
        process_command env gw srv input w =
          Some (answered render
                  (srv "run_sql_query"
                     (query_arguments (PyStr.strip (first_line (PyStr.lstrip after))))),
                called "run_sql_query"
                  (query_arguments (PyStr.strip (first_line (PyStr.lstrip after)))) w))) ∧
  (PyStr.str_in "secret word" (normalized input) = false →
   PyStr.str_in "calculate toll" (normalized input) = false →
   PyStr.str_in "run sql query" (normalized input) = true →
   process_command env gw srv input w =
     match after_first_followed "run sql query" (normalized input) with
     | Some after =>
         Some (answered render
                 (srv "run_sql_query"
                    (query_arguments (PyStr.strip (first_line (PyStr.lstrip after))))),
               called "run_sql_query"
                 (query_arguments (PyStr.strip (first_line (PyStr.lstrip after)))) w)
     | None => Some (Return (Message missing_query), w)
     end) ∧
  (PyStr.str_in "secret word" (normalized input) = false →
   PyStr.str_in "calculate toll" (normalized input) = false →
   PyStr.str_in "run sql query" (normalized input) = false →
   (∀ e w1, generate_sql_query env gw (normalized input) w = Some (Raise e, w1) →
      process_command env gw srv input w = Some (Raise e, w1)) ∧
   (∀ sql w1, generate_sql_query env gw (normalized input) w = Some (Return sql, w1) →
      process_command env gw srv input w =
        Some (answered render (srv "run_sql_query" (query_arguments sql)),
              called "run_sql_query" (query_arguments sql)
                (noted ("Generated SQL: " +:+ sql) w1)))).
Proof.
  split_and!.
  - apply rule_secret_word.
  - apply rule_calculate_toll.
  - intros H1 H2 after. by apply rule_direct_sql.
  - intros H1 H2 H3. rewrite rule_direct_sql_total by done. unfold amended_direct_sql.
    by destruct (after_first_followed _ _).
  - apply rule_translate.
Qed.

(** One input for rule 1 that also carries the triggers of rules 2 and 3,
    four for rule 3 (a query after blanks; nothing after the trigger; text
    that follows the trigger without a blank; the same with a second
    trigger which a blank follows), one for rule 4. *)
Lemma rules_tested_in_order_witness :
  process_command env_gateway gateway_select server_two_rows
    "Calculate toll and run SQL query for the secret word" Client.idle =
    Some (Return (Result ["r1"; "r2"]), called "secret_word" [] Client.idle) ∧
  process_command env_gateway gateway_select server_two_rows
    "Run SQL query   SELECT 1  " Client.idle =
    Some (Return (Message ("r1" +:+ nl +:+ "r2")),
          called "run_sql_query" (query_arguments "select 1") Client.idle) ∧
  process_command env_gateway gateway_select server_two_rows
    "Run SQL query" Client.idle =
    Some (Return (Message missing_query), Client.idle) ∧
  process_command env_gateway gateway_select server_two_rows
    "Run SQL queryx" Client.idle =
    Some (Return (Message missing_query), Client.idle) ∧
  process_command env_gateway gateway_select server_two_rows
    "Run SQL queryx run sql query SELECT 1" Client.idle =
    Some (Return (Message ("r1" +:+ nl +:+ "r2")),
          called "run_sql_query" (query_arguments "select 1") Client.idle) ∧
  process_command env_gateway gateway_select server_two_rows
    "Show all customers" Client.idle =
    Some (Return (Message ("r1" +:+ nl +:+ "r2")),
          called "run_sql_query" (query_arguments "SELECT 1")
            (noted "Generated SQL: SELECT 1"
               (posted (gateway_request env_gateway "http://gateway" "m" "show all customers")
                  Client.idle))).
Proof.
  split_and!.
  - destruct (rules_tested_in_order env_gateway gateway_select server_two_rows
                "Calculate toll and run SQL query for the secret word" Client.idle)
      as (H & _).
    apply H. reflexivity.
  - destruct (rules_tested_in_order env_gateway gateway_select server_two_rows
                "Run SQL query   SELECT 1  " Client.idle) as (_ & _ & H & _).
    destruct (H eq_refl eq_refl "   select 1" eq_refl) as [_ Hcall].
    apply (Hcall " "%char "  select 1"); reflexivity.
  - destruct (rules_tested_in_order env_gateway gateway_select server_two_rows
                "Run SQL query" Client.idle) as (_ & _ & H & _).
    destruct (H eq_refl eq_refl "" eq_refl) as [Hreply _].
    apply Hreply. reflexivity.
  - destruct (rules_tested_in_order env_gateway gateway_select server_two_rows
                "Run SQL queryx" Client.idle) as (_ & _ & _ & H & _).
    rewrite (H eq_refl eq_refl eq_refl). reflexivity.
  - destruct (rules_tested_in_order env_gateway gateway_select server_two_rows
                "Run SQL queryx run sql query SELECT 1" Client.idle) as (_ & _ & _ & H & _).
    rewrite (H eq_refl eq_refl eq_refl). reflexivity.
  - destruct (rules_tested_in_order env_gateway gateway_select server_two_rows
                "Show all customers" Client.idle) as (_ & _ & _ & _ & H).
    destruct (H eq_refl eq_refl eq_refl) as [_ Hsql].
    apply (Hsql "SELECT 1"). reflexivity.
Defined.

(** C10.  When two columns share a name, both translators still return one
    mapping per row, but each mapping has fewer keys than there are columns,
    and under a name it keeps the cell of the last column that bears it. *)
Theorem duplicate_names_keep_last_cell (columns : list string) (rows : list row) :
  ¬ NoDup columns →
  primary columns rows = zip_rows columns rows ∧
  secondary columns rows = zip_rows columns rows ∧
  length (zip_rows columns rows) = length rows ∧
  ∀ i r, rows !! i = Some r →
    ∃ m, zip_rows columns rows !! i = Some m ∧
         PyDict.len m < length columns ∧
         ∀ c k x, columns !! c = Some k → r !! c = Some x →
                  (∀ c', c < c' → columns !! c' ≠ Some k) →
                  PyDict.get k m = Some x.
Proof.
  intros Hdup. split_and!.
  - apply primary_zip.
  - apply secondary_zip. intros ->. apply Hdup. constructor.
  - apply length_zip_rows.
  - intros i r Hr. exists (PyDict.of_pairs (zip columns r)). split_and!.
    + by rewrite zip_rows_lookup, Hr.
    + by apply len_zip_dup.
    + intros c k x. apply get_zip_last.
Qed.

(** A row under the columns [id], [name], [id]. *)
Lemma duplicate_names_keep_last_cell_witness :
  ¬ NoDup ["id"; "name"; "id"] ∧
  primary ["id"; "name"; "id"] [[Int 1; Text "a"; Int 7]] =
    [[("id", Int 7); ("name", Text "a")]] ∧
  secondary ["id"; "name"; "id"] [[Int 1; Text "a"; Int 7]] =
    [[("id", Int 7); ("name", Text "a")]].
Proof.
  assert (¬ NoDup ["id"; "name"; "id"]) as Hdup.
  { intros [Hfresh _]%NoDup_cons. apply Hfresh.
    apply list_elem_of_further, list_elem_of_here. }
  split; [done|].
  destruct (duplicate_names_keep_last_cell ["id"; "name"; "id"] [[Int 1; Text "a"; Int 7]] Hdup)
    as (-> & -> & _).
  by split.
Defined.

End Claims.


(** * Further properties of the code *)

(** ** More on strings and patterns *)

Module StripFacts.

Import PyStr PyStrFacts Spec2.

Lemma rstrip_head s c r : rstrip s = String c r → ∃ s', s = String c s'.
Proof.
  destruct s as [|c0 s]; [done|]. simpl.
  destruct (rstrip s); [destruct (isspace c0)|]; intros [= <- _]; by eauto.
Qed.

Lemma lstrip_id s : halts isspace s = true → lstrip s = s.
Proof. destruct s as [|c s]; [done|]. simpl. by intros ->%negb_true_iff. Qed.

Lemma lstrip_halts s : halts isspace (lstrip s) = true.
Proof.
  destruct (lstrip s) as [|c r] eqn:E; [done|]. simpl.
  by rewrite (lstrip_head _ _ _ E).
Qed.

Lemma rstrip_halts s : halts isspace s = true → halts isspace (rstrip s) = true.
Proof.
  intros Hs. destruct (rstrip s) as [|c r] eqn:E; [done|].
  apply rstrip_head in E as (s' & ->). done.
Qed.

(** A trimmed text has no blank at either end: trimming it again changes
    nothing. *)
Lemma strip_trimmed s : lstrip (strip s) = strip s ∧ rstrip (strip s) = strip s.
Proof.
  split; [|apply rstrip_strip].
  apply lstrip_id, rstrip_halts, lstrip_halts.
Qed.

Lemma strip_idem s : strip (strip s) = strip s.
Proof.
  unfold strip at 1. destruct (strip_trimmed s) as [-> ->]. done.
Qed.

End StripFacts.

Module CaptureFacts.

Import PyStr PyStrFacts Re ReFacts Spec2.

(** *** What a capture is made of *)

Lemma all_push p c ch :
  all p (group1 c) = true → p ch = true → all p (group1 (push c ch)) = true.
Proof.
  destruct c as [|t|t]; simpl; [done| |done].
  intros Ht Hch. rewrite all_app, Ht. simpl. by rewrite Hch.
Qed.

Lemma all_pushes p t : ∀ c,
  all p (group1 c) = true → all p t = true → all p (group1 (pushes c t)) = true.
Proof.
  induction t as [|ch t IH]; intros c Hc; [done|]. simpl.
  intros [Hch Ht]%andb_prop. apply IH; [by apply all_push|done].
Qed.

Lemma group1_close c : group1 (close c) = group1 c.
Proof. by destruct c. Qed.

(** A match on a text made of characters of one class captures a text of
    that class. *)
Lemma match_here_all p r : ∀ c s c',
  match_here r c s = Some c' →
  all p s = true → all p (group1 c) = true → all p (group1 c') = true.
Proof.
  induction r as [|[a q| |] r IH]; intros c s c'.
  - by intros [= <-].
  - destruct q.
    + intros (ch & s' & -> & _ & H)%one_inv [Hch Hs]%andb_prop Hc.
      eapply IH; [done..|]. by apply all_push.
    + intros [(ch & s' & -> & _ & H)|H]%opt_inv Hs Hc; [|by eapply IH].
      apply andb_prop in Hs as [Hch Hs].
      eapply IH; [done..|]. by apply all_push.
    + intros (t & s' & -> & _ & H)%star_inv Hs Hc.
      rewrite all_app in Hs. apply andb_prop in Hs as [Ht Hs].
      eapply IH; [done..|]. by apply all_pushes.
    + intros (ch & t & s' & -> & _ & _ & H)%plus_inv Hs Hc.
      simpl in Hs. rewrite all_app in Hs.
      apply andb_prop in Hs as [Hch [Ht Hs]%andb_prop].
      eapply IH; [done..|]. apply all_pushes; [done|]. simpl. by rewrite Hch.
  - rewrite match_here_open. intros H Hs _. by eapply IH.
  - rewrite match_here_close. intros H Hs Hc. eapply IH; [done..|].
    by rewrite group1_close.
Qed.

Lemma search_from_all p r s c' :
  search_from r s = Some c' → all p s = true → all p (group1 c') = true.
Proof.
  induction s as [|ch s IH]; cbn [search_from].
  - intros [H|H]%orelse_Some; [|done]. intros Hs. by eapply match_here_all.
  - intros [H|H]%orelse_Some Hs; [by eapply match_here_all|].
    simpl in Hs. apply andb_prop in Hs as [_ Hs]. by apply IH.
Qed.

Lemma search_all p icase pattern s t :
  search icase pattern s = Some t → all p s = true → all p t = true.
Proof.
  unfold search. destruct (compile icase pattern) as [r|]; [|done].
  destruct (search_from r s) as [c'|] eqn:E; [|done].
  intros [= <-] Hs. by eapply search_from_all.
Qed.

(** *** The greedy path *)

Lemma star_halt p r c s :
  halts p s = true → match_here (Atom p Star :: r) c s = match_here r c s.
Proof.
  rewrite match_here_star. destruct s as [|ch s]; [done|]. simpl.
  by intros ->%negb_true_iff.
Qed.

Lemma star_run p r t : ∀ c s x,
  all p t = true →
  match_here (Atom p Star :: r) (pushes c t) s = Some x →
  match_here (Atom p Star :: r) c (t +:+ s) = Some x.
Proof.
  induction t as [|ch t IH]; intros c s x; [done|].
  cbn [all pushes]. intros [Hch Ht]%andb_prop H.
  rewrite app_cons, match_here_star, Hch. by rewrite (IH _ _ x).
Qed.

(** A run of the class that ends where the class ends is taken whole when
    what follows it matches. *)
Lemma star_greedy p r t c s x :
  all p t = true → halts p s = true →
  match_here r (pushes c t) s = Some x →
  match_here (Atom p Star :: r) c (t +:+ s) = Some x.
Proof.
  intros Ht Hs H. apply star_run; [done|]. by rewrite star_halt.
Qed.

Lemma plus_greedy p r ch t c s x :
  p ch = true → all p t = true → halts p s = true →
  match_here r (pushes c (String ch t)) s = Some x →
  match_here (Atom p Plus :: r) c (String ch t +:+ s) = Some x.
Proof.
  intros Hch Ht Hs H. rewrite app_cons, match_here_plus, Hch.
  by apply star_greedy.
Qed.

Lemma opt_halt p r c s :
  halts p s = true → match_here (Atom p Opt :: r) c s = match_here r c s.
Proof.
  rewrite match_here_opt. destruct s as [|ch s]; [done|]. simpl.
  by intros ->%negb_true_iff.
Qed.

Lemma opt_take p r c ch s x :
  p ch = true → match_here r (push c ch) s = Some x →
  match_here (Atom p Opt :: r) c (String ch s) = Some x.
Proof. intros Hch H. rewrite match_here_opt, Hch. by rewrite H. Qed.

Lemma plus_halt p r c s : halts p s = true → match_here (Atom p Plus :: r) c s = None.
Proof.
  rewrite match_here_plus. destruct s as [|ch s]; [done|]. simpl.
  by intros ->%negb_true_iff.
Qed.

(** Literal text, letter for letter. *)
Lemma literals_match t : ∀ r c s,
  match_here (literals false t ++ r) c (t +:+ s) = match_here r (pushes c t) s.
Proof.
  induction t as [|x t IH]; intros r c s; [done|].
  cbn [literals app]. rewrite app_cons, match_here_one.
  unfold literal at 1. rewrite Ascii.eqb_refl. apply IH.
Qed.

Lemma literals_inv t : ∀ r c s c',
  match_here (literals false t ++ r) c s = Some c' →
  ∃ s', s = t +:+ s' ∧ match_here r (pushes c t) s' = Some c'.
Proof.
  induction t as [|x t IH]; intros r c s c'.
  - intros H. by exists s.
  - cbn [literals app]. intros (ch & s0 & -> & Hch & H)%one_inv.
    apply Ascii.eqb_eq in Hch as <-.
    apply IH in H as (s' & -> & H). by exists s'.
Qed.

(** *** Where a search finds its match *)

Lemma search_from_suffix r s c' :
  search_from r s = Some c' →
  ∃ pre s0, s = pre +:+ s0 ∧ match_here r Unset s0 = Some c'.
Proof.
  induction s as [|ch s IH]; cbn [search_from].
  - intros [H|H]%orelse_Some; [|done]. by exists "", "".
  - intros [H|H]%orelse_Some; [by exists "", (String ch s)|].
    apply IH in H as (pre & s0 & -> & H). by exists (String ch pre), s0.
Qed.

Lemma search_from_found r pre : ∀ s0,
  is_Some (match_here r Unset s0) → is_Some (search_from r (pre +:+ s0)).
Proof.
  induction pre as [|ch pre IH]; intros s0 [x Hx].
  - rewrite app_nil_l. destruct s0; cbn [search_from]; by rewrite Hx.
  - rewrite app_cons. cbn [search_from].
    destruct (match_here r Unset (String ch (pre +:+ s0))); [done|].
    apply IH. by eauto.
Qed.

End CaptureFacts.

Module TollFacts.

Import PyStr PyStrFacts Re ReFacts PatternFacts CaptureFacts Spec2.

(** What follows the number in the rate pattern, and in the distance
    pattern. *)
Lemma compile_rate_pattern :
  compile false rate_pattern =
    Some (Atom (Ascii.eqb "$") Opt ::
          number_group ++ Atom isspace Star :: Atom (Ascii.eqb "/") Opt ::
                          Atom isspace Star :: literals false "mile").
Proof. reflexivity. Qed.

Lemma compile_distance_pattern :
  compile false distance_pattern =
    Some (number_group ++ Atom isspace Plus :: literals false "miles").
Proof. reflexivity. Qed.

Lemma compile_vehicle_pattern :
  compile false vehicle_pattern =
    Some (literals false "for" ++
          [Atom isspace Plus; GroupOpen; Atom isword Plus; GroupClose]).
Proof. reflexivity. Qed.

Lemma isspace_not_digit c : isspace c = true → isdigit c = false.
Proof. by destruct c as [[] [] [] [] [] [] [] []]. Qed.

Lemma isspace_not_dot c : isspace c = true → Ascii.eqb "." c = false.
Proof. by destruct c as [[] [] [] [] [] [] [] []]. Qed.

Lemma isdigit_not_dollar c : isdigit c = true → Ascii.eqb "$" c = false.
Proof. by destruct c as [[] [] [] [] [] [] [] []]. Qed.

(** The number group takes a decimal whole when neither a digit nor a dot
    follows it. *)
Lemma number_group_greedy r c0 t s x :
  decimal t → halts isdigit s = true → halts (Ascii.eqb ".") s = true →
  match_here r (Closed t) s = Some x →
  match_here (number_group ++ r) c0 (t +:+ s) = Some x.
Proof.
  intros (a & b & d & -> & Ha0 & Ha & Hb & Hd) Hs Hdot H.
  destruct a as [|ch a]; [done|]. cbn [all] in Ha.
  apply andb_prop in Ha as [Hch Ha].
  unfold number_group. cbn [app]. rewrite match_here_open.
  destruct Hb as [-> | ->].
  - rewrite app_nil_l in *. rewrite (app_cons ch a d) in *.
    apply plus_greedy; [done|by rewrite all_app, Ha, Hd|done|].
    rewrite pushes_open, app_nil_l, opt_halt, star_halt, match_here_close by done.
    done.
  - rewrite app_assoc. apply plus_greedy; [done|done|reflexivity|].
    rewrite pushes_open, app_nil_l, app_assoc, app_cons, app_nil_l.
    apply opt_take; [done|]. cbn [push].
    apply star_greedy; [done..|].
    rewrite pushes_open, match_here_close. cbn [close].
    by rewrite app_assoc.
Qed.

Lemma number_group_halt r c0 s :
  halts isdigit s = true → match_here (number_group ++ r) c0 s = None.
Proof.
  intros Hs. unfold number_group. cbn [app].
  by rewrite match_here_open, plus_halt.
Qed.

Lemma blank_halts p ws s :
  (∀ c, isspace c = true → p c = false) →
  all isspace ws = true → ws ≠ "" → halts p (ws +:+ s) = true.
Proof.
  intros Hp Hws Hne. destruct ws as [|w ws]; [done|].
  cbn [all] in Hws. apply andb_prop in Hws as [Hw _].
  rewrite app_cons. simpl. by rewrite Hp.
Qed.

(** A decimal followed by blanks and [miles]: the distance pattern matches
    there and captures the decimal... *)
Lemma distance_here c0 t ws rest :
  decimal t → all isspace ws = true → ws ≠ "" →
  match_here (number_group ++ Atom isspace Plus :: literals false "miles") c0
    (t +:+ ws +:+ "miles" +:+ rest) = Some (Closed t).
Proof.
  intros Ht Hws Hne.
  apply number_group_greedy;
    [done|by apply blank_halts; [apply isspace_not_digit|..]
         |by apply blank_halts; [apply isspace_not_dot|..]|].
  destruct ws as [|w ws]; [done|]. cbn [all] in Hws.
  apply andb_prop in Hws as [Hw Hws].
  apply plus_greedy; [done..|].
  rewrite pushes_settled by done.
  change (literals false "miles") with (literals false "miles" ++ []).
  by rewrite literals_match, pushes_settled.
Qed.

(** ... and so does what follows the optional dollar in the rate
    pattern. *)
Lemma rate_here c0 t ws rest :
  decimal t → all isspace ws = true → ws ≠ "" →
  match_here
    (number_group ++ Atom isspace Star :: Atom (Ascii.eqb "/") Opt ::
                     Atom isspace Star :: literals false "mile") c0
    (t +:+ ws +:+ "miles" +:+ rest) = Some (Closed t).
Proof.
  intros Ht Hws Hne.
  apply number_group_greedy;
    [done|by apply blank_halts; [apply isspace_not_digit|..]
         |by apply blank_halts; [apply isspace_not_dot|..]|].
  apply star_greedy; [done..|].
  rewrite pushes_settled by done.
  rewrite opt_halt, star_halt by done.
  change ("miles" +:+ rest) with ("mile" +:+ String "s" rest).
  change (literals false "mile") with (literals false "mile" ++ []).
  by rewrite literals_match, pushes_settled.
Qed.

Lemma decimal_head t : decimal t → ∃ ch t', t = String ch t' ∧ isdigit ch = true.
Proof.
  intros (a & b & d & -> & Ha0 & Ha & _). destruct a as [|ch a]; [done|].
  cbn [all] in Ha. apply andb_prop in Ha as [Hch _].
  exists ch, (a +:+ b +:+ d). by rewrite app_cons.
Qed.

(** *** Searching past text without digits *)

Lemma search_from_nil r : search_from r "" = match_here r Unset "".
Proof. cbn [search_from]. by destruct (match_here r Unset ""). Qed.

Lemma search_from_here r s x : match_here r Unset s = Some x → search_from r s = Some x.
Proof. intros H. destruct s; cbn [search_from]; by rewrite H. Qed.

Lemma search_from_number r pre : ∀ s0 x,
  no_digit pre = true →
  match_here (number_group ++ r) Unset s0 = Some x →
  search_from (number_group ++ r) (pre +:+ s0) = Some x.
Proof.
  induction pre as [|ch pre IH]; intros s0 x Hpre H.
  - rewrite app_nil_l. by apply search_from_here.
  - cbn [no_digit all] in Hpre. apply andb_prop in Hpre as [Hch Hpre].
    rewrite app_cons. cbn [search_from].
    rewrite number_group_halt by done. cbn [orelse]. by apply IH.
Qed.

Lemma search_from_dollar_number r pre : ∀ s0 x,
  no_digit pre = true →
  (∀ c0, match_here (number_group ++ r) c0 s0 = Some x) →
  halts (Ascii.eqb "$") s0 = true →
  search_from (Atom (Ascii.eqb "$") Opt :: number_group ++ r) (pre +:+ s0) = Some x.
Proof.
  induction pre as [|ch pre IH]; intros s0 x Hpre H Hs0.
  - rewrite app_nil_l. apply search_from_here. by rewrite opt_halt.
  - cbn [no_digit all] in Hpre. apply andb_prop in Hpre as [Hch Hpre].
    rewrite app_cons. cbn [search_from].
    destruct (match_here _ Unset (String ch (pre +:+ s0))) as [y|] eqn:E.
    + apply opt_inv in E as [(ch' & s' & [= <- <-] & _ & E)|E].
      * destruct pre as [|ch2 pre].
        { rewrite app_nil_l, H in E. by rewrite E. }
        cbn [no_digit all] in Hpre. apply andb_prop in Hpre as [Hch2 _].
        rewrite app_cons, number_group_halt in E; done.
      * rewrite number_group_halt in E; done.
    + cbn [orelse]. by apply IH.
Qed.

(** On text without digits neither number pattern has a match. *)
Lemma search_from_number_none r s :
  no_digit s = true → search_from (number_group ++ r) s = None.
Proof.
  induction s as [|ch s IH]; intros Hs.
  - rewrite search_from_nil. by apply number_group_halt.
  - cbn [no_digit all] in Hs. apply andb_prop in Hs as [Hch Hs]. cbn [search_from].
    rewrite number_group_halt by done. by apply IH.
Qed.

Lemma no_digit_halts s : no_digit s = true → halts isdigit s = true.
Proof. destruct s as [|ch s]; [done|]. cbn [no_digit all]. by intros [? _]%andb_prop. Qed.

Lemma search_from_dollar_number_none r s :
  no_digit s = true →
  search_from (Atom (Ascii.eqb "$") Opt :: number_group ++ r) s = None.
Proof.
  induction s as [|ch s IH]; intros Hs.
  - rewrite search_from_nil, opt_halt by done. by apply number_group_halt.
  - pose proof Hs as Hall. cbn [no_digit all] in Hs. apply andb_prop in Hs as [Hch Hs].
    cbn [search_from].
    destruct (match_here _ Unset (String ch s)) as [y|] eqn:E.
    + apply opt_inv in E as [(ch' & s' & [= <- <-] & _ & E)|E].
      * rewrite number_group_halt in E; [done|by apply no_digit_halts].
      * rewrite number_group_halt in E; done.
    + by apply IH.
Qed.

(** *** What the two searches find *)

Lemma search_distance_first pre t ws rest :
  no_digit pre = true → decimal t → all isspace ws = true → ws ≠ "" →
  search false distance_pattern (pre +:+ t +:+ ws +:+ "miles" +:+ rest) = Some t.
Proof.
  intros Hpre Ht Hws Hne. unfold search. rewrite compile_distance_pattern.
  by rewrite (search_from_number _ _ _ (Closed t)); [|done|apply distance_here].
Qed.

Lemma search_rate_first pre t ws rest :
  no_digit pre = true → decimal t → all isspace ws = true → ws ≠ "" →
  search false rate_pattern (pre +:+ t +:+ ws +:+ "miles" +:+ rest) = Some t.
Proof.
  intros Hpre Ht Hws Hne. unfold search. rewrite compile_rate_pattern.
  rewrite (search_from_dollar_number _ _ _ (Closed t)); [done|done| |].
  - intros c0. by apply rate_here.
  - destruct (decimal_head t Ht) as (ch & t' & -> & Hch).
    rewrite app_cons. cbn [halts]. by rewrite isdigit_not_dollar.
Qed.

Lemma search_numbers_none s :
  no_digit s = true →
  search false distance_pattern s = None ∧ search false rate_pattern s = None.
Proof.
  intros Hs. unfold search. rewrite compile_distance_pattern, compile_rate_pattern.
  by rewrite search_from_number_none, search_from_dollar_number_none.
Qed.

(** The vehicle pattern needs the word it begins with. *)
Lemma search_vehicle_for s v :
  search false vehicle_pattern s = Some v → str_in "for" s = true.
Proof.
  unfold search. rewrite compile_vehicle_pattern.
  destruct (search_from _ s) as [c'|] eqn:E; [|done]. intros _.
  apply search_from_suffix in E as (pre & s0 & -> & H).
  apply literals_inv in H as (s' & -> & _). apply str_in_app.
Qed.

(** Where the distance pattern matches, what follows the optional dollar
    of the rate pattern matches too. *)
Lemma distance_match_inv c0 s0 c' :
  match_here (number_group ++ Atom isspace Plus :: literals false "miles") c0 s0 = Some c' →
  ∃ t ws rest, s0 = t +:+ ws +:+ "miles" +:+ rest ∧
               decimal t ∧ all isspace ws = true ∧ ws ≠ "".
Proof.
  unfold number_group. cbn [app]. rewrite match_here_open.
  intros (ch & t1 & s1 & -> & Hch & Ht1 & H)%plus_inv.
  assert (∀ b t2 s3 c1,
            (b = "" ∨ b = ".") → all isdigit t2 = true →
            match_here (GroupClose :: Atom isspace Plus :: literals false "miles") c1 s3
              = Some c' →
            ∃ t ws rest,
              String ch t1 +:+ b +:+ t2 +:+ s3 = t +:+ ws +:+ "miles" +:+ rest ∧
              decimal t ∧ all isspace ws = true ∧ ws ≠ "") as Hrest.
  { intros b t2 s3 c1 Hb Ht2. rewrite match_here_close.
    intros (w & ws & s4 & -> & Hw & Hws & H4)%plus_inv.
    change (literals false "miles") with (literals false "miles" ++ []) in H4.
    apply literals_inv in H4 as (rest & -> & _).
    exists (String ch t1 +:+ b +:+ t2), (String w ws), rest. split_and!.
    - by rewrite !app_assoc.
    - exists (String ch t1), b, t2. split_and!; [done|done| |done|done].
      cbn [all]. by rewrite Hch, Ht1.
    - cbn [all]. by rewrite Hw, Hws.
    - done. }
  apply opt_inv in H as [(dot & s2 & -> & Hdot & H)|H].
  - apply Ascii.eqb_eq in Hdot as <-.
    apply star_inv in H as (t2 & s3 & -> & Ht2 & H).
    destruct (Hrest "." t2 s3 _ (or_intror eq_refl) Ht2 H) as (t & ws & rest & Heq & ?).
    exists t, ws, rest. split; [|done]. rewrite <- Heq.
    by rewrite !app_cons, app_nil_l.
  - apply star_inv in H as (t2 & s3 & -> & Ht2 & H).
    destruct (Hrest "" t2 s3 _ (or_introl eq_refl) Ht2 H) as (t & ws & rest & Heq & ?).
    exists t, ws, rest. split; [|done]. rewrite <- Heq.
    by rewrite !app_cons, app_nil_l.
Qed.

Lemma search_distance_rate s d :
  search false distance_pattern s = Some d → is_Some (search false rate_pattern s).
Proof.
  unfold search. rewrite compile_distance_pattern, compile_rate_pattern.
  destruct (search_from _ s) as [c'|] eqn:E; [|done]. intros _.
  apply search_from_suffix in E as (pre & s0 & -> & H).
  apply distance_match_inv in H as (t & ws & rest & -> & Ht & Hws & Hne).
  apply fmap_is_Some, search_from_found.
  exists (Closed t). rewrite opt_halt.
  - by apply rate_here.
  - destruct (decimal_head t Ht) as (ch & t' & -> & Hch).
    rewrite app_cons. cbn [halts]. by rewrite isdigit_not_dollar.
Qed.

End TollFacts.

Module VehicleFacts.

Import PyStr PyStrFacts Re ReFacts CaptureFacts TollFacts Spec Spec2.

Lemma isspace_not_word c : isspace c = true → isword c = false.
Proof. by destruct c as [[] [] [] [] [] [] [] []]. Qed.

Lemma orelse_None_r {A} (a : option A) : orelse a None = a.
Proof. by destruct a. Qed.

Lemma drop_while_lstrip s : drop_while isspace s = lstrip s.
Proof. induction s as [|c s IH]; [done|]. simpl. by rewrite IH. Qed.

(** Literal text, where it is and where it is not. *)
Lemma literals_exact t : ∀ r c s,
  match_here (literals false t ++ r) c s =
    if startswith t s then match_here r (pushes c t) (drop (String.length t) s) else None.
Proof.
  induction t as [|x t IH]; intros r c s; [by destruct s|].
  cbn [literals app]. rewrite match_here_one. destruct s as [|ch s]; [done|].
  cbn [startswith String.length drop pushes]. unfold literal at 1.
  destruct (Ascii.eqb x ch) eqn:E; [|done].
  apply Ascii.eqb_eq in E as <-. cbn [andb]. apply IH.
Qed.

(** A starred class whose continuation cannot begin with a character of
    the class takes the whole run of the class. *)
Lemma star_skip p r :
  (∀ c ch s, p ch = true → match_here r c (String ch s) = None) →
  ∀ s c, match_here (Atom p Star :: r) c s =
           match_here r (pushes c (take_while p s)) (drop_while p s).
Proof.
  intros Hr. induction s as [|ch s IH]; intros c; rewrite match_here_star; [done|].
  cbn [take_while drop_while]. destruct (p ch) eqn:E; [|done].
  rewrite (Hr c ch s E), orelse_None_r. cbn [pushes]. apply IH.
Qed.

(** A starred class at the end of the group takes the whole run. *)
Lemma star_to_close p s : ∀ c,
  match_here [Atom p Star; GroupClose] c s = Some (close (pushes c (take_while p s))).
Proof.
  induction s as [|ch s IH]; intros c; rewrite match_here_star; [done|].
  cbn [take_while]. destruct (p ch); [|done].
  cbn [pushes]. by rewrite IH.
Qed.

Lemma word_group c v :
  match_here [GroupOpen; Atom isword Plus; GroupClose] c v =
    match take_while isword v with
    | "" => None
    | word => Some (Closed word)
    end.
Proof.
  rewrite match_here_open, match_here_plus. destruct v as [|ch v]; [done|].
  cbn [take_while]. destruct (isword ch); [|done].
  rewrite star_to_close. cbn [push]. by rewrite pushes_open, app_nil_l, app_cons, app_nil_l.
Qed.

Lemma blanks_then_word u :
  match_here [Atom isspace Plus; GroupOpen; Atom isword Plus; GroupClose] Unset u =
    Closed <$> word_after_blanks u.
Proof.
  rewrite match_here_plus. unfold word_after_blanks. destruct u as [|w rest]; [done|].
  cbn [blank_head lstrip]. destruct (isspace w) eqn:Hw; [|done]. cbn [push].
  rewrite star_skip.
  - rewrite pushes_settled by done. rewrite word_group, drop_while_lstrip.
    by destruct (take_while isword (lstrip rest)).
  - intros c ch s Hch. rewrite match_here_open, match_here_plus.
    by rewrite (isspace_not_word _ Hch).
Qed.

Lemma search_from_vehicle s :
  search_from (literals false "for" ++
               [Atom isspace Plus; GroupOpen; Atom isword Plus; GroupClose]) s =
    Closed <$> vehicle_word s.
Proof.
  induction s as [|ch s IH].
  - cbn [search_from vehicle_word]. rewrite literals_exact. by cbn.
  - cbn [search_from vehicle_word]. rewrite literals_exact.
    destruct (startswith "for" (String ch s)); [|by rewrite IH].
    cbn [pushes push]. rewrite blanks_then_word.
    change (String.length "for") with 3.
    destruct (word_after_blanks (drop 3 (String ch s))); [done|]. by rewrite IH.
Qed.

(** The vehicle pattern finds the word after the leftmost [for] that
    blanks and a word follow. *)
Lemma search_vehicle_total s : search false vehicle_pattern s = vehicle_word s.
Proof.
  unfold search. rewrite compile_vehicle_pattern, search_from_vehicle.
  by destruct (vehicle_word s).
Qed.

End VehicleFacts.

Module QueryMoreFacts.

Import PyStr PyStrFacts Re ReFacts QueryFacts DirectSqlFacts StripFacts Spec Spec2.

(** A line that begins with a character that is no blank is not empty
    once trimmed. *)
Lemma strip_first_line_nonempty rest :
  lstrip rest ≠ "" → strip (first_line (lstrip rest)) ≠ "".
Proof.
  intros Hne. destruct (lstrip rest) as [|c r] eqn:E; [done|].
  pose proof (lstrip_head _ _ _ E) as Hc.
  unfold first_line. cbn [take_while]. rewrite (isspace_not_newline _ Hc).
  unfold strip. cbn [lstrip]. rewrite Hc. simpl. rewrite Hc.
  by destruct (rstrip _).
Qed.

(** Wherever a trigger followed by blanks and a line is found in a text
    without capitals and without a blank at its end, the line captured
    begins at a character that is no blank. *)
Lemma search_trigger_capture t s : ∀ c',
  all (λ c, negb (isupper c)) t = true →
  all (λ c, negb (isupper c)) s = true →
  rstrip s = s →
  search_from (literals true t ++ blank_then_line) s = Some c' →
  ∃ rest, lstrip rest ≠ "" ∧ c' = Closed (first_line (lstrip rest)).
Proof.
  induction s as [|ch s IH]; intros c' Ht Hs Hfix.
  - cbn [search_from]. rewrite match_literals by done.
    destruct (startswith t ""); [|done]. by destruct (String.length t).
  - rewrite search_from_cons, match_literals by done.
    destruct (startswith t (String ch s)) eqn:E.
    + apply startswith_split in E.
      destruct (drop (String.length t) (String ch s)) as [|w rest] eqn:Hdrop.
      { unfold blank_then_line at 1. rewrite match_here_plus. cbn [orelse].
        apply IH; [done| |by eapply rstrip_tail].
        simpl in Hs. by apply andb_prop in Hs as [_ Hs]. }
      destruct (isspace w) eqn:Hw.
      * assert (lstrip rest ≠ "") as Hrest.
        { rewrite E in Hfix. apply lstrip_suffix in Hfix; [|done].
          cbn [lstrip] in Hfix. by rewrite Hw in Hfix. }
        rewrite blank_then_line_match by done. cbn [orelse].
        intros [= <-]. by exists rest.
      * unfold blank_then_line at 1. rewrite match_here_plus, Hw. cbn [orelse].
        apply IH; [done| |by eapply rstrip_tail].
        simpl in Hs. by apply andb_prop in Hs as [_ Hs].
    + cbn [orelse]. apply IH; [done| |by eapply rstrip_tail].
      simpl in Hs. by apply andb_prop in Hs as [_ Hs].
Qed.

(** The query of the direct SQL rule is never empty. *)
Lemma search_query_nonempty input text :
  search true "run sql query\s+(.+)" (normalized input) = Some text → strip text ≠ "".
Proof.
  unfold search. rewrite compile_query.
  destruct (search_from _ (normalized input)) as [c'|] eqn:E; [|done].
  intros [= <-].
  apply search_trigger_capture in E as (rest & Hrest & ->);
    [|done|apply all_strip_lower|apply rstrip_strip].
  by apply strip_first_line_nonempty.
Qed.

End QueryMoreFacts.

(** ** More on the two query tools *)

Module ServerMoreFacts.

Import Py Server Spec Spec2 PollFacts.

(** A loop that ends has run up to the first answer on which the Poller
    does not go on. *)
Lemma poll_loop_first fuel h w r :
  poll_loop fuel h w = Some r →
  ∃ k, k ≤ fuel ∧
       (∀ j, j < k → waiting (view h j)) ∧
       ((∃ st, view h k = Return st ∧ ¬ pending_or_running st ∧
               r = (Return (advance k st h), elapsed k w)) ∨
        (∃ e, view h k = Raise e ∧ r = (Raise e, elapsed k w))).
Proof.
  intros Hr. destruct (poll_loop_Some_inv _ _ _ _ Hr) as (k' & Hk' & Hdone').
  destruct (first_settled (view h) _ Hdone') as (k & Hk & Hbusy & Hdone).
  exists k. split_and!; [lia|done|].
  destruct (view h k) as [st|e] eqn:E.
  - left. exists st. rewrite waiting_Return in Hdone. split_and!; [done..|].
    rewrite (poll_loop_exact k _ _ _ st) in Hr; [|done..|lia]. by injection Hr.
  - right. exists e. split; [done|].
    rewrite (poll_loop_raises k _ _ _ e) in Hr; [|done..|lia]. by injection Hr.
Qed.

(** A run of the primary tool that ends, with the warehouse named. *)
Lemma run_sql_query_settles fuel env ws query w id o w' :
  getenv env "DATABRICKS_SQL_WAREHOUSE_ID" = Some id → id ≠ "" →
  run_sql_query fuel env ws query w = Some (o, w') →
  ∃ k, k ≤ fuel ∧
       (∀ j, j < k → waiting (ws (request id query) j)) ∧
       w' = polled id query k w ∧
       ((∃ st, ws (request id query) k = Return st ∧ ¬ pending_or_running st ∧
               o = settled_outcome st) ∨
        (∃ e, ws (request id query) k = Raise e ∧
              o = Raise (RuntimeError ("SQL query failed: " +:+ str_exn e)))).
Proof.
  intros Henv Hid. destruct (ws (request id query) 0) as [st0|e0] eqn:H0.
  - rewrite (run_sql_query_polls _ _ _ _ _ id st0) by done.
    unfold poll_results. unfold_binds.
    destruct (poll_loop fuel _ _) as [r|] eqn:Hloop; [|done].
    apply poll_loop_first in Hloop as (k & Hk & Hbusy & Hend).
    assert (∀ j, j < k → waiting (ws (request id query) j)) as Hbusy'.
    { intros j Hj. rewrite <- (view_submitted ws _ st0) by done. by apply Hbusy. }
    rewrite view_submitted in Hend by done.
    destruct Hend as [(st & Hst & Hdone & ->)|(e & He & ->)].
    + unfold advance. simpl. rewrite elapsed_submitted. intros Hrun.
      assert (o = settled_outcome st ∧ w' = polled id query k w) as [-> ->].
      { unfold settled_outcome. unfold str_error in Hrun.
        destruct (negb _); [by injection Hrun as <- <-|].
        destruct (result st) as [r|] eqn:Hres; simpl in Hrun; [rewrite Hres in Hrun|];
          by injection Hrun as <- <-. }
      exists k. split_and!; [done..|]. left. by exists st.
    + rewrite elapsed_submitted. intros [= <- <-]. exists k.
      split_and!; [done..|]. right. by exists e.
  - rewrite (run_sql_query_refused _ _ _ _ _ id e0) by done.
    intros [= <- <-]. exists 0. split_and!; [lia| |done|].
    + intros j Hj. lia.
    + right. by exists e0.
Qed.

Lemma configured_all env :
  configured env = true →
  Snowflake.all [getenv env "SNOWFLAKE_ACCOUNT"; getenv env "SNOWFLAKE_USER";
                 getenv env "SNOWFLAKE_PASSWORD"; getenv env "SNOWFLAKE_DATABASE";
                 getenv env "SNOWFLAKE_SCHEMA"; getenv env "SNOWFLAKE_WAREHOUSE"] = true.
Proof. done. Qed.

Lemma not_configured_all env :
  configured env = false →
  Snowflake.all [getenv env "SNOWFLAKE_ACCOUNT"; getenv env "SNOWFLAKE_USER";
                 getenv env "SNOWFLAKE_PASSWORD"; getenv env "SNOWFLAKE_DATABASE";
                 getenv env "SNOWFLAKE_SCHEMA"; getenv env "SNOWFLAKE_WAREHOUSE"] = false.
Proof. done. Qed.

(** The column list of [run_query_sync] is the names of the description. *)
Lemma columns_of_description (description : option (list (string * nat))) :
  match description with
  | Some ((_ :: _) as descs) => map fst descs
  | _ => []
  end = column_names description.
Proof. by destruct description as [[|d descs]|]. Qed.

(** The secondary tool, step by step: the configuration test, the
    connection, the execution, the fetch. *)
Lemma run_snowflake_query_steps env drv query w :
  Snowflake.run_snowflake_query env drv query w =
    Some
      (if negb (configured env) then
         (Raise (RuntimeError
                   "Snowflake query failed: Missing one or more Snowflake environment variables."),
          w)
       else
         match Snowflake.connect drv (connect_args env) with
         | Raise e => (Raise (RuntimeError ("Snowflake query failed: " +:+ str_exn e)), w)
         | Return _ =>
             match Snowflake.execute drv query with
             | Raise e =>
                 (Raise (RuntimeError ("Snowflake query failed: " +:+ str_exn e)),
                  after_query Snowflake.Held query w)
             | Return ex =>
                 match Snowflake.fetchall ex with
                 | Raise e =>
                     (Raise (RuntimeError ("Snowflake query failed: " +:+ str_exn e)),
                      after_query Snowflake.Held query w)
                 | Return rows =>
                     (Return (Snowflake.translate
                                (column_names (Snowflake.description ex)) rows),
                      after_query Snowflake.Released query w)
                 end
             end
         end).
Proof.
  unfold Snowflake.run_snowflake_query.
  destruct (configured env) eqn:Hconf.
  - rewrite (configured_all _ Hconf). cbn [negb].
    fold (connect_args env).
    unfold_binds; unfold Snowflake.open_connection, answer. unfold_binds.
    destruct (Snowflake.connect drv (connect_args env)) as [[]|e]; [|done]. cbn.
    unfold Snowflake.run_query_sync, Snowflake.with_cursor, Snowflake.cursor_execute.
    unfold_binds; unfold answer. cbn.
    destruct (Snowflake.execute drv query) as [ex|e]; [|done]. cbn.
    rewrite columns_of_description.
    by destruct (Snowflake.fetchall ex) as [rows|e].
  - by rewrite (not_configured_all _ Hconf).
Qed.

(** What leaves a [try] whose handler raises anew is what the handler
    raises. *)
Lemma try_except_reraise {W A} (body : M W A) (f : exn → exn) w e w' :
  try_except body (λ e0, raise (f e0)) w = Some (Raise e, w') → ∃ e0, e = f e0.
Proof.
  unfold try_except. destruct (body w) as [[[a|e0] w0]|]; [done| |done].
  intros [= <- _]. by exists e0.
Qed.

End ServerMoreFacts.

(** ** More on the translator and the interpreter *)

Module ClientMoreFacts.

Import Py Client Spec Spec2 PyStr PyStrFacts StripFacts InterpreterFacts RuleFacts.

Lemma generate_sql_query_unset env gw text w :
  truthy (Server.getenv env "NLP_GATEWAY_URL") = false ∨
  truthy (Server.getenv env "NLP_MODEL_NAME") = false →
  generate_sql_query env gw text w =
    Some (Raise (ValueError "NLP_GATEWAY_URL and NLP_MODEL_NAME must be set"), w).
Proof.
  unfold generate_sql_query.
  destruct (Server.getenv env "NLP_GATEWAY_URL") as [[|u0 url]|];
    destruct (Server.getenv env "NLP_MODEL_NAME") as [[|m0 model]|]; simpl;
    by intros [?|?].
Qed.

(** The translator either stops at its settings or posts its request. *)
Lemma generate_sql_query_cases env gw text w :
  ((truthy (Server.getenv env "NLP_GATEWAY_URL") = false ∨
    truthy (Server.getenv env "NLP_MODEL_NAME") = false) ∧
   generate_sql_query env gw text w =
     Some (Raise (ValueError "NLP_GATEWAY_URL and NLP_MODEL_NAME must be set"), w)) ∨
  (∃ url model,
     Server.getenv env "NLP_GATEWAY_URL" = Some url ∧ url ≠ "" ∧
     Server.getenv env "NLP_MODEL_NAME" = Some model ∧ model ≠ "" ∧
     generate_sql_query env gw text w =
       Some (translated (gw (gateway_request env url model text)),
             posted (gateway_request env url model text) w)).
Proof.
  destruct (Server.getenv env "NLP_GATEWAY_URL") as [url|] eqn:Hurl;
    [destruct url as [|u0 url]|];
    [left; split; [by left|apply generate_sql_query_unset; rewrite Hurl; by left]| |
     left; split; [by left|apply generate_sql_query_unset; rewrite Hurl; by left]].
  destruct (Server.getenv env "NLP_MODEL_NAME") as [model|] eqn:Hmodel;
    [destruct model as [|m0 model]|];
    [left; split; [by right|apply generate_sql_query_unset; rewrite Hmodel; by right]| |
     left; split; [by right|apply generate_sql_query_unset; rewrite Hmodel; by right]].
  right. exists (String u0 url), (String m0 model). split_and!; [done..|].
  by apply generate_sql_query_posts.
Qed.

(** What the translator returns has no blank at either end. *)
Lemma first_text_trimmed reply sql :
  first_text reply = Return sql → lstrip sql = sql ∧ rstrip sql = sql.
Proof.
  unfold first_text. destruct (choices reply) as [[|choice rest]|]; [done| |];
    intros [= <-]; apply strip_trimmed.
Qed.

Lemma translated_inv o :
  (∀ sql, translated o = Return sql → lstrip sql = sql ∧ rstrip sql = sql) ∧
  (∀ e, translated o = Raise e →
        ∃ msg, e = RuntimeError ("Failed to generate SQL query: " +:+ msg)).
Proof.
  unfold translated. destruct o as [reply|e0].
  - destruct (first_text reply) as [sql0|e0] eqn:E.
    + split; [|done]. intros sql [= <-]. by eapply first_text_trimmed.
    + split; [done|]. intros e [= <-]. by eexists.
  - split; [done|]. intros e [= <-]. by eexists.
Qed.

(** The headers of the request. *)
Lemma gateway_request_headers env url model text :
  PyDict.get "Content-Type" (headers (gateway_request env url model text)) =
    Some "application/json" ∧
  PyDict.get "Authorization" (headers (gateway_request env url model text)) =
    match Server.getenv env "NLP_API_KEY" with
    | Some ((String _ _) as key) => Some ("Bearer " +:+ key)
    | _ => None
    end.
Proof.
  unfold gateway_request. simpl.
  by destruct (Server.getenv env "NLP_API_KEY") as [[|k0 key]|].
Qed.

(** The interpreter always answers, and what it does to the world is one
    of: nothing; one call of a tool; one request to the gateway that ends
    in an error; one request to the gateway, then the note of the generated
    SQL and the call of the SQL tool with it. *)
Lemma process_command_footprint env gw srv input w :
  ∃ o w', process_command env gw srv input w = Some (o, w') ∧
    (w' = w ∨
     (∃ tool arguments, tool ∈ interpreter_tools ∧ w' = called tool arguments w) ∨
     (∃ req, str_in "secret word" (normalized input) = false ∧
             str_in "calculate toll" (normalized input) = false ∧
             str_in "run sql query" (normalized input) = false ∧
             is_raise o = true ∧ w' = posted req w) ∨
     (∃ req sql, str_in "secret word" (normalized input) = false ∧
                 str_in "calculate toll" (normalized input) = false ∧
                 str_in "run sql query" (normalized input) = false ∧
                 w' = called "run_sql_query" (query_arguments sql)
                        (noted ("Generated SQL: " +:+ sql) (posted req w)))).
Proof.
  assert ("secret_word" ∈ interpreter_tools) as T1 by apply list_elem_of_here.
  assert ("calculate_toll" ∈ interpreter_tools) as T2
    by apply list_elem_of_further, list_elem_of_here.
  assert ("run_sql_query" ∈ interpreter_tools) as T3
    by apply list_elem_of_further, list_elem_of_further, list_elem_of_here.
  destruct (str_in "secret word" (normalized input)) eqn:H1.
  { rewrite rule_secret_word by done. do 2 eexists. split; [done|]. by eauto 10. }
  destruct (str_in "calculate toll" (normalized input)) eqn:H2.
  { destruct (rule_calculate_toll env gw srv input w H1 H2) as (d & r & _ & _ & ->).
    do 2 eexists. split; [done|]. by eauto 10. }
  destruct (str_in "run sql query" (normalized input)) eqn:H3.
  { unfold process_command. fold (normalized input). rewrite H1, H2, H3. cbv zeta.
    destruct (Re.search true _ (normalized input)) as [text|].
    - rewrite call_then. do 2 eexists. split; [done|]. by eauto 10.
    - do 2 eexists. split; [done|]. by left. }
  destruct (rule_translate env gw srv input w H1 H2 H3) as [Hraise Hsql].
  destruct (generate_sql_query_cases env gw (normalized input) w)
    as [[_ Hg]|(url & model & _ & _ & _ & _ & Hg)].
  { rewrite (Hraise _ _ Hg). do 2 eexists. split; [done|]. by left. }
  destruct (translated (gw (gateway_request env url model (normalized input))))
    as [sql|e] eqn:E.
  - rewrite (Hsql _ _ Hg). do 2 eexists. split; [done|].
    right. right. right. by eauto 10.
  - rewrite (Hraise _ _ Hg). do 2 eexists. split; [done|].
    right. right. left. by eauto 10.
Qed.

(** The chat handler on a text that is not empty. *)
Lemma on_chat_input_run str_result env gw srv input w :
  input ≠ "" →
  Chat.on_chat_input str_result env gw srv input w =
    match process_command env gw srv input (typed input w) with
    | Some (Return response, w1) =>
        Some (Return (), noted (Chat.str_response str_result response) w1)
    | Some (Raise e, w1) => Some (Return (), noted ("Error: " +:+ str_exn e) w1)
    | None => None
    end.
Proof.
  intros Hne. destruct input as [|c input]; [done|].
  unfold Chat.on_chat_input. unfold_binds.
  unfold append_message, effect. fold (typed (String c input) w).
  by destruct (process_command _ _ _ _ _) as [[[response|e] w1]|].
Qed.

End ClientMoreFacts.

Section ServerExtras.

Import Py Server Spec Spec2 Sample Sample2.
Import PollFacts TranslatorFacts PyDictFacts ServerMoreFacts.

(** X1.  Whatever goes wrong inside either query tool, what its caller
    sees is a [RuntimeError] whose message begins with the tool's own
    prefix: no other kind of exception leaves the tools. *)
Theorem query_tools_raise_runtime_error (fuel : nat) (env : gmap string string)
    (ws : Workspace) (drv : Snowflake.Driver) (query : string) :
  (∀ w e w', run_sql_query fuel env ws query w = Some (Raise e, w') →
     ∃ msg, e = RuntimeError ("SQL query failed: " +:+ msg)) ∧
  (∀ w e w', Snowflake.run_snowflake_query env drv query w = Some (Raise e, w') →
     ∃ msg, e = RuntimeError ("Snowflake query failed: " +:+ msg)).
Proof.
  split.
  - intros w e w' (e0 & ->)%try_except_reraise. by eexists.
  - intros w e w' (e0 & ->)%try_except_reraise. by eexists.
Qed.

(** A statement that fails at its third refresh. *)
Lemma query_tools_raise_runtime_error_witness :
  ∃ msg, RuntimeError "SQL query failed: Query failed: boom" =
           RuntimeError ("SQL query failed: " +:+ msg).
Proof.
  destruct (query_tools_raise_runtime_error 5 env_warehouse (warehouse_settling 3 "FAILED")
              driver_ok "SELECT 1") as [Hsql _].
  apply (Hsql Server.idle _ (polled "w" "SELECT 1" 3 Server.idle)).
  reflexivity.
Defined.

(** X2.  With the warehouse named, the events of a run of the primary tool
    that ends are, in this order: one submission, which carries the query
    as it was given, the warehouse id of the environment and the wait of
    30 s; then, [k] times, a sleep of two seconds followed by a refresh.
    The first [k] answers of the warehouse, that of the submission and
    those of the refreshes, are statements that are PENDING or RUNNING, and
    the next answer is not.  When it is a statement in another state, it
    alone decides what the tool returns or raises.  When it is an error,
    of the submission or of a refresh, the tool raises that error wrapped
    in its own.  Nothing is submitted a second time, whatever the
    outcome. *)
Theorem run_sql_query_submits_once (fuel : nat) (env : gmap string string)
    (ws : Workspace) (query : string) (w : Server.World) (id : string)
    (o : outcome (list row_mapping)) (w' : Server.World) :
  getenv env "DATABRICKS_SQL_WAREHOUSE_ID" = Some id → id ≠ "" →
  run_sql_query fuel env ws query w = Some (o, w') →
  ∃ k, k ≤ fuel ∧
       w' = w ++ Submitted {| warehouse_id := id; statement := query;
                              wait_timeout := "30s" |} :: cycles k ∧
       (∀ j, j < k → waiting (ws (request id query) j)) ∧
       ((∃ st, ws (request id query) k = Return st ∧ ¬ pending_or_running st ∧
               o = settled_outcome st) ∨
        (∃ e, ws (request id query) k = Raise e ∧
              o = Raise (RuntimeError ("SQL query failed: " +:+ str_exn e)))).
Proof.
  intros Henv Hid Hrun.
  destruct (run_sql_query_settles _ _ _ _ _ _ _ _ Henv Hid Hrun)
    as (k & Hk & Hbusy & -> & Hend).
  exists k. by split_and!.
Qed.

(** A statement whose second refresh fails. *)
Lemma run_sql_query_submits_once_witness :
  ∃ k, k ≤ 5 ∧
       [Submitted (request "w" "SELECT 1"); Slept 2; Refreshed] =
         [] ++ Submitted {| warehouse_id := "w"; statement := "SELECT 1";
                            wait_timeout := "30s" |} :: cycles k ∧
       (∀ j, j < k →
          waiting (warehouse_unreachable (LibraryError "timed out")
                     (request "w" "SELECT 1") j)) ∧
       ((∃ st, warehouse_unreachable (LibraryError "timed out")
                 (request "w" "SELECT 1") k = Return st ∧
               ¬ pending_or_running st ∧
               @Raise (list row_mapping) (RuntimeError "SQL query failed: timed out") =
                 settled_outcome st) ∨
        (∃ e, warehouse_unreachable (LibraryError "timed out")
                (request "w" "SELECT 1") k = Raise e ∧
              @Raise (list row_mapping) (RuntimeError "SQL query failed: timed out") =
                Raise (RuntimeError ("SQL query failed: " +:+ str_exn e)))).
Proof.
  apply (run_sql_query_submits_once 5 env_warehouse
           (warehouse_unreachable (LibraryError "timed out"))
           "SELECT 1" Server.idle "w"
           (Raise (RuntimeError "SQL query failed: timed out"))
           [Submitted (request "w" "SELECT 1"); Slept 2; Refreshed]).
  - reflexivity.
  - done.
  - reflexivity.
Defined.

(** X3.  When the first settled observation of the statement is SUCCEEDED
    and carries a result, the primary tool returns: one mapping per row,
    built from the names of the schema's fields, when the result has rows
    and a schema; the empty list when the result has no row array or an
    empty one; and the empty list when it has no schema, the rows it may
    have being dropped without an error. *)
Theorem succeeded_statement_returns_mappings (fuel : nat) (env : gmap string string)
    (ws : Workspace) (query : string) (w : Server.World) (id : string) (k : nat)
    (st : Statement) (r : ResultData) :
  getenv env "DATABRICKS_SQL_WAREHOUSE_ID" = Some id → id ≠ "" →
  (∀ j, j < k → waiting (ws (request id query) j)) →
  ws (request id query) k = Return st →
  state (status st) = "SUCCEEDED" →
  result st = Some r →
  k ≤ fuel →
  ∃ out,
    run_sql_query fuel env ws query w = Some (Return out, polled id query k w) ∧
    (∀ rows s, data_array r = Some rows → rows ≠ [] → schema r = Some s →
       out = zip_rows (name <$> fields s) rows) ∧
    (data_array r = None ∨ data_array r = Some [] → out = []) ∧
    (schema r = None → out = []).
Proof.
  intros Henv Hid Hbusy Hst Hstate Hresult Hfuel.
  exists (Server.translate (default [] (data_array r)) (schema r)).
  split_and!.
  - by apply (run_sql_query_succeeded _ _ _ _ _ _ _ st).
  - intros rows s -> Hrows ->. simpl. by destruct rows.
  - by intros [-> | ->].
  - intros ->. by destruct (default [] (data_array r)).
Qed.

(** A statement that has succeeded with one row under two columns. *)
Lemma succeeded_statement_returns_mappings_witness :
  run_sql_query 0 env_warehouse
    (warehouse_done (Some {| data_array := Some [[Int 1; Text "a"]];
                             schema := Some (schema_of ["id"; "name"]) |}))
    "SELECT 1" Server.idle =
    Some (Return [[("id", Int 1); ("name", Text "a")]],
          [Submitted (request "w" "SELECT 1")]).
Proof.
  destruct (succeeded_statement_returns_mappings 0 env_warehouse
              (warehouse_done (Some {| data_array := Some [[Int 1; Text "a"]];
                                       schema := Some (schema_of ["id"; "name"]) |}))
              "SELECT 1" Server.idle "w" 0
              {| status := {| state := "SUCCEEDED"; error := None |};
                 result := Some {| data_array := Some [[Int 1; Text "a"]];
                                   schema := Some (schema_of ["id"; "name"]) |} |}
              {| data_array := Some [[Int 1; Text "a"]];
                 schema := Some (schema_of ["id"; "name"]) |})
    as (out & Hrun & Hrows & _).
  - reflexivity.
  - done.
  - intros j Hj. lia.
  - reflexivity.
  - reflexivity.
  - reflexivity.
  - lia.
  - rewrite Hrun. rewrite (Hrows [[Int 1; Text "a"]] (schema_of ["id"; "name"]));
      [reflexivity|reflexivity|done|reflexivity].
Defined.

(** X4.  When the first settled observation of the statement is SUCCEEDED
    but carries no result object, the primary tool does not return an empty
    list: reading the rows fails, and the tool raises a [RuntimeError] that
    wraps the attribute error. *)
Theorem succeeded_without_result_raises (fuel : nat) (env : gmap string string)
    (ws : Workspace) (query : string) (w : Server.World) (id : string) (k : nat)
    (st : Statement) :
  getenv env "DATABRICKS_SQL_WAREHOUSE_ID" = Some id → id ≠ "" →
  (∀ j, j < k → waiting (ws (request id query) j)) →
  ws (request id query) k = Return st →
  state (status st) = "SUCCEEDED" →
  result st = None →
  k ≤ fuel →
  run_sql_query fuel env ws query w =
    Some (Raise (RuntimeError
                   "SQL query failed: 'NoneType' object has no attribute 'data_array'"),
          polled id query k w).
Proof.
  intros Henv Hid Hbusy Hst Hstate Hresult Hfuel.
  assert (∃ st0, ws (request id query) 0 = Return st0) as [st0 H0].
  { destruct k as [|k]; [by eauto|]. destruct (Hbusy 0 ltac:(lia)) as (st0 & ? & _). by eauto. }
  rewrite (run_sql_query_polls _ _ _ _ _ id st0) by done.
  unfold poll_results. unfold_binds.
  rewrite (poll_loop_exact k _ _ _ st);
    [| |by rewrite view_submitted|by apply succeeded_settled|done].
  - unfold advance. simpl. by rewrite Hstate, Hresult, elapsed_submitted.
  - intros j Hj. rewrite view_submitted by done. by apply Hbusy.
Qed.

(** A statement that succeeds at its second refresh, without a result. *)
Lemma succeeded_without_result_raises_witness :
  run_sql_query 5 env_warehouse (warehouse_settling 2 "SUCCEEDED") "SELECT 1" Server.idle =
    Some (Raise (RuntimeError
                   "SQL query failed: 'NoneType' object has no attribute 'data_array'"),
          [Submitted (request "w" "SELECT 1"); Slept 2; Refreshed; Slept 2; Refreshed]).
Proof.
  apply (succeeded_without_result_raises 5 env_warehouse (warehouse_settling 2 "SUCCEEDED")
           "SELECT 1" Server.idle "w" 2
           {| status := {| state := "SUCCEEDED"; error := Some "boom" |}; result := None |}).
  - reflexivity.
  - done.
  - intros j Hj. apply Nat.ltb_lt in Hj.
    eexists. split; [reflexivity|]. right. simpl. by rewrite Hj.
  - reflexivity.
  - reflexivity.
  - reflexivity.
  - lia.
Defined.


(** X6.  When the six variables are set and the driver refuses the
    connection, which the tool asks for with the six values as they are in
    the environment and with autocommit on, the tool raises the driver's
    error wrapped in its own, and no cursor is opened and no statement
    executed. *)
Theorem refused_connection_runs_nothing (env : gmap string string)
    (drv : Snowflake.Driver) (query : string) (w : Snowflake.World) (e : exn) :
  configured env = true →
  Snowflake.connect drv
    {| Snowflake.account := default "" (getenv env "SNOWFLAKE_ACCOUNT");
       Snowflake.user := default "" (getenv env "SNOWFLAKE_USER");
       Snowflake.password := default "" (getenv env "SNOWFLAKE_PASSWORD");
       Snowflake.database := default "" (getenv env "SNOWFLAKE_DATABASE");
       Snowflake.schema := default "" (getenv env "SNOWFLAKE_SCHEMA");
       Snowflake.warehouse := default "" (getenv env "SNOWFLAKE_WAREHOUSE");
       Snowflake.autocommit := true |} = Raise e →
  Snowflake.run_snowflake_query env drv query w =
    Some (Raise (RuntimeError ("Snowflake query failed: " +:+ str_exn e)), w).
Proof.
  intros Hconf Hconnect. rewrite run_snowflake_query_steps, Hconf. cbn [negb].
  unfold connect_args, Snowflake.value. by rewrite Hconnect.
Qed.

(** A driver that refuses the password. *)
Lemma refused_connection_runs_nothing_witness :
  Snowflake.run_snowflake_query env_snowflake
    (driver_refusing (LibraryError "Incorrect username or password was specified."))
    "SELECT 1" Snowflake.idle =
    Some (Raise (RuntimeError
                   "Snowflake query failed: Incorrect username or password was specified."),
          Snowflake.idle).
Proof.
  apply (refused_connection_runs_nothing env_snowflake
           (driver_refusing (LibraryError "Incorrect username or password was specified."))
           "SELECT 1" Snowflake.idle
           (LibraryError "Incorrect username or password was specified.")).
  - reflexivity.
  - reflexivity.
Defined.

(** X7.  When the six variables are set, the connection is granted, the
    query executes with a description of at least one column and its rows
    are fetched, the secondary tool returns one mapping per row, keyed by
    the first component of each entry of the description, and leaves the
    cursor and the connection released. *)
Theorem snowflake_rows_keyed_by_description (env : gmap string string)
    (drv : Snowflake.Driver) (query : string) (w : Snowflake.World)
    (ex : Snowflake.Executed) (descs : list (string * nat)) (rows : list row) :
  configured env = true →
  Snowflake.connect drv (connect_args env) = Return () →
  Snowflake.execute drv query = Return ex →
  Snowflake.description ex = Some descs → descs ≠ [] →
  Snowflake.fetchall ex = Return rows →
  Snowflake.run_snowflake_query env drv query w =
    Some (Return (zip_rows descs.*1 rows),
          {| Snowflake.connection := Snowflake.Released;
             Snowflake.cursor := Snowflake.Released;
             Snowflake.executed := Snowflake.executed w ++ [query] |}) ∧
  length (zip_rows descs.*1 rows) = length rows.
Proof.
  intros Hconf Hconnect Hexecute Hdesc Hne Hfetch.
  split; [|apply length_zip_rows].
  rewrite run_snowflake_query_steps, Hconf, Hconnect, Hexecute, Hfetch, Hdesc.
  cbn [negb]. unfold column_names. simpl. by destruct descs.
Qed.

(** Two rows under the columns [ID] and [NAME]. *)
Lemma snowflake_rows_keyed_by_description_witness :
  Snowflake.run_snowflake_query env_snowflake
    (driver_answering (Some [("ID", 0); ("NAME", 2)])
       (Return [[Int 1; Text "a"]; [Int 2; Null]]))
    "SELECT 1" Snowflake.idle =
    Some (Return [[("ID", Int 1); ("NAME", Text "a")]; [("ID", Int 2); ("NAME", Null)]],
          {| Snowflake.connection := Snowflake.Released;
             Snowflake.cursor := Snowflake.Released;
             Snowflake.executed := ["SELECT 1"] |}).
Proof.
  apply (snowflake_rows_keyed_by_description env_snowflake
           (driver_answering (Some [("ID", 0); ("NAME", 2)])
              (Return [[Int 1; Text "a"]; [Int 2; Null]]))
           "SELECT 1" Snowflake.idle
           {| Snowflake.description := Some [("ID", 0); ("NAME", 2)];
              Snowflake.fetchall := Return [[Int 1; Text "a"]; [Int 2; Null]] |}
           [("ID", 0); ("NAME", 2)] [[Int 1; Text "a"]; [Int 2; Null]]);
    [reflexivity|reflexivity|reflexivity|reflexivity|done|reflexivity].
Defined.

(** X8.  When the executed query has no description, or an empty one (a
    statement that yields no result set), the secondary tool still fetches:
    it returns the empty list whatever rows the fetch answers, releasing
    the cursor and the connection, and when the fetch raises the tool
    raises, the connection still held. *)
Theorem snowflake_without_description (env : gmap string string)
    (drv : Snowflake.Driver) (query : string) (w : Snowflake.World)
    (ex : Snowflake.Executed) :
  configured env = true →
  Snowflake.connect drv (connect_args env) = Return () →
  Snowflake.execute drv query = Return ex →
  Snowflake.description ex = None ∨ Snowflake.description ex = Some [] →
  (∀ rows, Snowflake.fetchall ex = Return rows →
     Snowflake.run_snowflake_query env drv query w =
       Some (Return [],
             {| Snowflake.connection := Snowflake.Released;
                Snowflake.cursor := Snowflake.Released;
                Snowflake.executed := Snowflake.executed w ++ [query] |})) ∧
  (∀ e, Snowflake.fetchall ex = Raise e →
     Snowflake.run_snowflake_query env drv query w =
       Some (Raise (RuntimeError ("Snowflake query failed: " +:+ str_exn e)),
             {| Snowflake.connection := Snowflake.Held;
                Snowflake.cursor := Snowflake.Released;
                Snowflake.executed := Snowflake.executed w ++ [query] |})).
Proof.
  intros Hconf Hconnect Hexecute Hdesc.
  split; [intros rows Hfetch|intros e Hfetch];
    rewrite run_snowflake_query_steps, Hconf, Hconnect, Hexecute, Hfetch;
    [|done]; cbn [negb]; by destruct Hdesc as [-> | ->].
Qed.

(** An update: no description, and a fetch that answers one row. *)
Lemma snowflake_without_description_witness :
  Snowflake.run_snowflake_query env_snowflake
    (driver_answering None (Return [[Int 1]])) "UPDATE t SET x = 1" Snowflake.idle =
    Some (Return [],
          {| Snowflake.connection := Snowflake.Released;
             Snowflake.cursor := Snowflake.Released;
             Snowflake.executed := ["UPDATE t SET x = 1"] |}).
Proof.
  destruct (snowflake_without_description env_snowflake
              (driver_answering None (Return [[Int 1]])) "UPDATE t SET x = 1" Snowflake.idle
              {| Snowflake.description := None; Snowflake.fetchall := Return [[Int 1]] |})
    as [Hrows _]; [reflexivity|reflexivity|reflexivity|by left|].
  apply (Hrows [[Int 1]]). reflexivity.
Defined.

(** X9.  A row that has fewer or more cells than there are columns is not
    an error for either translator: the row's mapping has a key for each of
    the first column names the row has a cell for, and no other, so a short
    row lacks its last columns and the surplus cells of a long row are
    dropped.  With distinct names the mapping is the positional pairing cut
    at the shorter of the two. *)
Theorem misaligned_rows_are_truncated (columns : list string) (rows : list row)
    (i : nat) (r : row) :
  rows !! i = Some r →
  ∃ m, primary columns rows !! i = Some m ∧
       (columns ≠ [] → secondary columns rows !! i = Some m) ∧
       (∀ k, k ∈ PyDict.keys m ↔ k ∈ take (length r) columns) ∧
       PyDict.len m ≤ length columns `min` length r ∧
       (NoDup columns →
        m = zip columns r ∧ PyDict.len m = length columns `min` length r).
Proof.
  intros Hr. exists (PyDict.of_pairs (zip columns r)). split_and!.
  - by rewrite primary_zip, zip_rows_lookup, Hr.
  - intros Hne. by rewrite secondary_zip, zip_rows_lookup, Hr.
  - intros k. by rewrite keys_of_pairs_elem, fst_zip_take.
  - etrans; [apply len_of_pairs_le|]. by rewrite length_zip.
  - intros Hnd. rewrite of_pairs_distinct by by apply NoDup_fst_zip.
    split; [done|]. unfold PyDict.len. by rewrite length_zip.
Qed.

(** A short row and a long row under the columns [id] and [name]. *)
Lemma misaligned_rows_are_truncated_witness :
  primary ["id"; "name"] [[Int 1]; [Int 2; Text "b"; Int 9]] =
    [[("id", Int 1)]; [("id", Int 2); ("name", Text "b")]] ∧
  ∃ m, primary ["id"; "name"] [[Int 1]; [Int 2; Text "b"; Int 9]] !! 1 = Some m ∧
       (["id"; "name"] ≠ [] →
        secondary ["id"; "name"] [[Int 1]; [Int 2; Text "b"; Int 9]] !! 1 = Some m) ∧
       (∀ k, k ∈ PyDict.keys m ↔ k ∈ take 3 ["id"; "name"]) ∧
       PyDict.len m ≤ 2 `min` 3 ∧
       (NoDup ["id"; "name"] →
        m = zip ["id"; "name"] [Int 2; Text "b"; Int 9] ∧ PyDict.len m = 2 `min` 3).
Proof.
  split; [reflexivity|].
  apply (misaligned_rows_are_truncated ["id"; "name"] [[Int 1]; [Int 2; Text "b"; Int 9]] 1
           [Int 2; Text "b"; Int 9]).
  reflexivity.
Defined.

End ServerExtras.

Section ClientExtras.

Import Py Client Spec Spec2 Sample Sample2 PyStr.
Import PyStrFacts StripFacts CaptureFacts TollFacts PatternFacts.
Import InterpreterFacts RuleFacts ClientMoreFacts QueryMoreFacts.

(** X10.  When the gateway's address or the model's name is unset or empty,
    the translator raises a [ValueError], not wrapped like the errors of the
    tools, before anything is posted.  A free-text command then ends in that
    error without a call of any tool, and the chat handler records it in the
    transcript as the assistant's answer. *)
Theorem translator_needs_gateway_settings (env : gmap string string) (gw : Gateway)
    (srv : ToolServer) (str_result : tool_result → string) (input : string) :
  truthy (Server.getenv env "NLP_GATEWAY_URL") = false ∨
  truthy (Server.getenv env "NLP_MODEL_NAME") = false →
  (∀ text w,
     generate_sql_query env gw text w =
       Some (Raise (ValueError "NLP_GATEWAY_URL and NLP_MODEL_NAME must be set"), w)) ∧
  (str_in "secret word" (normalized input) = false →
   str_in "calculate toll" (normalized input) = false →
   str_in "run sql query" (normalized input) = false →
   ∀ w,
     process_command env gw srv input w =
       Some (Raise (ValueError "NLP_GATEWAY_URL and NLP_MODEL_NAME must be set"), w) ∧
     (input ≠ "" →
      Chat.on_chat_input str_result env gw srv input w =
        Some (Return (),
              noted "Error: NLP_GATEWAY_URL and NLP_MODEL_NAME must be set"
                (typed input w)))).
Proof.
  intros Hunset.
  assert (∀ text w,
            generate_sql_query env gw text w =
              Some (Raise (ValueError "NLP_GATEWAY_URL and NLP_MODEL_NAME must be set"), w))
    as Hg by (intros; by apply generate_sql_query_unset).
  split; [done|]. intros H1 H2 H3.
  assert (∀ w, process_command env gw srv input w =
                 Some (Raise (ValueError "NLP_GATEWAY_URL and NLP_MODEL_NAME must be set"), w))
    as Hp.
  { intros w. destruct (rule_translate env gw srv input w H1 H2 H3) as [Hraise _].
    by apply Hraise. }
  intros w. split; [done|]. intros Hne.
  by rewrite on_chat_input_run, Hp.
Qed.

(** A free-text command with no gateway configured. *)
Lemma translator_needs_gateway_settings_witness :
  Chat.on_chat_input str_joined ∅ gateway_select server_two_rows "Show all customers"
    Client.idle =
    Some (Return (),
          {| messages := [("user", "Show all customers");
                          ("assistant",
                           "Error: NLP_GATEWAY_URL and NLP_MODEL_NAME must be set")];
             calls := []; posts := [] |}).
Proof.
  destruct (translator_needs_gateway_settings ∅ gateway_select server_two_rows str_joined
              "Show all customers") as [_ Hchat].
  - left. reflexivity.
  - destruct (Hchat eq_refl eq_refl eq_refl Client.idle) as [_ ->]; done.
Defined.

(** X11.  With the gateway's address and the model's name set, the
    translator posts exactly one request, to that address and for that
    model, asking for at most 200 tokens, with a prompt that contains the
    text it was given, a JSON content type, and a bearer authorization
    header exactly when the key variable is set and not empty.  It calls no
    tool and writes nothing to the transcript, and its outcome is decided by
    the gateway's answer to that request. *)
Theorem translator_posts_one_request (env : gmap string string) (gw : Gateway)
    (text : string) (w : Client.World) (gateway_url model_name : string) :
  Server.getenv env "NLP_GATEWAY_URL" = Some gateway_url → gateway_url ≠ "" →
  Server.getenv env "NLP_MODEL_NAME" = Some model_name → model_name ≠ "" →
  ∃ req,
    generate_sql_query env gw text w = Some (translated (gw req), posted req w) ∧
    url req = gateway_url ∧ model req = model_name ∧ max_tokens req = 200 ∧
    str_in text (prompt req) = true ∧
    PyDict.get "Content-Type" (headers req) = Some "application/json" ∧
    PyDict.get "Authorization" (headers req) =
      match Server.getenv env "NLP_API_KEY" with
      | Some ((String _ _) as key) => Some ("Bearer " +:+ key)
      | _ => None
      end.
Proof.
  intros Hurl Hu Hmodel Hm. exists (gateway_request env gateway_url model_name text).
  destruct (gateway_request_headers env gateway_url model_name text) as [Hct Hauth].
  split_and!; [by apply generate_sql_query_posts|done..|apply prompt_has_input|done|done].
Qed.

(** A gateway that cannot be reached, and no key. *)
Lemma translator_posts_one_request_witness :
  ∃ req,
    generate_sql_query env_gateway gateway_down "show all customers" Client.idle =
      Some (Raise (RuntimeError "Failed to generate SQL query: connection refused"),
            {| messages := []; calls := []; posts := [req] |}) ∧
    url req = "http://gateway" ∧ model req = "m" ∧
    PyDict.get "Authorization" (headers req) = None.
Proof.
  destruct (translator_posts_one_request env_gateway gateway_down "show all customers"
              Client.idle "http://gateway" "m")
    as (req & Hrun & Hurl & Hmodel & _ & _ & _ & Hauth);
    [reflexivity|done|reflexivity|done|].
  exists req. split_and!; [exact Hrun|exact Hurl|exact Hmodel|exact Hauth].
Defined.

(** X12.  The SQL text the translator returns has no blank at either end,
    and every error it raises once its settings are read is a
    [RuntimeError] whose message begins with the translator's own prefix. *)
Theorem translator_returns_trimmed_sql (env : gmap string string) (gw : Gateway)
    (text : string) (w : Client.World) :
  (∀ sql w', generate_sql_query env gw text w = Some (Return sql, w') →
     lstrip sql = sql ∧ rstrip sql = sql ∧ strip sql = sql) ∧
  (∀ e w', generate_sql_query env gw text w = Some (Raise e, w') →
     e = ValueError "NLP_GATEWAY_URL and NLP_MODEL_NAME must be set" ∨
     ∃ msg, e = RuntimeError ("Failed to generate SQL query: " +:+ msg)).
Proof.
  destruct (generate_sql_query_cases env gw text w)
    as [[_ ->]|(url & model & _ & _ & _ & _ & ->)].
  - split; [done|]. intros e w' [= <- _]. by left.
  - destruct (translated_inv (gw (gateway_request env url model text))) as [Hsql Hraise].
    split.
    + intros sql w' [= Ho _]. destruct (Hsql _ Ho) as [Hl Hr].
      split_and!; [done..|]. unfold strip. by rewrite Hl.
    + intros e w' [= Ho _]. right. by apply Hraise.
Qed.

(** X13.  A reply of the gateway that has no list of choices, or whose
    first choice has no text, is not an error: the generated SQL is the
    empty text, it is noted in the transcript and the SQL tool is called
    with it.  A reply whose list of choices is empty is one: the command
    ends in the translator's error, and no tool is called. *)
Theorem reply_without_text_gives_empty_query (env : gmap string string) (gw : Gateway)
    (srv : ToolServer) (input : string) (w : Client.World)
    (gateway_url model_name : string) (reply : GatewayReply) :
  str_in "secret word" (normalized input) = false →
  str_in "calculate toll" (normalized input) = false →
  str_in "run sql query" (normalized input) = false →
  Server.getenv env "NLP_GATEWAY_URL" = Some gateway_url → gateway_url ≠ "" →
  Server.getenv env "NLP_MODEL_NAME" = Some model_name → model_name ≠ "" →
  gw (gateway_request env gateway_url model_name (normalized input)) = Return reply →
  ((choices reply = None ∨ ∃ others, choices reply = Some (None :: others)) →
   process_command env gw srv input w =
     Some (answered render (srv "run_sql_query" [("query", AStr "")]),
           called "run_sql_query" [("query", AStr "")]
             (noted "Generated SQL: "
                (posted (gateway_request env gateway_url model_name (normalized input)) w)))) ∧
  (choices reply = Some [] →
   process_command env gw srv input w =
     Some (Raise (RuntimeError "Failed to generate SQL query: list index out of range"),
           posted (gateway_request env gateway_url model_name (normalized input)) w)).
Proof.
  intros H1 H2 H3 Hurl Hu Hmodel Hm Hgw.
  destruct (rule_translate env gw srv input w H1 H2 H3) as [Hraise Hsql].
  pose proof (generate_sql_query_posts env gw (normalized input) w _ _ Hurl Hu Hmodel Hm)
    as Hg.
  rewrite Hgw in Hg. unfold translated, first_text in Hg.
  split.
  - intros Hnone. apply (Hsql ""). rewrite Hg.
    by destruct Hnone as [-> | (others & ->)].
  - intros Hempty. apply Hraise. rewrite Hg. by rewrite Hempty.
Qed.

(** A gateway that answers with a body without choices. *)
Lemma reply_without_text_gives_empty_query_witness :
  process_command env_gateway (gateway_answering {| choices := None |}) server_no_rows
    "Show all customers" Client.idle =
    Some (Return (Message "No results returned."),
          {| messages := [("assistant", "Generated SQL: ")];
             calls := [("run_sql_query", [("query", AStr "")])];
             posts := [gateway_request env_gateway "http://gateway" "m" "show all customers"] |}).
Proof.
  destruct (reply_without_text_gives_empty_query env_gateway
              (gateway_answering {| choices := None |}) server_no_rows
              "Show all customers" Client.idle "http://gateway" "m" {| choices := None |})
    as [Hnone _]; [reflexivity|reflexivity|reflexivity|reflexivity|done|reflexivity|done
                  |reflexivity|].
  apply Hnone. by left.
Defined.

(** X14.  Whatever the command, the tool server and the gateway, the
    interpreter calls at most one tool, and only the secret-word tool, the
    toll tool or the primary SQL tool, never the secondary one.  It posts at
    most one request to the gateway, and only for a command that none of its
    first three rules takes.  The only entry it writes to the transcript is
    the generated SQL, and that is the query it then sends to the SQL
    tool. *)
Theorem interpreter_calls_at_most_one_tool (env : gmap string string) (gw : Gateway)
    (srv : ToolServer) (input : string) (w : Client.World) :
  ∃ o w',
    process_command env gw srv input w = Some (o, w') ∧
    (calls w' = calls w ∨
     ∃ tool arguments,
       tool ∈ ["secret_word"; "calculate_toll"; "run_sql_query"] ∧
       calls w' = calls w ++ [(tool, arguments)]) ∧
    (posts w' = posts w ∨
     ∃ req, str_in "secret word" (normalized input) = false ∧
            str_in "calculate toll" (normalized input) = false ∧
            str_in "run sql query" (normalized input) = false ∧
            posts w' = posts w ++ [req]) ∧
    (messages w' = messages w ∨
     ∃ sql, messages w' = messages w ++ [("assistant", "Generated SQL: " +:+ sql)] ∧
            calls w' = calls w ++ [("run_sql_query", [("query", AStr sql)])]).
Proof.
  destruct (process_command_footprint env gw srv input w)
    as (o & w' & Hrun & [->|[(tool & arguments & Htool & ->)|
          [(req & H1 & H2 & H3 & _ & ->)|(req & sql & H1 & H2 & H3 & ->)]]]);
    exists o; eexists; (split; [exact Hrun|]); simpl.
  - by split_and!; left.
  - split_and!; [right|left|left]; by eauto.
  - split_and!; [left|right|left]; by eauto 10.
  - split_and!; right; [exists "run_sql_query"|..]; eauto 10.
    eexists. split; [|done].
    apply list_elem_of_further, list_elem_of_further, list_elem_of_here.
Qed.

(** X15.  The query of the direct SQL rule is cut out of the command after
    the command was put in lower case: whenever the rule calls the SQL tool,
    the query it sends has no capital letter, whatever the user typed, it
    has no blank at either end, and it is not empty. *)
Theorem direct_sql_is_sent_in_lower_case (env : gmap string string) (gw : Gateway)
    (srv : ToolServer) (input : string) (w : Client.World) :
  str_in "secret word" (normalized input) = false →
  str_in "calculate toll" (normalized input) = false →
  str_in "run sql query" (normalized input) = true →
  process_command env gw srv input w = Some (Return (Message missing_query), w) ∨
  ∃ query,
    process_command env gw srv input w =
      Some (answered render (srv "run_sql_query" [("query", AStr query)]),
            called "run_sql_query" [("query", AStr query)] w) ∧
    no_capital query = true ∧ strip query = query ∧ query ≠ "".
Proof.
  intros H1 H2 H3. unfold process_command. fold (normalized input).
  rewrite H1, H2, H3. cbv zeta.
  destruct (Re.search true _ (normalized input)) as [text|] eqn:E; [|by left].
  right. exists (strip text). split_and!.
  - apply call_then.
  - unfold no_capital, strip. apply all_rstrip, all_lstrip.
    eapply search_all; [exact E|]. apply all_strip_lower.
  - apply strip_idem.
  - by apply (search_query_nonempty input).
Qed.

(** A query typed in capitals, with a quoted name. *)
Lemma direct_sql_is_sent_in_lower_case_witness :
  process_command env_gateway gateway_select server_no_rows
    "Run SQL query SELECT * FROM t WHERE name = 'Bob'" Client.idle =
    Some (Return (Message "No results returned."),
          called "run_sql_query" [("query", AStr "select * from t where name = 'bob'")]
            Client.idle).
Proof.
  destruct (direct_sql_is_sent_in_lower_case env_gateway gateway_select server_no_rows
              "Run SQL query SELECT * FROM t WHERE name = 'Bob'" Client.idle)
    as [Hmissing|(query & Hrun & _)]; [reflexivity|reflexivity|reflexivity| |].
  - exfalso. revert Hmissing. vm_compute. discriminate.
  - vm_compute in Hrun. injection Hrun as <-. reflexivity.
Defined.

End ClientExtras.

Section TollExtras.

Import Py Client Spec Spec2 Sample Sample2 PyStr.
Import PyStrFacts StripFacts CaptureFacts TollFacts PatternFacts.
Import InterpreterFacts RuleFacts ClientMoreFacts.

(** X16.  In a toll command whose first number is followed by blanks and
    the word [miles], that number is the distance, and it is the rate as
    well: the rate pattern, whose slash is optional, finds its leftmost
    match in the distance, so the toll tool is called with the rate equal to
    the distance, whatever rate the command goes on to give. *)
Theorem toll_rate_repeats_distance (env : gmap string string) (gw : Gateway)
    (srv : ToolServer) (input : string) (w : Client.World)
    (before number blanks rest : string) :
  str_in "secret word" (normalized input) = false →
  str_in "calculate toll" (normalized input) = true →
  normalized input = before +:+ number +:+ blanks +:+ "miles" +:+ rest →
  no_digit before = true → Re.decimal number →
  all isspace blanks = true → blanks ≠ "" →
  ∃ x vehicle,
    PyFloat.float_of_str number = Some x ∧
    process_command env gw srv input w =
      Some (answered Result
              (srv "calculate_toll"
                 [("vehicle_type", AStr vehicle); ("distance", AFloat x);
                  ("toll_rate", AFloat x)]),
            called "calculate_toll"
              [("vehicle_type", AStr vehicle); ("distance", AFloat x);
               ("toll_rate", AFloat x)] w).
Proof.
  intros H1 H2 Hnorm Hbefore Hnumber Hblanks Hne.
  destruct (rule_calculate_toll env gw srv input w H1 H2) as (d & r & Hd & Hr & Hrun).
  unfold extracted in Hd, Hr. rewrite Hnorm in Hd, Hr.
  pose proof (search_distance_first before number blanks rest Hbefore Hnumber Hblanks Hne)
    as Hsd.
  pose proof (search_rate_first before number blanks rest Hbefore Hnumber Hblanks Hne)
    as Hsr.
  unfold distance_pattern in Hsd. unfold rate_pattern in Hsr.
  rewrite Hsd in Hd. rewrite Hsr in Hr.
  exists d, (default "car" (Re.search false "for\s+(\w+)" (normalized input))).
  split; [done|]. rewrite Hrun.
  assert (r = d) as -> by congruence. done.
Qed.

(** The command the chat box suggests. *)
Lemma toll_rate_repeats_distance_witness :
  process_command env_gateway gateway_select server_no_rows
    "Calculate toll for car, 10 miles, $0.2/mile" Client.idle =
    Some (Return (Result []),
          called "calculate_toll"
            [("vehicle_type", AStr "car"); ("distance", AFloat 10);
             ("toll_rate", AFloat 10)] Client.idle).
Proof.
  destruct (toll_rate_repeats_distance env_gateway gateway_select server_no_rows
              "Calculate toll for car, 10 miles, $0.2/mile" Client.idle
              "calculate toll for car, " "10" " " ", $0.2/mile")
    as (x & vehicle & Hx & Hrun).
  - reflexivity.
  - reflexivity.
  - reflexivity.
  - reflexivity.
  - exists "10", "", "". by split_and!; [..|left|].
  - reflexivity.
  - done.
  - vm_compute in Hx. injection Hx as <-.
    vm_compute in Hrun. injection Hrun as <-. reflexivity.
Defined.

(** X17.  Wherever the distance pattern finds a match in a command, the
    rate pattern finds one too.  So the default rate of 0.25 is never
    combined with a distance read in the command: a toll command in which
    the rate pattern finds nothing is sent with the distance 10.0 and the
    rate 0.25. *)
Theorem default_rate_only_with_default_distance (env : gmap string string) (gw : Gateway)
    (srv : ToolServer) (input : string) (w : Client.World) :
  (∀ command distance,
     Re.search false "(\d+\.?\d*)\s+miles" command = Some distance →
     ∃ rate, Re.search false "\$?(\d+\.?\d*)\s*/?\s*mile" command = Some rate) ∧
  (str_in "secret word" (normalized input) = false →
   str_in "calculate toll" (normalized input) = true →
   Re.search false "\$?(\d+\.?\d*)\s*/?\s*mile" (normalized input) = None →
   ∃ vehicle,
     process_command env gw srv input w =
       Some (answered Result
               (srv "calculate_toll"
                  [("vehicle_type", AStr vehicle); ("distance", AFloat 10.0);
                   ("toll_rate", AFloat 0.25)]),
             called "calculate_toll"
               [("vehicle_type", AStr vehicle); ("distance", AFloat 10.0);
                ("toll_rate", AFloat 0.25)] w)).
Proof.
  assert (∀ command distance,
            Re.search false "(\d+\.?\d*)\s+miles" command = Some distance →
            ∃ rate, Re.search false "\$?(\d+\.?\d*)\s*/?\s*mile" command = Some rate) as H.
  { intros command distance Hd. by apply (search_distance_rate command distance). }
  split; [done|]. intros H1 H2 Hnone.
  destruct (rule_calculate_toll env gw srv input w H1 H2) as (d & r & Hd & Hr & Hrun).
  unfold extracted in Hd, Hr. rewrite Hnone in Hr.
  destruct (Re.search false "(\d+\.?\d*)\s+miles" (normalized input))
    as [distance|] eqn:E.
  { destruct (H _ distance E) as [rate Hrate]. congruence. }
  subst d r. by eexists.
Qed.

(** A command that gives its distance in kilometres. *)
Lemma default_rate_only_with_default_distance_witness :
  process_command env_gateway gateway_select server_no_rows
    "Calculate toll for truck, 12 km" Client.idle =
    Some (Return (Result []),
          called "calculate_toll"
            [("vehicle_type", AStr "truck"); ("distance", AFloat 10.0);
             ("toll_rate", AFloat 0.25)] Client.idle).
Proof.
  destruct (default_rate_only_with_default_distance env_gateway gateway_select
              server_no_rows "Calculate toll for truck, 12 km" Client.idle) as [_ Hdefault].
  destruct (Hdefault eq_refl eq_refl eq_refl) as (vehicle & Hrun).
  rewrite Hrun. vm_compute in Hrun. injection Hrun as <-. reflexivity.
Defined.

(** X18.  A toll command without any digit is sent to the toll tool with
    the distance 10.0 and the rate 0.25, and when it does not contain the
    word [for] either, with the vehicle type [car]. *)
Theorem toll_defaults_without_numbers (env : gmap string string) (gw : Gateway)
    (srv : ToolServer) (input : string) (w : Client.World) :
  str_in "secret word" (normalized input) = false →
  str_in "calculate toll" (normalized input) = true →
  no_digit (normalized input) = true →
  ∃ vehicle,
    process_command env gw srv input w =
      Some (answered Result
              (srv "calculate_toll"
                 [("vehicle_type", AStr vehicle); ("distance", AFloat 10.0);
                  ("toll_rate", AFloat 0.25)]),
            called "calculate_toll"
              [("vehicle_type", AStr vehicle); ("distance", AFloat 10.0);
               ("toll_rate", AFloat 0.25)] w) ∧
    (str_in "for" (normalized input) = false → vehicle = "car").
Proof.
  intros H1 H2 Hnd.
  destruct (rule_calculate_toll env gw srv input w H1 H2) as (d & r & Hd & Hr & Hrun).
  destruct (search_numbers_none _ Hnd) as [Hdn Hrn].
  unfold extracted in Hd, Hr. unfold distance_pattern in Hdn. unfold rate_pattern in Hrn.
  rewrite Hdn in Hd. rewrite Hrn in Hr. subst d r.
  exists (default "car" (Re.search false "for\s+(\w+)" (normalized input))).
  split; [exact Hrun|]. intros Hfor.
  destruct (Re.search false "for\s+(\w+)" (normalized input)) as [v|] eqn:E; [|done].
  apply (search_vehicle_for _ v) in E. congruence.
Qed.

(** The bare command. *)
Lemma toll_defaults_without_numbers_witness :
  process_command env_gateway gateway_select server_no_rows "Calculate toll" Client.idle =
    Some (Return (Result []),
          called "calculate_toll"
            [("vehicle_type", AStr "car"); ("distance", AFloat 10.0);
             ("toll_rate", AFloat 0.25)] Client.idle).
Proof.
  destruct (toll_defaults_without_numbers env_gateway gateway_select server_no_rows
              "Calculate toll" Client.idle) as (vehicle & Hrun & Hcar);
    [reflexivity|reflexivity|reflexivity|].
  rewrite Hrun, Hcar; reflexivity.
Defined.

(** X19.  The chat handler does nothing on an empty text.  On any other
    text it enters the text as typed in the transcript, runs the
    interpreter, and enters one answer of the assistant after whatever the
    interpreter noted, which is at most the generated SQL.  The answer is
    the interpreter's text when it returned one, and an error the
    interpreter raises is not passed on: the answer is then the word
    [Error] followed by the message of the error. *)
Theorem chat_turn_is_recorded (str_result : tool_result → string)
    (env : gmap string string) (gw : Gateway) (srv : ToolServer) (input : string)
    (w : Client.World) :
  (input = "" →
   Chat.on_chat_input str_result env gw srv input w = Some (Return (), w)) ∧
  (input ≠ "" →
   ∃ o w1 w' notes reply,
     process_command env gw srv input (typed input w) = Some (o, w1) ∧
     Chat.on_chat_input str_result env gw srv input w = Some (Return (), w') ∧
     messages w' = messages w ++ [("user", input)] ++ notes ++ [("assistant", reply)] ∧
     calls w' = calls w1 ∧ posts w' = posts w1 ∧
     (notes = [] ∨ ∃ sql, notes = [("assistant", "Generated SQL: " +:+ sql)]) ∧
     (∀ e, o = Raise e → reply = "Error: " +:+ str_exn e) ∧
     (∀ text, o = Return (Message text) → reply = text) ∧
     (∀ result, o = Return (Result result) → reply = str_result result)).
Proof.
  split; [by intros ->|]. intros Hne.
  rewrite on_chat_input_run by done.
  destruct (process_command_footprint env gw srv input (typed input w))
    as (o & w1 & Hrun & Hw1).
  rewrite Hrun.
  assert (∃ notes, messages w1 = messages w ++ [("user", input)] ++ notes ∧
                   (notes = [] ∨ ∃ sql, notes = [("assistant", "Generated SQL: " +:+ sql)]))
    as (notes & Hmessages & Hnotes).
  { destruct Hw1 as [->|[(tool & arguments & _ & ->)|
                    [(req & _ & _ & _ & _ & ->)|(req & sql & _ & _ & _ & ->)]]].
    - exists []. simpl. by auto.
    - exists []. simpl. by auto.
    - exists []. simpl. by auto.
    - exists [("assistant", "Generated SQL: " +:+ sql)]. simpl.
      split; [by rewrite <- List.app_assoc|]. by eauto. }
  exists o, w1.
  destruct o as [[result|text]|e]; eexists; exists notes; eexists;
    (split; [done|]); (split; [done|]); simpl; rewrite Hmessages, <- !List.app_assoc;
    (split_and!; [done|done|done|done|..]); by intros ? [= <-].
Qed.

(** A command that names the secret word, and a tool server that is
    down. *)
Lemma chat_turn_is_recorded_witness :
  Chat.on_chat_input str_joined env_gateway gateway_select
    (λ _ _, Raise (LibraryError "Client failed to connect")) "Get secret word" Client.idle =
    Some (Return (),
          {| messages := [("user", "Get secret word");
                          ("assistant", "Error: Client failed to connect")];
             calls := [("secret_word", [])]; posts := [] |}).
Proof.
  destruct (chat_turn_is_recorded str_joined env_gateway gateway_select
              (λ _ _, Raise (LibraryError "Client failed to connect")) "Get secret word"
              Client.idle) as [_ Hturn].
  destruct (Hturn ltac:(done)) as (o & w1 & w' & notes & reply & _ & Hrun & _).
  rewrite Hrun. vm_compute in Hrun. injection Hrun as <-. reflexivity.
Defined.

End TollExtras.

Section VehicleExtras.

Import Py Client Spec Spec2 Sample Sample2 PyStr.
Import PyStrFacts TollFacts VehicleFacts RuleFacts.

(** X20.  In every toll command, the vehicle type handed to the toll tool
    is the word, that is the longest run of letters, digits and
    underscores, which follows the leftmost [for] of the command that is
    followed by at least one blank and then by such a character; a [for]
    that is followed by anything else is passed over, and when there is no
    such [for] the vehicle type is [car]. *)
Theorem vehicle_is_word_after_for (env : gmap string string) (gw : Gateway)
    (srv : ToolServer) (input : string) (w : Client.World) :
  (∀ command, Re.search false "for\s+(\w+)" command = vehicle_word command) ∧
  (str_in "secret word" (normalized input) = false →
   str_in "calculate toll" (normalized input) = true →
   ∃ distance toll_rate,
     process_command env gw srv input w =
       Some (answered Result
               (srv "calculate_toll"
                  [("vehicle_type", AStr (default "car" (vehicle_word (normalized input))));
                   ("distance", AFloat distance); ("toll_rate", AFloat toll_rate)]),
             called "calculate_toll"
               [("vehicle_type", AStr (default "car" (vehicle_word (normalized input))));
                ("distance", AFloat distance); ("toll_rate", AFloat toll_rate)] w)).
Proof.
  split; [intros command; apply search_vehicle_total|]. intros H1 H2.
  destruct (rule_calculate_toll env gw srv input w H1 H2) as (d & r & _ & _ & Hrun).
  pose proof (search_vehicle_total (normalized input)) as Hv.
  unfold vehicle_pattern in Hv. rewrite Hv in Hrun.
  by exists d, r.
Qed.

(** Three commands: a [for] inside a word before the vehicle, a [for]
    followed by a comma before the vehicle, and no vehicle at all. *)
Lemma vehicle_is_word_after_for_witness :
  vehicle_word "calculate toll forklift for bus" = Some "bus" ∧
  vehicle_word "calculate toll for , for car_2 now" = Some "car_2" ∧
  vehicle_word "calculate toll forever" = None ∧
  process_command env_gateway gateway_select server_no_rows
    "Calculate toll forklift for Bus" Client.idle =
    Some (Return (Result []),
          called "calculate_toll"
            [("vehicle_type", AStr "bus"); ("distance", AFloat 10.0);
             ("toll_rate", AFloat 0.25)] Client.idle).
Proof.
  split_and!; [reflexivity..|].
  destruct (vehicle_is_word_after_for env_gateway gateway_select server_no_rows
              "Calculate toll forklift for Bus" Client.idle) as [_ Hcall].
  destruct (Hcall eq_refl eq_refl) as (distance & toll_rate & Hrun).
  rewrite Hrun. vm_compute in Hrun. injection Hrun as <- <-. reflexivity.
Defined.

End VehicleExtras.
